(** * nvhost_nvdec_common: the NVDEC/VIC ioctl front end

    A shallow embedding of
    [src/core/hle/service/nvdrv/devices/nvhost_nvdec_common.cpp]:
    the byte-buffer marshalling helpers ([SpliceVectors], [WriteVectors]),
    the buffer address map ([FindBufferMap], [AddBufferMap],
    [RemoveBufferMap]) and the ioctl handlers built on them ([Submit],
    [GetSyncpoint], [GetWaitbase], [MapBuffer], [UnmapBuffer]).

    Conventions.
    - [u32]/[u64] values are [Z] with the wrap-around written out
      ([wrap32], [wrap64]); byte buffers ([std::vector<u8>]) are
      [list byte]; little-endian (de)serialisation is coqutil's
      [le_combine]/[le_split].
    - [std::memcpy] on a vector is a checked access: touching bytes past
      the end of the buffer is undefined behaviour in C++, and shows up
      here as the outcome [Fault].
    - [std::map<GPUVAddr, BufferMap>] is a key-ordered association list;
      iterators are positions in it.
    - the collaborators (nvmap registry, GPU memory manager, command
      consumer) are section variables; calls into the GPU are recorded in
      a trace. *)

From Stdlib Require Import ZArith List Lia Bool.
From coqutil Require Import Byte Word.LittleEndianList.
Import ListNotations.
Local Open Scope Z_scope.

(** ** Machine integers *)

Definition wrap32 (z : Z) : Z := z mod 2 ^ 32.
Definition wrap64 (z : Z) : Z := z mod 2 ^ 64.

(** [namespace NvErrCodes]: [u32] constants, the negative ones through
    [static_cast<u32>]. *)
Module NvErrCodes.
Definition Success : Z := 0.
Definition OutOfMemory : Z := Eval cbv in wrap32 (-12).
Definition InvalidInput : Z := Eval cbv in wrap32 (-22).
End NvErrCodes.

(** ** Outcomes

    A handler either returns, or runs into behaviour the C++ standard
    leaves undefined (a [memcpy] past the end of a buffer or of a struct,
    the dereference of [end()]) or into a failed [ASSERT]. *)

Inductive fault : Type :=
| OutOfBoundsRead
| OutOfBoundsWrite
| AssertionFailed
| EndIteratorDeref.

Inductive outcome (A : Type) : Type :=
| Ret (a : A)
| Fault (f : fault).
Arguments Ret {A} a.
Arguments Fault {A} f.

Definition bind {A B : Type} (c : outcome A) (k : A -> outcome B) : outcome B :=
  match c with
  | Ret a => k a
  | Fault f => Fault f
  end.

Declare Scope outcome_scope.
Delimit Scope outcome_scope with outcome.
Notation "x <- c ;; k" := (bind c (fun x => k))
  (at level 61, c at next level, right associativity) : outcome_scope.
Notation "' pat <- c ;; k" := (bind c (fun x => match x with pat => k end))
  (at level 61, pat pattern, c at next level, right associativity) : outcome_scope.
Local Open Scope outcome_scope.

(** ** Raw buffer accesses *)

(** [std::memcpy(dst, src.data() + offset, n)] with [src] a vector. *)
Definition read_bytes (src : list byte) (offset n : Z) : outcome (list byte) :=
  if offset + n <=? Z.of_nat (length src)
  then Ret (firstn (Z.to_nat n) (skipn (Z.to_nat offset) src))
  else Fault OutOfBoundsRead.

(** [std::memcpy(dst.data() + offset, data, data_size)] with [dst] a vector. *)
Definition write_bytes (dst : list byte) (offset : Z) (data : list byte)
  : outcome (list byte) :=
  if offset + Z.of_nat (length data) <=? Z.of_nat (length dst)
  then Ret (firstn (Z.to_nat offset) dst ++ data
            ++ skipn (Z.to_nat offset + length data) dst)
  else Fault OutOfBoundsWrite.

(** ** Wire records

    Every parameter struct is trivially copyable and moved with [memcpy];
    [Pod] gives its size and its byte image. *)

Class Pod (T : Type) : Type := {
  sizeof : nat;
  of_bytes : list byte -> T;
  to_bytes : T -> list byte
}.
Arguments sizeof T {_}.

(** Reading a struct's image back yields the bytes it was filled from. *)
Class PodOk (T : Type) `{Pod T} : Prop := {
  to_of_bytes : forall bs : list byte, length bs = sizeof T -> to_bytes (of_bytes bs) = bs
}.

Definition field (bs : list byte) (offset len : nat) : list byte :=
  firstn len (skipn offset bs).

Definition get_u32 (bs : list byte) (offset : nat) : Z :=
  le_combine (field bs offset 4).

Definition put_u32 (v : Z) : list byte := le_split 4 v.

#[export] Instance Pod_u32 : Pod Z := {|
  sizeof := 4;
  of_bytes bs := get_u32 bs 0;
  to_bytes v := put_u32 v
|}.

(** Modelled from the spec: the struct declarations live in
    nvhost_nvdec_common.h, which is not part of the sources; the layouts
    follow the spec's table of ioctl records.
    Submit header: [cmd_buffer_count, relocation_count, syncpoint_count,
    fence_count : u32]. *)
Record IoctlSubmit : Type := {
  cmd_buffer_count : Z;
  relocation_count : Z;
  syncpoint_count : Z;
  fence_count : Z
}.

#[export] Instance Pod_IoctlSubmit : Pod IoctlSubmit := {|
  sizeof := 16;
  of_bytes bs := {| cmd_buffer_count := get_u32 bs 0;
                    relocation_count := get_u32 bs 4;
                    syncpoint_count := get_u32 bs 8;
                    fence_count := get_u32 bs 12 |};
  to_bytes p := put_u32 (cmd_buffer_count p) ++ put_u32 (relocation_count p)
                ++ put_u32 (syncpoint_count p) ++ put_u32 (fence_count p)
|}.

(** Modelled from the spec: CommandBuffer is
    [memory_id : u32, offset : u32, word_count : u32]. *)
Record CommandBuffer : Type := {
  memory_id : Z;
  offset : Z;
  word_count : Z
}.

#[export] Instance Pod_CommandBuffer : Pod CommandBuffer := {|
  sizeof := 12;
  of_bytes bs := {| memory_id := get_u32 bs 0;
                    offset := get_u32 bs 4;
                    word_count := get_u32 bs 8 |};
  to_bytes c := put_u32 (memory_id c) ++ put_u32 (offset c) ++ put_u32 (word_count c)
|}.

(** Modelled from the spec: GetSyncpoint and GetWaitbase parameters are
    [param : u32] followed by [value : u32]. *)
Record IoctlGetSyncpoint : Type := {
  param : Z;
  value : Z
}.

#[export] Instance Pod_IoctlGetSyncpoint : Pod IoctlGetSyncpoint := {|
  sizeof := 8;
  of_bytes bs := {| param := get_u32 bs 0; value := get_u32 bs 4 |};
  to_bytes p := put_u32 (param p) ++ put_u32 (value p)
|}.

Definition IoctlGetWaitbase : Type := IoctlGetSyncpoint.

(** Modelled from the spec: MapBufferEntry is
    [map_handle : u32, map_address : u32]. *)
Record MapBufferEntry : Type := {
  map_handle : Z;
  map_address : Z
}.

#[export] Instance Pod_MapBufferEntry : Pod MapBufferEntry := {|
  sizeof := 8;
  of_bytes bs := {| map_handle := get_u32 bs 0; map_address := get_u32 bs 4 |};
  to_bytes e := put_u32 (map_handle e) ++ put_u32 (map_address e)
|}.

(** The element types the handlers only carry around ([Reloc],
    [SyncptIncr], [Fence]) are kept as their byte image. *)
Record Blob : Type := { blob_bytes : list byte }.

Definition Pod_Blob (n : nat) : Pod Blob := {|
  sizeof := n;
  of_bytes bs := {| blob_bytes := bs |};
  to_bytes b := blob_bytes b
|}.

(** Modelled from the spec: the MapBuffer header starts with
    [num_entries : u32]; whatever else the header declares is carried as
    [header_rest] (of [n] bytes). *)
Record IoctlMapBuffer : Type := {
  num_entries : Z;
  header_rest : list byte
}.

Definition Pod_IoctlMapBuffer (n : nat) : Pod IoctlMapBuffer := {|
  sizeof := 4 + n;
  of_bytes bs := {| num_entries := get_u32 bs 0; header_rest := field bs 4 n |};
  to_bytes p := put_u32 (num_entries p) ++ header_rest p
|}.

(** [std::memcpy(&params, input.data(), sizeof(T))]. *)
Definition read_struct (T : Type) `{Pod T} (input : list byte) : outcome T :=
  bs <- read_bytes input 0 (Z.of_nat (sizeof T)) ;;
  Ret (of_bytes bs).

(** [std::memcpy(output.data(), &params, sizeof(T))]. *)
Definition write_struct {T : Type} `{Pod T} (output : list byte) (params : T)
  : outcome (list byte) :=
  write_bytes output 0 (to_bytes params).

(** [std::memcpy(output.data(), &params, output.size())]: the length is
    the output buffer's, not the struct's; a buffer larger than the
    struct makes the copy read past [params]. *)
Definition write_struct_sized {T : Type} `{Pod T} (output : list byte) (params : T)
  : outcome (list byte) :=
  if (length output <=? sizeof T)%nat
  then Ret (firstn (length output) (to_bytes params))
  else Fault OutOfBoundsRead.

(** A vector of [count] elements of [T] filled from [count * sizeof(T)]
    bytes. *)
Fixpoint chunks (count size : nat) (bs : list byte) : list (list byte) :=
  match count with
  | O => []
  | S n => firstn size bs :: chunks n size (skipn size bs)
  end.

(** [SpliceVectors] copies [count] elements of [T] from [input] at
    [offset] into the destination vector and returns the advanced
    offset. *)
Definition SpliceVectors (T : Type) `{Pod T} (input : list byte) (count offset : Z)
  : outcome (list T * Z) :=
  bs <- read_bytes input offset (count * Z.of_nat (sizeof T)) ;;
  Ret (map of_bytes (chunks (Z.to_nat count) (sizeof T) bs),
       offset + count * Z.of_nat (sizeof T)).

Definition vector_bytes {T : Type} `{Pod T} (src : list T) : list byte :=
  concat (map to_bytes src).

(** [WriteVectors] writes the elements of [src] to [dst] at [offset] and
    returns the advanced offset. *)
Definition WriteVectors {T : Type} `{Pod T} (dst : list byte) (src : list T) (offset : Z)
  : outcome (list byte * Z) :=
  dst' <- write_bytes dst offset (vector_bytes src) ;;
  Ret (dst', offset + Z.of_nat (length src) * Z.of_nat (sizeof T)).

(** ** The buffer address map *)

(** Modelled from the spec: class BufferMap is declared in
    nvhost_nvdec_common.h, which is not part of the sources.  A mapping
    is [(device_address, size, cpu_address, is_allocated)] and covers
    [[device_address, device_address + size)]; addresses are 64-bit. *)
Record BufferMap : Type := {
  start_addr : Z;
  map_size : Z;
  cpu_addr : Z;
  is_allocated : bool
}.

Definition StartAddr (b : BufferMap) : Z := start_addr b.
Definition EndAddr (b : BufferMap) : Z := wrap64 (start_addr b + map_size b).
Definition Size (b : BufferMap) : Z := map_size b.
Definition CpuAddr (b : BufferMap) : Z := cpu_addr b.
Definition IsAllocated (b : BufferMap) : bool := is_allocated b.

(** [std::map<K, V>] with [K] an integer type: the entries in key order.
    An iterator is a position; [end()] is the length. *)
Section StdMap.
Context {V : Type}.

Definition iterator : Type := nat.
Definition map_end (m : list (Z * V)) : iterator := length m.

(** [m.insert_or_assign(k, v)] *)
Fixpoint insert_or_assign (m : list (Z * V)) (k : Z) (v : V) : list (Z * V) :=
  match m with
  | [] => [(k, v)]
  | (k', v') :: rest =>
      if k <? k' then (k, v) :: m
      else if k =? k' then (k, v) :: rest
      else (k', v') :: insert_or_assign rest k v
  end.

(** [m.find(k)] *)
Fixpoint map_find (m : list (Z * V)) (k : Z) : iterator :=
  match m with
  | [] => O
  | (k', _) :: rest => if k' =? k then O else S (map_find rest k)
  end.

(** [m.upper_bound(k)]: the first entry whose key is greater than [k]. *)
Fixpoint upper_bound (m : list (Z * V)) (k : Z) : iterator :=
  match m with
  | [] => O
  | (k', _) :: rest => if k <? k' then O else S (upper_bound rest k)
  end.

(** [m.erase(it)] *)
Definition erase (m : list (Z * V)) (it : iterator) : list (Z * V) :=
  firstn it m ++ skipn (S it) m.

(** [std::find_if(m.begin(), last, pred)]: the first position before
    [last] whose entry satisfies [pred], and [last] when there is none. *)
Fixpoint find_if (pred : Z * V -> bool) (m : list (Z * V)) (last : iterator)
  : iterator :=
  match last, m with
  | S n, entry :: rest => if pred entry then O else S (find_if pred rest n)
  | _, _ => O
  end.

(** Keys strictly increase along the list. *)
Fixpoint ascending (m : list (Z * V)) : Prop :=
  match m with
  | [] => True
  | (k, _) :: rest => Forall (fun entry => k < fst entry) rest /\ ascending rest
  end.

(** What [m[k]] would find. *)
Definition lookup (m : list (Z * V)) (k : Z) : option V :=
  option_map snd (nth_error m (map_find m k)).
End StdMap.

(** ** Memory objects and the GPU *)

(** Modelled from the spec: nvmap::Object::Status is declared in nvmap.h,
    which is not part of the sources; it is the allocation-status flag
    of a memory object, of which the handlers test [Allocated]. *)
Inductive Status : Type := Created | Allocated.

(** Modelled from the spec: nvmap::Object is declared in nvmap.h, which
    is not part of the sources.  An object has a size, a CPU address, a
    device mapping address (0 when unmapped; 32 bits wide, as the
    [static_cast<u32>] in [MapBuffer] shows) and an allocation status. *)
Record Object : Type := {
  addr : Z;
  size : Z;
  status : Status;
  dma_map_addr : Z
}.

Definition Status_eqb (a b : Status) : bool :=
  match a, b with
  | Created, Created | Allocated, Allocated => true
  | _, _ => false
  end.

Definition set_dma_map_addr (o : Object) (v : Z) : Object :=
  {| addr := addr o; size := size o; status := status o; dma_map_addr := v |}.

(** Calls made on [system.GPU()]. *)
Inductive gpu_call : Type :=
| MapAllocate32 (cpu_address sz : Z) (result : Z)
| ReadBlock (gpu_addr sz : Z)
| PushCommandBuffer (cmdlist : list Z)
| Unmap (gpu_addr sz : Z).

(** The device session together with what it reaches through
    [nvmap_dev] and [system]: objects are shared ([std::shared_ptr]) and
    live in a store indexed by reference. *)
Record state : Type := {
  buffer_mappings : list (Z * BufferMap);
  objects : nat -> Object;
  gpu : list gpu_call
}.

Definition with_buffer_mappings (st : state) (m : list (Z * BufferMap)) : state :=
  {| buffer_mappings := m; objects := objects st; gpu := gpu st |}.

Definition with_gpu (st : state) (trace : list gpu_call) : state :=
  {| buffer_mappings := buffer_mappings st; objects := objects st; gpu := trace |}.

(** One more call on the GPU. *)
Definition with_gpu_call (st : state) (c : gpu_call) : state :=
  with_gpu st (gpu st ++ [c]).

(** [object->dma_map_addr = v] through the shared pointer [object]. *)
Definition store_dma_map_addr (st : state) (object : nat) (v : Z) : state :=
  {| buffer_mappings := buffer_mappings st;
     objects := fun r => if Nat.eqb r object
                         then set_dma_map_addr (objects st r) v
                         else objects st r;
     gpu := gpu st |}.

(** [AddBufferMap] *)
Definition AddBufferMap (m : list (Z * BufferMap)) (gpu_addr sz cpu_address : Z)
  (allocated : bool) : list (Z * BufferMap) :=
  insert_or_assign m gpu_addr
    {| start_addr := gpu_addr; map_size := sz; cpu_addr := cpu_address;
       is_allocated := allocated |}.

(** [RemoveBufferMap]: the reported size, if an entry was erased, and the
    map afterwards. *)
Definition RemoveBufferMap (m : list (Z * BufferMap)) (gpu_addr : Z)
  : option Z * list (Z * BufferMap) :=
  let iter := map_find m gpu_addr in
  if Nat.eqb iter (map_end m) then (None, m)
  else
    match nth_error m iter with
    | Some entry =>
        let sz := if IsAllocated (snd entry) then Size (snd entry) else 0 in
        (Some sz, erase m iter)
    | None => (None, m)
    end.

(** ** Invariant of the buffer address map *)

(** Entries are in key order, every entry is filed under the start
    address of its mapping, and a mapping ends [Size] bytes after its
    start (in 64-bit arithmetic). *)
Definition buffer_map_inv (m : list (Z * BufferMap)) : Prop :=
  ascending m
  /\ Forall (fun entry =>
               fst entry = StartAddr (snd entry)
               /\ EndAddr (snd entry) = wrap64 (StartAddr (snd entry) + Size (snd entry)))
            m.

(** Two states that hold the same map, the same GPU trace and the same
    objects. *)
Definition same_state (st st' : state) : Prop :=
  buffer_mappings st' = buffer_mappings st
  /\ gpu st' = gpu st
  /\ forall object, objects st' object = objects st object.

(** ** The rest of the device session *)

(** Modelled from the spec: IoctlSetNvmapFD is declared in
    nvhost_nvdec_common.h, which is not part of the sources; it is the
    single field [nvmap_fd : u32]. *)
Record IoctlSetNvmapFD : Type := {
  params_nvmap_fd : Z
}.

#[export] Instance Pod_IoctlSetNvmapFD : Pod IoctlSetNvmapFD := {|
  sizeof := 4;
  of_bytes bs := {| params_nvmap_fd := get_u32 bs 0 |};
  to_bytes p := put_u32 (params_nvmap_fd p)
|}.

(** The members the other two handlers write: [nvmap_fd], and
    [submit_timeout] as the bytes of its object representation (its
    declaration is in the header; its size is the length of the list). *)
Record session : Type := {
  device : state;
  nvmap_fd : Z;
  submit_timeout : list byte
}.

(** ** Vocabulary for the GPU trace and the object store *)

Definition is_MapAllocate32 (c : gpu_call) : bool :=
  match c with MapAllocate32 _ _ _ => true | _ => false end.

Definition is_Unmap (c : gpu_call) : bool :=
  match c with Unmap _ _ => true | _ => false end.

(** A block read or a pushed command list: what forwarding a command
    buffer consists of. *)
Definition is_forwarding (c : gpu_call) : bool :=
  match c with ReadBlock _ _ | PushCommandBuffer _ => true | _ => false end.

(** Every object's device address is a 32-bit value. *)
Definition dma_map_addr_32bit (objs : nat -> Object) : Prop :=
  forall object, 0 <= dma_map_addr (objs object) < 2 ^ 32.

(** What a stretch of a handler may do to the session: append calls of
    one kind to the trace, at most [n] of them, and overwrite
    [dma_map_addr] in some objects with 32-bit values. *)
Definition touches_only (kind : gpu_call -> bool) (n : nat) (st st' : state) : Prop :=
  (exists calls,
     gpu st' = gpu st ++ calls
     /\ forallb kind calls = true
     /\ (length calls <= n)%nat)
  /\ (forall r, objects st' r = set_dma_map_addr (objects st r) (dma_map_addr (objects st' r)))
  /\ (forall r, objects st' r = objects st r \/ 0 <= dma_map_addr (objects st' r) < 2 ^ 32).

(** ** A concrete session for worked examples *)

(** Handles 3, 4 and 5 stand for the objects 0, 1 and 2; no other handle
    resolves. *)
Definition demo_GetObject (handle : Z) : option nat :=
  if handle =? 3 then Some 0%nat
  else if handle =? 4 then Some 1%nat
  else if handle =? 5 then Some 2%nat
  else None.

(** Object 0 is mapped at 0x10000, object 1 has never been mapped, and
    object 2 carries the device address 0x20000. *)
Definition demo_objects (object : nat) : Object :=
  match object with
  | 0%nat => {| addr := 0x80000000; size := 0x1000; status := Allocated;
                dma_map_addr := 0x10000 |}
  | 1%nat => {| addr := 0x90000000; size := 0x2000; status := Created;
                dma_map_addr := 0 |}
  | _ => {| addr := 0xA0000000; size := 0x1000; status := Allocated;
            dma_map_addr := 0x20000 |}
  end.

(** The map holds the mapping of object 0 and nothing else. *)
Definition demo_mappings : list (Z * BufferMap) :=
  AddBufferMap [] 0x10000 0x1000 0x80000000 true.

Definition demo_state : state :=
  {| buffer_mappings := demo_mappings; objects := demo_objects; gpu := [] |}.

(** A GPU whose allocator hands out 0x30000, 0x31000, ... and whose
    memory holds at every word its own address. *)
Definition demo_MapAllocate32 (trace : list gpu_call) (cpu_address sz : Z) : Z :=
  0x30000 + 0x1000 * Z.of_nat (length trace).

Definition demo_ReadBlock (trace : list gpu_call) (gpu_addr sz : Z) : list Z :=
  map (fun i => gpu_addr + 4 * Z.of_nat i) (seq 0 (Z.to_nat (sz / 4))).

(** Submit inputs.  [demo_submit_full]: one descriptor (handle 3), one
    relocation, one syncpoint and one fence, with [Reloc] of 16 bytes and
    [SyncptIncr] and [Fence] of 8. *)
Definition demo_submit_params : IoctlSubmit :=
  {| cmd_buffer_count := 1; relocation_count := 1; syncpoint_count := 1;
     fence_count := 1 |}.

Definition demo_cmd (handle : Z) : CommandBuffer :=
  {| memory_id := handle; offset := 8; word_count := 2 |}.

Definition demo_submit_full : list byte :=
  to_bytes demo_submit_params ++ to_bytes (demo_cmd 3)
  ++ repeat Byte.x11 16 ++ put_u32 7 ++ repeat Byte.x22 8 ++ repeat Byte.x33 8
  ++ repeat Byte.x44 8.

(** [demo_submit_cmds handles]: one descriptor per handle and no other
    vector. *)
Definition demo_submit_cmds (handles : list Z) : list byte :=
  to_bytes {| cmd_buffer_count := Z.of_nat (length handles); relocation_count := 0;
              syncpoint_count := 0; fence_count := 0 |}
  ++ vector_bytes (map demo_cmd handles).

(** A header announcing one descriptor, and nothing after it. *)
Definition demo_submit_short : list byte :=
  to_bytes {| cmd_buffer_count := 1; relocation_count := 0;
              syncpoint_count := 0; fence_count := 0 |}.

(** Map/unmap inputs: a header of [4 + rest] bytes and one entry per
    handle. *)
Definition demo_map_params (n : Z) (rest : nat) : IoctlMapBuffer :=
  {| num_entries := n; header_rest := repeat Byte.x00 rest |}.

Definition demo_entry (handle : Z) : MapBufferEntry :=
  {| map_handle := handle; map_address := 0 |}.

Definition demo_map_input (rest : nat) (handles : list Z) : list byte :=
  @to_bytes _ (Pod_IoctlMapBuffer rest) (demo_map_params (Z.of_nat (length handles)) rest)
  ++ vector_bytes (map demo_entry handles).

(** ** The ioctl handlers *)

Section Device.
(** [common/assert.h] is not part of the sources: a failed [ASSERT]
    either stops the process ([assert_fatal = true]) or is only logged. *)
Variable assert_fatal : bool.
(** [nvmap_dev->GetObject(handle)]: the object a handle stands for, if
    any. *)
Variable GetObject : Z -> option nat.
(** [gpu.MemoryManager().MapAllocate32(addr, size)]: the device address
    handed out, given the calls made so far. *)
Variable gpu_MapAllocate32 : list gpu_call -> Z -> Z -> Z.
(** [gpu.MemoryManager().ReadBlock(addr, dst, size)]: the words found
    at [addr], given the calls made so far. *)
Variable gpu_ReadBlock : list gpu_call -> Z -> Z -> list Z.
(** [sizeof(Reloc)], [sizeof(SyncptIncr)], [sizeof(Fence)] and the size
    of what follows [num_entries] in [IoctlMapBuffer]. *)
Variables sizeof_Reloc sizeof_SyncptIncr sizeof_Fence mapbuffer_rest : nat.

Definition Pod_Reloc : Pod Blob := Pod_Blob sizeof_Reloc.
Definition Pod_SyncptIncr : Pod Blob := Pod_Blob sizeof_SyncptIncr.
Definition Pod_Fence : Pod Blob := Pod_Blob sizeof_Fence.
#[local] Instance MapBufferHeader : Pod IoctlMapBuffer := Pod_IoctlMapBuffer mapbuffer_rest.

(** [ASSERT(cond)] *)
Definition ASSERT (cond : bool) : outcome unit :=
  if cond then Ret tt
  else if assert_fatal then Fault AssertionFailed else Ret tt.

(** [FindBufferMap] *)
Definition FindBufferMap (m : list (Z * BufferMap)) (gpu_addr : Z)
  : outcome (option BufferMap) :=
  let it :=
    find_if (fun entry => (StartAddr (snd entry) <=? gpu_addr)
                          && (gpu_addr <? EndAddr (snd entry)))
            m (upper_bound m gpu_addr) in
  _ <- ASSERT (negb (Nat.eqb it (map_end m))) ;;
  match nth_error m it with
  | Some entry => Ret (Some (snd entry))
  | None => Fault EndIteratorDeref
  end.

(** *** Submit *)

(** One turn of the loop over [command_buffers]; [Some status] stands
    for [return status]. *)
Definition Submit_cmd_buffer (find : Z -> outcome (option BufferMap))
  (st : state) (cmd_buffer : CommandBuffer) : outcome (state * option Z) :=
  match GetObject (memory_id cmd_buffer) with
  | None =>
      (* ASSERT_OR_EXECUTE(object, return NvErrCodes::InvalidInput;) *)
      _ <- ASSERT false ;;
      Ret (st, Some NvErrCodes.InvalidInput)
  | Some object =>
      map <- find (dma_map_addr (objects st object)) ;;
      match map with
      | None => Ret (st, Some 0)
      | Some map =>
          let gpu_addr := wrap64 (StartAddr map + offset cmd_buffer) in
          let sz := word_count cmd_buffer * 4 in
          let cmdlist := gpu_ReadBlock (gpu st) gpu_addr sz in
          Ret (with_gpu st (gpu st ++ [ReadBlock gpu_addr sz; PushCommandBuffer cmdlist]),
               None)
      end
  end.

Fixpoint Submit_loop (find : Z -> outcome (option BufferMap))
  (st : state) (command_buffers : list CommandBuffer) : outcome (state * option Z) :=
  match command_buffers with
  | [] => Ret (st, None)
  | cmd_buffer :: rest =>
      '(st, r) <- Submit_cmd_buffer find st cmd_buffer ;;
      match r with
      | Some status => Ret (st, Some status)
      | None => Submit_loop find st rest
      end
  end.

(** [Submit], with the lookup it performs per descriptor as [find]. *)
Definition Submit_with (find : Z -> outcome (option BufferMap))
  (st : state) (input output : list byte) : outcome (Z * list byte * state) :=
  params <- read_struct IoctlSubmit input ;;
  let offset := Z.of_nat (sizeof IoctlSubmit) in
  '(command_buffers, offset) <-
    SpliceVectors CommandBuffer input (cmd_buffer_count params) offset ;;
  '(relocs, offset) <-
    SpliceVectors Blob (H := Pod_Reloc) input (relocation_count params) offset ;;
  '(reloc_shifts, offset) <-
    SpliceVectors Z input (relocation_count params) offset ;;
  '(syncpt_increments, offset) <-
    SpliceVectors Blob (H := Pod_SyncptIncr) input (syncpoint_count params) offset ;;
  '(wait_checks, offset) <-
    SpliceVectors Blob (H := Pod_SyncptIncr) input (syncpoint_count params) offset ;;
  '(fences, offset) <-
    SpliceVectors Blob (H := Pod_Fence) input (fence_count params) offset ;;
  '(st, r) <- Submit_loop find st command_buffers ;;
  match r with
  | Some status => Ret (status, output, st)
  | None =>
      output <- write_struct output params ;;
      let offset := Z.of_nat (sizeof IoctlSubmit) in
      '(output, offset) <- WriteVectors output command_buffers offset ;;
      '(output, offset) <- WriteVectors (H := Pod_Reloc) output relocs offset ;;
      '(output, offset) <- WriteVectors output reloc_shifts offset ;;
      '(output, offset) <- WriteVectors (H := Pod_SyncptIncr) output syncpt_increments offset ;;
      '(output, offset) <- WriteVectors (H := Pod_SyncptIncr) output wait_checks offset ;;
      Ret (NvErrCodes.Success, output, st)
  end.

(** [Submit] *)
Definition Submit (st : state) (input output : list byte)
  : outcome (Z * list byte * state) :=
  Submit_with (FindBufferMap (buffer_mappings st)) st input output.

(** *** GetSyncpoint and GetWaitbase *)

Definition GetSyncpoint (input output : list byte) : outcome (Z * list byte) :=
  params <- read_struct IoctlGetSyncpoint input ;;
  let params := {| param := param params; value := 0 |} in
  output <- write_struct output params ;;
  Ret (NvErrCodes.Success, output).

Definition GetWaitbase (input output : list byte) : outcome (Z * list byte) :=
  params <- read_struct IoctlGetWaitbase input ;;
  let params := {| param := param params; value := 0 |} in
  output <- write_struct output params ;;
  Ret (0, output).

(** *** MapBuffer *)

(** One turn of the loop over [cmd_buffer_handles]: the entry as the
    loop leaves it, or [None] when the handle does not resolve. *)
Definition MapBuffer_entry (st : state) (cmf_buff : MapBufferEntry)
  : outcome (state * option MapBufferEntry) :=
  match GetObject (map_handle cmf_buff) with
  | None => Ret (st, None)
  | Some object =>
      st <- (if dma_map_addr (objects st object) =? 0 then
               let o := objects st object in
               let low_addr := wrap64 (gpu_MapAllocate32 (gpu st) (addr o) (size o)) in
               let st := with_gpu_call st (MapAllocate32 (addr o) (size o) low_addr) in
               let st := store_dma_map_addr st object (wrap32 low_addr) in
               _ <- ASSERT (dma_map_addr (objects st object) =? low_addr) ;;
               Ret st
             else Ret st) ;;
      let o := objects st object in
      if dma_map_addr o =? 0 then Ret (st, Some cmf_buff)
      else
        let cmf_buff := {| map_handle := map_handle cmf_buff;
                           map_address := dma_map_addr o |} in
        let m := AddBufferMap (buffer_mappings st) (dma_map_addr o) (size o) (addr o)
                   (Status_eqb (status o) Allocated) in
        Ret (with_buffer_mappings st m, Some cmf_buff)
  end.

Fixpoint MapBuffer_loop (st : state) (cmd_buffer_handles : list MapBufferEntry)
  : outcome (state * option (list MapBufferEntry)) :=
  match cmd_buffer_handles with
  | [] => Ret (st, Some [])
  | cmf_buff :: rest =>
      '(st, r) <- MapBuffer_entry st cmf_buff ;;
      match r with
      | None => Ret (st, None)
      | Some cmf_buff =>
          '(st, r) <- MapBuffer_loop st rest ;;
          Ret (st, option_map (cons cmf_buff) r)
      end
  end.

Definition MapBuffer (st : state) (input output : list byte)
  : outcome (Z * list byte * state) :=
  params <- read_struct IoctlMapBuffer input ;;
  '(cmd_buffer_handles, _) <-
    SpliceVectors MapBufferEntry input (num_entries params)
      (Z.of_nat (sizeof IoctlMapBuffer)) ;;
  '(st, r) <- MapBuffer_loop st cmd_buffer_handles ;;
  match r with
  | None =>
      output <- write_struct_sized output params ;;
      Ret (NvErrCodes.InvalidInput, output, st)
  | Some cmd_buffer_handles =>
      output <- write_struct output params ;;
      output <- write_bytes output (Z.of_nat (sizeof IoctlMapBuffer))
                  (vector_bytes cmd_buffer_handles) ;;
      Ret (NvErrCodes.Success, output, st)
  end.

(** *** UnmapBuffer *)

(** One turn of the loop; [None] when the handle does not resolve. *)
Definition UnmapBuffer_entry (st : state) (cmf_buff : MapBufferEntry) : option state :=
  match GetObject (map_handle cmf_buff) with
  | None => None
  | Some object =>
      let o := objects st object in
      let '(sz, m) := RemoveBufferMap (buffer_mappings st) (dma_map_addr o) in
      let st := with_buffer_mappings st m in
      let st := match sz with
                | Some sz => with_gpu_call st (Unmap (dma_map_addr o) sz)
                | None => st
                end in
      Some (store_dma_map_addr st object 0)
  end.

(** The loop: the state it reaches, and whether it ran to the end. *)
Fixpoint UnmapBuffer_loop (st : state) (cmd_buffer_handles : list MapBufferEntry)
  : state * bool :=
  match cmd_buffer_handles with
  | [] => (st, true)
  | cmf_buff :: rest =>
      match UnmapBuffer_entry st cmf_buff with
      | None => (st, false)
      | Some st => UnmapBuffer_loop st rest
      end
  end.

Definition UnmapBuffer (st : state) (input output : list byte)
  : outcome (Z * list byte * state) :=
  params <- read_struct IoctlMapBuffer input ;;
  '(cmd_buffer_handles, _) <-
    SpliceVectors MapBufferEntry input (num_entries params)
      (Z.of_nat (sizeof IoctlMapBuffer)) ;;
  let '(st, completed) := UnmapBuffer_loop st cmd_buffer_handles in
  if completed then
    (* std::memset(output.data(), 0, output.size()) *)
    Ret (NvErrCodes.Success, repeat Byte.x00 (length output), st)
  else
    output <- write_struct_sized output params ;;
    Ret (NvErrCodes.InvalidInput, output, st).


(** The entry as map-buffer reports it for an object that is mapped:
    the handle, and the object's device address. *)
Definition reported (st : state) (cmf_buff : MapBufferEntry) : MapBufferEntry :=
  match GetObject (map_handle cmf_buff) with
  | Some object => {| map_handle := map_handle cmf_buff;
                      map_address := dma_map_addr (objects st object) |}
  | None => cmf_buff
  end.

(** The bytes [Submit] reads from its input: the header and the six
    vectors. *)
Definition Submit_input_size (params : IoctlSubmit) : Z :=
  Z.of_nat (sizeof IoctlSubmit)
  + cmd_buffer_count params * Z.of_nat (sizeof CommandBuffer)
  + relocation_count params * Z.of_nat sizeof_Reloc
  + relocation_count params * 4
  + syncpoint_count params * Z.of_nat sizeof_SyncptIncr
  + syncpoint_count params * Z.of_nat sizeof_SyncptIncr
  + fence_count params * Z.of_nat sizeof_Fence.

(** The bytes [Submit] writes to its output: all of the above but the
    fences. *)
Definition Submit_output_size (params : IoctlSubmit) : Z :=
  Z.of_nat (sizeof IoctlSubmit)
  + cmd_buffer_count params * Z.of_nat (sizeof CommandBuffer)
  + relocation_count params * Z.of_nat sizeof_Reloc
  + relocation_count params * 4
  + syncpoint_count params * Z.of_nat sizeof_SyncptIncr
  + syncpoint_count params * Z.of_nat sizeof_SyncptIncr.

(** [forwards find objs t cmds t']: every descriptor of [cmds] resolves
    to an object for which [find] yields a mapping, and forwarding them
    in order (one block read and one pushed command list each) extends
    the GPU trace [t] to [t']. *)
Inductive forwards (find : Z -> outcome (option BufferMap)) (objs : nat -> Object)
  : list gpu_call -> list CommandBuffer -> list gpu_call -> Prop :=
| forwards_nil (t : list gpu_call) : forwards find objs t [] t
| forwards_cons (t t' : list gpu_call) (c : CommandBuffer) (cs : list CommandBuffer)
    (object : nat) (map : BufferMap) :
    GetObject (memory_id c) = Some object ->
    find (dma_map_addr (objs object)) = Ret (Some map) ->
    forwards find objs
      (t ++ [ReadBlock (wrap64 (StartAddr map + offset c)) (word_count c * 4);
             PushCommandBuffer
               (gpu_ReadBlock t (wrap64 (StartAddr map + offset c)) (word_count c * 4))])
      cs t' ->
    forwards find objs t (c :: cs) t'.

(** *** SetNVMAPfd and SetSubmitTimeout *)

Definition SetNVMAPfd (s : session) (input : list byte) : outcome (Z * session) :=
  params <- read_struct IoctlSetNvmapFD input ;;
  Ret (0, {| device := device s; nvmap_fd := params_nvmap_fd params;
             submit_timeout := submit_timeout s |}).

(** [std::memcpy(&submit_timeout, input.data(), input.size())]: the copy
    is as long as the input, whatever the size of the member. *)
Definition SetSubmitTimeout (s : session) (input output : list byte)
  : outcome (Z * list byte * session) :=
  timeout <- write_bytes (submit_timeout s) 0 input ;;
  Ret (NvErrCodes.Success, output,
       {| device := device s; nvmap_fd := nvmap_fd s; submit_timeout := timeout |}).

(** * Properties *)

(** ** The ordered map *)

Section StdMapFacts.
Context {V : Type}.
Implicit Types (m : list (Z * V)) (k : Z) (v : V).

Lemma lookup_cons k' v m k :
  lookup ((k', v) :: m) k = if k' =? k then Some v else lookup m k.
Proof.
  unfold lookup. cbn [map_find].
  destruct (k' =? k); reflexivity.
Qed.

Lemma erase_cons k' v m k :
  erase ((k', v) :: m) (map_find ((k', v) :: m) k)
  = if k' =? k then m else (k', v) :: erase m (map_find m k).
Proof.
  unfold erase. cbn [map_find].
  destruct (k' =? k); reflexivity.
Qed.

(** [m.find(k) == m.end()] exactly when [k] is not a key. *)
Lemma map_find_end m k :
  Nat.eqb (map_find m k) (map_end m) = true <-> lookup m k = None.
Proof.
  unfold map_end.
  induction m as [|[k' v] m IH].
  - split; reflexivity.
  - rewrite lookup_cons. cbn [map_find length].
    destruct (k' =? k).
    + split; discriminate.
    + exact IH.
Qed.

Lemma lookup_key m k v :
  lookup m k = Some v -> nth_error m (map_find m k) = Some (k, v).
Proof.
  induction m as [|[k' v'] m IH]; [discriminate|].
  rewrite lookup_cons. cbn [map_find].
  destruct (k' =? k) eqn:E.
  - apply Z.eqb_eq in E. intros [= ->]. subst. reflexivity.
  - exact IH.
Qed.

(** Below the smallest key nothing is found. *)
Lemma lookup_below m k :
  Forall (fun entry => k < fst entry) m -> lookup m k = None.
Proof.
  induction 1 as [|[k' v] m Hk _ IH]; [reflexivity|].
  rewrite lookup_cons. cbn in Hk.
  destruct (k' =? k) eqn:E; [apply Z.eqb_eq in E; lia | exact IH].
Qed.

Lemma lookup_insert_same m k v : lookup (insert_or_assign m k v) k = Some v.
Proof.
  induction m as [|[k' v'] m IH]; cbn [insert_or_assign].
  - rewrite lookup_cons, Z.eqb_refl. reflexivity.
  - destruct (k <? k') eqn:Hlt; [rewrite lookup_cons, Z.eqb_refl; reflexivity|].
    destruct (k =? k') eqn:Heq; [rewrite lookup_cons, Z.eqb_refl; reflexivity|].
    rewrite lookup_cons, Z.eqb_sym, Heq. exact IH.
Qed.

Lemma lookup_insert_other m k v k0 :
  ascending m -> k0 <> k -> lookup (insert_or_assign m k v) k0 = lookup m k0.
Proof.
  intros Hm Hne.
  induction m as [|[k' v'] m IH]; cbn [insert_or_assign].
  - rewrite lookup_cons. destruct (k =? k0) eqn:E; [apply Z.eqb_eq in E; congruence|reflexivity].
  - destruct Hm as [Hk Hm].
    destruct (k <? k') eqn:Hlt.
    + rewrite lookup_cons.
      destruct (k =? k0) eqn:E; [apply Z.eqb_eq in E; congruence|reflexivity].
    + destruct (k =? k') eqn:Heq.
      * apply Z.eqb_eq in Heq. subst k'. rewrite !lookup_cons.
        destruct (k =? k0) eqn:E; [apply Z.eqb_eq in E; congruence|reflexivity].
      * rewrite !lookup_cons, (IH Hm). reflexivity.
Qed.

Lemma insert_keys_above m k v lo :
  lo < k -> Forall (fun entry => lo < fst entry) m ->
  Forall (fun entry => lo < fst entry) (insert_or_assign m k v).
Proof.
  intros Hlo. induction 1 as [|[k' v'] m Hk Hm IH]; cbn [insert_or_assign].
  - constructor; [exact Hlo | constructor].
  - destruct (k <? k'); [|destruct (k =? k')]; repeat constructor; assumption.
Qed.

(** [insert_or_assign] keeps the entries in key order. *)
Lemma ascending_insert m k v : ascending m -> ascending (insert_or_assign m k v).
Proof.
  induction m as [|[k' v'] m IH]; cbn [insert_or_assign]; intros Hm.
  - cbn. split; [constructor | exact I].
  - destruct Hm as [Hk Hm].
    destruct (k <? k') eqn:Hlt; [|destruct (k =? k') eqn:Heq].
    + apply Z.ltb_lt in Hlt. cbn [ascending]. repeat split; try assumption.
      constructor; [exact Hlt|].
      eapply Forall_impl; [|exact Hk]. cbn. intros; lia.
    + apply Z.eqb_eq in Heq. subst k'. cbn [ascending]. split; assumption.
    + apply Z.ltb_ge in Hlt. apply Z.eqb_neq in Heq.
      cbn [ascending]. split; [|exact (IH Hm)].
      apply insert_keys_above; [lia | exact Hk].
Qed.

Lemma erase_keys_above m k lo :
  Forall (fun entry => lo < fst entry) m ->
  Forall (fun entry => lo < fst entry) (erase m (map_find m k)).
Proof.
  induction 1 as [|[k' v'] m Hk Hm IH]; [constructor|].
  rewrite erase_cons. destruct (k' =? k); [assumption|].
  constructor; assumption.
Qed.

(** [erase] keeps the entries in key order. *)
Lemma ascending_erase m k : ascending m -> ascending (erase m (map_find m k)).
Proof.
  induction m as [|[k' v'] m IH]; intros Hm; [exact I|].
  destruct Hm as [Hk Hm].
  rewrite erase_cons. destruct (k' =? k); [assumption|].
  cbn [ascending]. split; [apply erase_keys_above; assumption | exact (IH Hm)].
Qed.

Lemma lookup_erase_same m k :
  ascending m -> lookup (erase m (map_find m k)) k = None.
Proof.
  induction m as [|[k' v'] m IH]; intros Hm; [reflexivity|].
  destruct Hm as [Hk Hm].
  rewrite erase_cons. destruct (k' =? k) eqn:E.
  - apply Z.eqb_eq in E. subst k'. apply lookup_below. exact Hk.
  - rewrite lookup_cons, E. exact (IH Hm).
Qed.

Lemma lookup_erase_other m k k0 :
  k0 <> k -> lookup (erase m (map_find m k)) k0 = lookup m k0.
Proof.
  intros Hne. induction m as [|[k' v'] m IH]; [reflexivity|].
  rewrite erase_cons. destruct (k' =? k) eqn:E.
  - apply Z.eqb_eq in E. subst k'. rewrite lookup_cons.
    destruct (k =? k0) eqn:E'; [apply Z.eqb_eq in E'; congruence|reflexivity].
  - rewrite !lookup_cons, IH. reflexivity.
Qed.

Lemma erase_In m k entry : In entry (erase m (map_find m k)) -> In entry m.
Proof.
  induction m as [|[k' v'] m IH]; [intros []|].
  rewrite erase_cons. destruct (k' =? k).
  - intros H. right. exact H.
  - intros [H|H]; [left; exact H | right; exact (IH H)].
Qed.

Lemma insert_In m k v entry :
  In entry (insert_or_assign m k v) -> entry = (k, v) \/ In entry m.
Proof.
  induction m as [|[k' v'] m IH]; cbn [insert_or_assign].
  - intros [H|[]]. left. symmetry. exact H.
  - destruct (k <? k'); [|destruct (k =? k')].
    + intros [H|H]; [left; symmetry; exact H | right; exact H].
    + intros [H|H]; [left; symmetry; exact H | right; right; exact H].
    + intros [H|H]; [right; left; exact H|].
      destruct (IH H) as [H'|H']; [left; exact H' | right; right; exact H'].
Qed.

(** In a key-ordered map no key occurs twice. *)
Lemma ascending_NoDup m : ascending m -> NoDup (map fst m).
Proof.
  induction m as [|[k v] m IH]; intros Hm; [constructor|].
  destruct Hm as [Hk Hm]. cbn [map fst]. constructor; [|exact (IH Hm)].
  intros Hin. apply in_map_iff in Hin. destruct Hin as [entry [Heq Hin]].
  rewrite Forall_forall in Hk. specialize (Hk _ Hin). lia.
Qed.
End StdMapFacts.

(** ** Bytes, fields and vectors *)

Lemma firstn_plus {A : Type} (a b : nat) (l : list A) :
  firstn (a + b) l = firstn a l ++ firstn b (skipn a l).
Proof.
  revert l. induction a as [|a IH]; intros l; [reflexivity|].
  destruct l as [|x l]; cbn [Nat.add firstn skipn app].
  - rewrite firstn_nil. reflexivity.
  - rewrite IH. reflexivity.
Qed.

Lemma firstn_app_exact {A : Type} (n : nat) (a b : list A) :
  length a = n -> firstn n (a ++ b) = a.
Proof.
  intros <-. rewrite firstn_app, Nat.sub_diag, firstn_all. cbn [firstn].
  apply app_nil_r.
Qed.

Lemma skipn_app_exact {A : Type} (n : nat) (a b : list A) :
  length a = n -> skipn n (a ++ b) = b.
Proof.
  intros <-. rewrite skipn_app, Nat.sub_diag, skipn_all. reflexivity.
Qed.

Lemma length_field (bs : list byte) (off len : nat) :
  (off + len <= length bs)%nat -> length (field bs off len) = len.
Proof.
  intros H. unfold field. rewrite length_firstn, length_skipn. lia.
Qed.

Lemma field_app (bs : list byte) (off a b : nat) :
  field bs off a ++ field bs (off + a) b = field bs off (a + b).
Proof.
  unfold field. rewrite firstn_plus, skipn_skipn.
  rewrite (Nat.add_comm a off). reflexivity.
Qed.

Lemma field_all (bs : list byte) : field bs 0 (length bs) = bs.
Proof. unfold field. cbn [skipn]. apply firstn_all. Qed.

Lemma length_put_u32 (v : Z) : length (put_u32 v) = 4%nat.
Proof. apply length_le_split. Qed.

Lemma put_get_u32 (bs : list byte) (off : nat) :
  (off + 4 <= length bs)%nat -> put_u32 (get_u32 bs off) = field bs off 4.
Proof.
  intros H. unfold put_u32, get_u32.
  apply split_le_combine'. apply length_field. exact H.
Qed.

Lemma get_u32_range (bs : list byte) (off : nat) : 0 <= get_u32 bs off < 2 ^ 32.
Proof.
  unfold get_u32.
  pose proof (le_combine_bound (field bs off 4)) as B.
  assert (L : (length (field bs off 4) <= 4)%nat) by (unfold field; apply firstn_le_length).
  assert (P : 2 ^ (8 * Z.of_nat (length (field bs off 4))) <= 2 ^ 32)
    by (apply Z.pow_le_mono_r; lia).
  lia.
Qed.

#[export] Instance PodOk_u32 : PodOk Z.
Proof.
  constructor. cbn [sizeof of_bytes to_bytes Pod_u32]. intros bs L.
  rewrite put_get_u32 by lia. rewrite <- L. apply field_all.
Qed.

#[export] Instance PodOk_IoctlSubmit : PodOk IoctlSubmit.
Proof.
  constructor. cbn [sizeof of_bytes to_bytes Pod_IoctlSubmit
                    cmd_buffer_count relocation_count syncpoint_count fence_count].
  intros bs L.
  rewrite !put_get_u32 by lia.
  change 12%nat with (8 + 4)%nat. rewrite (field_app bs 8 4 4).
  change 8%nat with (4 + 4)%nat at 1. rewrite (field_app bs 4 4 (4 + 4)).
  change 4%nat with (0 + 4)%nat at 2. rewrite (field_app bs 0 4 (4 + (4 + 4))).
  change (4 + (4 + (4 + 4)))%nat with 16%nat. rewrite <- L. apply field_all.
Qed.

#[export] Instance PodOk_CommandBuffer : PodOk CommandBuffer.
Proof.
  constructor. cbn [sizeof of_bytes to_bytes Pod_CommandBuffer
                    memory_id offset word_count].
  intros bs L.
  rewrite !put_get_u32 by lia.
  change 8%nat with (4 + 4)%nat. rewrite (field_app bs 4 4 4).
  change 4%nat with (0 + 4)%nat at 2. rewrite (field_app bs 0 4 (4 + 4)).
  change (4 + (4 + 4))%nat with 12%nat. rewrite <- L. apply field_all.
Qed.

#[export] Instance PodOk_IoctlGetSyncpoint : PodOk IoctlGetSyncpoint.
Proof.
  constructor. cbn [sizeof of_bytes to_bytes Pod_IoctlGetSyncpoint param value].
  intros bs L.
  rewrite !put_get_u32 by lia.
  change 4%nat with (0 + 4)%nat at 2. rewrite (field_app bs 0 4 4).
  change (4 + 4)%nat with 8%nat. rewrite <- L. apply field_all.
Qed.

#[export] Instance PodOk_MapBufferEntry : PodOk MapBufferEntry.
Proof.
  constructor. cbn [sizeof of_bytes to_bytes Pod_MapBufferEntry map_handle map_address].
  intros bs L.
  rewrite !put_get_u32 by lia.
  change 4%nat with (0 + 4)%nat at 2. rewrite (field_app bs 0 4 4).
  change (4 + 4)%nat with 8%nat. rewrite <- L. apply field_all.
Qed.

Lemma PodOk_Blob (n : nat) : @PodOk Blob (Pod_Blob n).
Proof. constructor. reflexivity. Qed.

Lemma PodOk_IoctlMapBuffer (n : nat) : @PodOk IoctlMapBuffer (Pod_IoctlMapBuffer n).
Proof.
  constructor. cbn [sizeof of_bytes to_bytes Pod_IoctlMapBuffer num_entries header_rest].
  intros bs L.
  rewrite put_get_u32 by lia.
  change 4%nat with (0 + 4)%nat at 2. rewrite (field_app bs 0 4 n).
  rewrite <- L. apply field_all.
Qed.

#[local] Instance PodOk_MapBufferHeader : @PodOk IoctlMapBuffer MapBufferHeader :=
  PodOk_IoctlMapBuffer mapbuffer_rest.
#[local] Instance PodOk_Reloc : @PodOk Blob Pod_Reloc := PodOk_Blob sizeof_Reloc.
#[local] Instance PodOk_SyncptIncr : @PodOk Blob Pod_SyncptIncr := PodOk_Blob sizeof_SyncptIncr.
#[local] Instance PodOk_Fence : @PodOk Blob Pod_Fence := PodOk_Blob sizeof_Fence.

Lemma length_chunks (count sz : nat) (bs : list byte) :
  length (chunks count sz bs) = count.
Proof.
  revert bs. induction count as [|count IH]; intros bs; cbn [chunks length];
    [reflexivity | rewrite IH; reflexivity].
Qed.

(** A vector filled by [memcpy] from [count * sizeof(T)] bytes holds
    exactly those bytes. *)
Lemma vector_bytes_chunks (T : Type) `{PodOk T} (count : nat) (bs : list byte) :
  length bs = (count * sizeof T)%nat ->
  vector_bytes (map of_bytes (chunks count (sizeof T) bs)) = bs.
Proof.
  unfold vector_bytes. revert bs.
  induction count as [|count IH]; intros bs L; cbn [chunks map concat].
  - destruct bs; [reflexivity | discriminate L].
  - rewrite IH by (rewrite length_skipn; lia).
    rewrite to_of_bytes by (rewrite length_firstn; lia).
    apply firstn_skipn.
Qed.

Lemma read_bytes_Ret (src : list byte) (off n : Z) (bs : list byte) :
  0 <= off -> 0 <= n -> read_bytes src off n = Ret bs ->
  off + n <= Z.of_nat (length src)
  /\ bs = firstn (Z.to_nat n) (skipn (Z.to_nat off) src)
  /\ length bs = Z.to_nat n.
Proof.
  unfold read_bytes. intros Hoff Hn.
  destruct (off + n <=? Z.of_nat (length src)) eqn:E; [|discriminate].
  apply Z.leb_le in E. intros [= <-]. split; [exact E|]. split; [reflexivity|].
  rewrite length_firstn, length_skipn. lia.
Qed.

Lemma read_bytes_short (src : list byte) (off n : Z) :
  Z.of_nat (length src) < off + n -> read_bytes src off n = Fault OutOfBoundsRead.
Proof.
  unfold read_bytes. intros H.
  destruct (off + n <=? Z.of_nat (length src)) eqn:E; [apply Z.leb_le in E; lia | reflexivity].
Qed.

Lemma read_bytes_fits (src : list byte) (off n : Z) :
  off + n <= Z.of_nat (length src) ->
  read_bytes src off n = Ret (firstn (Z.to_nat n) (skipn (Z.to_nat off) src)).
Proof.
  unfold read_bytes. intros H.
  destruct (off + n <=? Z.of_nat (length src)) eqn:E; [reflexivity | apply Z.leb_gt in E; lia].
Qed.

Lemma write_bytes_fits (dst : list byte) (off : Z) (data : list byte) :
  off + Z.of_nat (length data) <= Z.of_nat (length dst) ->
  write_bytes dst off data
  = Ret (firstn (Z.to_nat off) dst ++ data ++ skipn (Z.to_nat off + length data) dst).
Proof.
  unfold write_bytes. intros H.
  destruct (off + Z.of_nat (length data) <=? Z.of_nat (length dst)) eqn:E;
    [reflexivity | apply Z.leb_gt in E; lia].
Qed.

Lemma write_bytes_front (dst data : list byte) :
  (length data <= length dst)%nat ->
  write_bytes dst 0 data = Ret (data ++ skipn (length data) dst).
Proof.
  intros H. rewrite write_bytes_fits by lia. reflexivity.
Qed.

(** Decoding a vector either faults on a short input or returns what the
    input holds at [off]. *)
Lemma SpliceVectors_Ret (T : Type) `{PodOk T} (input : list byte) (count off : Z)
  (v : list T) (off' : Z) :
  0 <= off -> 0 <= count ->
  SpliceVectors T input count off = Ret (v, off') ->
  off' = off + count * Z.of_nat (sizeof T)
  /\ off' <= Z.of_nat (length input)
  /\ length v = Z.to_nat count
  /\ vector_bytes v = firstn (Z.to_nat (count * Z.of_nat (sizeof T)))
                        (skipn (Z.to_nat off) input).
Proof.
  intros Hoff Hc. unfold SpliceVectors.
  destruct (read_bytes input off (count * Z.of_nat (sizeof T))) as [bs|f] eqn:E;
    cbn [bind]; [|discriminate].
  intros [= <- <-].
  apply read_bytes_Ret in E; [|lia|nia].
  destruct E as (Hle & Hbs & Hlen).
  split; [reflexivity|]. split; [exact Hle|].
  split; [rewrite length_map, length_chunks; reflexivity|].
  assert (L : length bs = (Z.to_nat count * sizeof T)%nat)
    by (rewrite Hlen, Z2Nat.inj_mul, Nat2Z.id by lia; reflexivity).
  rewrite (vector_bytes_chunks T (Z.to_nat count) bs L). exact Hbs.
Qed.

(** ** Outcomes *)

Lemma bind_Ret {A B : Type} (c : outcome A) (k : A -> outcome B) (b : B) :
  bind c k = Ret b -> exists a, c = Ret a /\ k a = Ret b.
Proof.
  destruct c as [a|f]; cbn [bind]; intros H; [|discriminate H].
  exists a. split; [reflexivity | exact H].
Qed.

Ltac bind_inv H :=
  let a := fresh "a" in
  let E := fresh "E" in
  apply bind_Ret in H; destruct H as (a & E & H).

(** ** AddBufferMap and RemoveBufferMap *)

Lemma RemoveBufferMap_spec (m : list (Z * BufferMap)) (gpu_addr : Z) :
  RemoveBufferMap m gpu_addr
  = match lookup m gpu_addr with
    | None => (None, m)
    | Some b => (Some (if IsAllocated b then Size b else 0),
                 erase m (map_find m gpu_addr))
    end.
Proof.
  unfold RemoveBufferMap.
  destruct (lookup m gpu_addr) as [b|] eqn:L.
  - destruct (Nat.eqb (map_find m gpu_addr) (map_end m)) eqn:E.
    + apply map_find_end in E. congruence.
    + rewrite (lookup_key _ _ _ L). reflexivity.
  - apply map_find_end in L. rewrite L. reflexivity.
Qed.

Lemma buffer_map_inv_nil : buffer_map_inv [].
Proof. split; [exact I | constructor]. Qed.

Lemma buffer_map_inv_AddBufferMap (m : list (Z * BufferMap)) (gpu_addr sz cpu : Z) (b : bool) :
  buffer_map_inv m -> buffer_map_inv (AddBufferMap m gpu_addr sz cpu b).
Proof.
  intros [Hasc Hall]. unfold AddBufferMap. split.
  - apply ascending_insert. exact Hasc.
  - rewrite Forall_forall in *. intros entry Hin.
    apply insert_In in Hin. destruct Hin as [-> | Hin].
    + split; reflexivity.
    + exact (Hall _ Hin).
Qed.

Lemma buffer_map_inv_RemoveBufferMap (m : list (Z * BufferMap)) (gpu_addr : Z) :
  buffer_map_inv m -> buffer_map_inv (snd (RemoveBufferMap m gpu_addr)).
Proof.
  intros [Hasc Hall]. rewrite RemoveBufferMap_spec.
  destruct (lookup m gpu_addr); cbn [snd]; [|split; assumption].
  split.
  - apply ascending_erase. exact Hasc.
  - rewrite Forall_forall in *. intros entry Hin.
    apply erase_In in Hin. exact (Hall _ Hin).
Qed.

(** C7: [AddBufferMap(A, sz, C, b)] followed by [RemoveBufferMap(A)]
    reports the size [sz] when [b] is true and size 0 when [b] is false;
    either way the entry at [A] is gone afterwards, and no other key is
    affected by the removal. *)
Theorem AddBufferMap_then_RemoveBufferMap
  (m : list (Z * BufferMap)) (A sz C : Z) (b : bool) :
  ascending m ->
  let r := RemoveBufferMap (AddBufferMap m A sz C b) A in
  fst r = Some (if b then sz else 0)
  /\ lookup (snd r) A = None
  /\ forall k, k <> A -> lookup (snd r) k = lookup m k.
Proof.
  intros Hasc r. subst r. unfold AddBufferMap.
  rewrite RemoveBufferMap_spec, lookup_insert_same. cbn [fst snd IsAllocated Size
    is_allocated map_size].
  split; [reflexivity|]. split.
  - apply lookup_erase_same, ascending_insert, Hasc.
  - intros k Hk. rewrite lookup_erase_other by exact Hk.
    apply lookup_insert_other; assumption.
Qed.

Lemma MapBuffer_entry_inv (st st' : state) (cmf_buff : MapBufferEntry)
  (r : option MapBufferEntry) :
  buffer_map_inv (buffer_mappings st) ->
  MapBuffer_entry st cmf_buff = Ret (st', r) ->
  buffer_map_inv (buffer_mappings st').
Proof.
  intros Hinv H. unfold MapBuffer_entry in H.
  destruct (GetObject (map_handle cmf_buff)) as [object|]; [|injection H as <- <-; exact Hinv].
  bind_inv H.
  assert (Hm : buffer_mappings a = buffer_mappings st).
  { destruct (dma_map_addr (objects st object) =? 0).
    - bind_inv E. injection E as <-. reflexivity.
    - injection E as <-. reflexivity. }
  destruct (dma_map_addr (objects a object) =? 0).
  - injection H as <- <-. rewrite Hm. exact Hinv.
  - injection H as <- <-. cbn [with_buffer_mappings buffer_mappings].
    apply buffer_map_inv_AddBufferMap. rewrite Hm. exact Hinv.
Qed.

Lemma MapBuffer_loop_inv (entries : list MapBufferEntry) :
  forall (st st' : state) (r : option (list MapBufferEntry)),
  buffer_map_inv (buffer_mappings st) ->
  MapBuffer_loop st entries = Ret (st', r) ->
  buffer_map_inv (buffer_mappings st').
Proof.
  induction entries as [|e entries IH]; intros st st' r Hinv H; cbn [MapBuffer_loop] in H.
  - injection H as <- <-. exact Hinv.
  - bind_inv H. destruct a as [st1 [e'|]].
    + bind_inv H. destruct a as [st2 r2]. injection H as <- <-.
      eapply IH; [|exact E0]. eapply MapBuffer_entry_inv; eassumption.
    + injection H as <- <-. eapply MapBuffer_entry_inv; eassumption.
Qed.

Lemma MapBuffer_inv (st st' : state) (input output output' : list byte) (status : Z) :
  buffer_map_inv (buffer_mappings st) ->
  MapBuffer st input output = Ret (status, output', st') ->
  buffer_map_inv (buffer_mappings st').
Proof.
  intros Hinv H. unfold MapBuffer in H.
  bind_inv H. bind_inv H. destruct a0 as [entries off].
  bind_inv H. destruct a0 as [st1 r].
  assert (Hst1 : buffer_map_inv (buffer_mappings st1))
    by (eapply MapBuffer_loop_inv; eassumption).
  destruct r as [entries'|].
  - bind_inv H. bind_inv H. injection H as _ _ <-. exact Hst1.
  - bind_inv H. injection H as _ _ <-. exact Hst1.
Qed.

Lemma UnmapBuffer_entry_inv (st st' : state) (cmf_buff : MapBufferEntry) :
  buffer_map_inv (buffer_mappings st) ->
  UnmapBuffer_entry st cmf_buff = Some st' ->
  buffer_map_inv (buffer_mappings st').
Proof.
  intros Hinv H. unfold UnmapBuffer_entry in H.
  destruct (GetObject (map_handle cmf_buff)) as [object|]; [|discriminate H].
  pose proof (buffer_map_inv_RemoveBufferMap (buffer_mappings st)
                (dma_map_addr (objects st object)) Hinv) as Hrm.
  destruct (RemoveBufferMap (buffer_mappings st) (dma_map_addr (objects st object)))
    as [sz m]. cbn [snd] in Hrm.
  injection H as <-. destruct sz; exact Hrm.
Qed.

Lemma UnmapBuffer_loop_inv (entries : list MapBufferEntry) :
  forall st : state,
  buffer_map_inv (buffer_mappings st) ->
  buffer_map_inv (buffer_mappings (fst (UnmapBuffer_loop st entries))).
Proof.
  induction entries as [|e entries IH]; intros st Hinv; cbn [UnmapBuffer_loop].
  - exact Hinv.
  - destruct (UnmapBuffer_entry st e) as [st1|] eqn:E; [|exact Hinv].
    apply IH. eapply UnmapBuffer_entry_inv; eassumption.
Qed.

Lemma UnmapBuffer_inv (st st' : state) (input output output' : list byte) (status : Z) :
  buffer_map_inv (buffer_mappings st) ->
  UnmapBuffer st input output = Ret (status, output', st') ->
  buffer_map_inv (buffer_mappings st').
Proof.
  intros Hinv H. unfold UnmapBuffer in H.
  bind_inv H. bind_inv H. destruct a0 as [entries off].
  pose proof (UnmapBuffer_loop_inv entries st Hinv) as Hl.
  destruct (UnmapBuffer_loop st entries) as [st1 completed]. cbn [fst] in Hl.
  destruct completed.
  - injection H as _ _ <-. exact Hl.
  - bind_inv H. injection H as _ _ <-. exact Hl.
Qed.

(** [Submit] only reads the map. *)
Lemma Submit_cmd_buffer_mappings (find : Z -> outcome (option BufferMap))
  (st st' : state) (cmd_buffer : CommandBuffer) (r : option Z) :
  Submit_cmd_buffer find st cmd_buffer = Ret (st', r) ->
  buffer_mappings st' = buffer_mappings st /\ objects st' = objects st.
Proof.
  unfold Submit_cmd_buffer. intros H.
  destruct (GetObject (memory_id cmd_buffer)) as [object|].
  - bind_inv H. destruct a as [b|]; injection H as <- <-; split; reflexivity.
  - bind_inv H. injection H as <- <-. split; reflexivity.
Qed.

Lemma Submit_loop_mappings (find : Z -> outcome (option BufferMap))
  (cmds : list CommandBuffer) :
  forall (st st' : state) (r : option Z),
  Submit_loop find st cmds = Ret (st', r) ->
  buffer_mappings st' = buffer_mappings st /\ objects st' = objects st.
Proof.
  induction cmds as [|c cmds IH]; intros st st' r H; cbn [Submit_loop] in H.
  - injection H as <- <-. split; reflexivity.
  - bind_inv H. destruct a as [st1 r1].
    apply Submit_cmd_buffer_mappings in E. destruct E as [E1 E2].
    destruct r1.
    + injection H as <- <-. split; assumption.
    + apply IH in H. destruct H as [H1 H2]. split; congruence.
Qed.

Lemma Submit_with_mappings (find : Z -> outcome (option BufferMap))
  (st st' : state) (input output output' : list byte) (status : Z) :
  Submit_with find st input output = Ret (status, output', st') ->
  buffer_mappings st' = buffer_mappings st /\ objects st' = objects st.
Proof.
  intros H. unfold Submit_with in H.
  bind_inv H.
  do 6 (bind_inv H; match type of H with context [match ?x with _ => _ end] =>
                      destruct x end).
  bind_inv H.
  match type of H with context [match ?x with _ => _ end] => destruct x as [st1 r] end.
  match goal with
  | L : Submit_loop _ _ _ = Ret _ |- _ => apply Submit_loop_mappings in L; rename L into HL
  end.
  destruct r.
  - injection H as _ _ <-. exact HL.
  - bind_inv H.
    do 5 (bind_inv H; match type of H with context [match ?x with _ => _ end] =>
                        destruct x end).
    injection H as _ _ <-. exact HL.
Qed.

(** C10: the invariant of the buffer address map — entries in key
    order, each filed under its mapping's start address, each mapping
    ending at start plus size (64-bit) — holds of the empty map and is
    kept by AddBufferMap, RemoveBufferMap, MapBuffer, UnmapBuffer and
    Submit (which leaves the map as it is); hence no device address has
    two entries. *)
Theorem buffer_map_invariant (m : list (Z * BufferMap)) :
  buffer_map_inv m ->
  (NoDup (map fst m)
   /\ forall entry, In entry m ->
        fst entry = StartAddr (snd entry)
        /\ EndAddr (snd entry) = wrap64 (StartAddr (snd entry) + Size (snd entry)))
  /\ (forall gpu_addr sz cpu b, buffer_map_inv (AddBufferMap m gpu_addr sz cpu b))
  /\ (forall gpu_addr, buffer_map_inv (snd (RemoveBufferMap m gpu_addr)))
  /\ (forall st input output status output' st',
        buffer_mappings st = m ->
        MapBuffer st input output = Ret (status, output', st') ->
        buffer_map_inv (buffer_mappings st'))
  /\ (forall st input output status output' st',
        buffer_mappings st = m ->
        UnmapBuffer st input output = Ret (status, output', st') ->
        buffer_map_inv (buffer_mappings st'))
  /\ (forall st input output status output' st',
        buffer_mappings st = m ->
        Submit st input output = Ret (status, output', st') ->
        buffer_mappings st' = m).
Proof.
  intros Hinv. split; [|split; [|split; [|split; [|split]]]].
  - destruct Hinv as [Hasc Hall]. split; [apply ascending_NoDup, Hasc|].
    rewrite Forall_forall in Hall. exact Hall.
  - intros. apply buffer_map_inv_AddBufferMap, Hinv.
  - intros. apply buffer_map_inv_RemoveBufferMap, Hinv.
  - intros st input output status output' st' <- H.
    eapply MapBuffer_inv; eassumption.
  - intros st input output status output' st' <- H.
    eapply UnmapBuffer_inv; eassumption.
  - intros st input output status output' st' <- H.
    apply Submit_with_mappings in H. apply H.
Qed.

(** ** FindBufferMap *)

Lemma FindBufferMap_nil (gpu_addr : Z) :
  FindBufferMap [] gpu_addr
  = Fault (if assert_fatal then AssertionFailed else EndIteratorDeref).
Proof. unfold FindBufferMap, ASSERT. cbn. destruct assert_fatal; reflexivity. Qed.

(** The scan, entry by entry: an entry whose key lies above [gpu_addr]
    ends the scan and is what [it] then points at. *)
Lemma FindBufferMap_cons (k : Z) (b : BufferMap) (m : list (Z * BufferMap)) (gpu_addr : Z) :
  FindBufferMap ((k, b) :: m) gpu_addr
  = if gpu_addr <? k then Ret (Some b)
    else if (StartAddr b <=? gpu_addr) && (gpu_addr <? EndAddr b) then Ret (Some b)
         else FindBufferMap m gpu_addr.
Proof.
  unfold FindBufferMap. cbn [upper_bound].
  destruct (gpu_addr <? k); [reflexivity|].
  cbn [find_if snd].
  destruct ((StartAddr b <=? gpu_addr) && (gpu_addr <? EndAddr b)); reflexivity.
Qed.

(** The lookup has no way to report absence: it yields an entry or
    faults. *)
Lemma FindBufferMap_never_absent (m : list (Z * BufferMap)) (gpu_addr : Z) :
  FindBufferMap m gpu_addr <> Ret None.
Proof.
  induction m as [|[k b] m IH].
  - rewrite FindBufferMap_nil. discriminate.
  - rewrite FindBufferMap_cons.
    destruct (gpu_addr <? k); [discriminate|].
    destruct ((StartAddr b <=? gpu_addr) && (gpu_addr <? EndAddr b)); [discriminate|exact IH].
Qed.

(** With the invariant in force, an address lying in some entry's range
    is found in the first such entry. *)
Lemma FindBufferMap_found (m : list (Z * BufferMap)) (gpu_addr : Z) (k : Z) (b : BufferMap) :
  buffer_map_inv m -> In (k, b) m ->
  StartAddr b <= gpu_addr < EndAddr b ->
  exists b', FindBufferMap m gpu_addr = Ret (Some b')
             /\ In (StartAddr b', b') m
             /\ StartAddr b' <= gpu_addr < EndAddr b'.
Proof.
  intros [Hasc Hall] Hin Hx.
  induction m as [|[k' b'] m IH]; [destruct Hin|].
  destruct Hasc as [Hk Hasc].
  pose proof (Forall_inv Hall) as Hhd. cbn [fst snd] in Hhd. destruct Hhd as [Hkey _].
  apply Forall_inv_tail in Hall.
  rewrite FindBufferMap_cons.
  assert (Hle : k' <= gpu_addr).
  { destruct Hin as [[= -> ->]|Hin]; [lia|].
    rewrite Forall_forall in Hk, Hall.
    pose proof (Hk _ Hin) as H1. pose proof (Hall _ Hin) as [H2 _].
    cbn [fst snd] in H1, H2. lia. }
  destruct (gpu_addr <? k') eqn:Hlt; [apply Z.ltb_lt in Hlt; lia|].
  destruct ((StartAddr b' <=? gpu_addr) && (gpu_addr <? EndAddr b')) eqn:Hp.
  - exists b'. apply andb_true_iff in Hp. destruct Hp as [Hp1 Hp2].
    apply Z.leb_le in Hp1. apply Z.ltb_lt in Hp2.
    split; [reflexivity|]. split; [left; rewrite Hkey; reflexivity | lia].
  - destruct Hin as [[= -> ->]|Hin].
    + apply andb_false_iff in Hp.
      destruct Hp as [Hp|Hp]; [apply Z.leb_gt in Hp | apply Z.ltb_ge in Hp]; lia.
    + destruct (IH Hasc Hall Hin) as (b0 & Hf & Hin0 & Hr).
      exists b0. split; [exact Hf|]. split; [right; exact Hin0 | exact Hr].
Qed.

(** ** GetSyncpoint and GetWaitbase *)

Lemma firstn_firstn_le {A : Type} (a b : nat) (l : list A) :
  (a <= b)%nat -> firstn a (firstn b l) = firstn a l.
Proof. intros H. rewrite firstn_firstn, Nat.min_l by exact H. reflexivity. Qed.

Lemma get_syncpoint_image (input : list byte) :
  (8 <= length input)%nat ->
  to_bytes {| param := param (of_bytes (firstn 8 input)); value := 0 |}
  = firstn 4 input ++ put_u32 0.
Proof.
  intros L. cbn [to_bytes of_bytes Pod_IoctlGetSyncpoint param value].
  rewrite put_get_u32 by (rewrite length_firstn; lia).
  unfold field. cbn [skipn]. rewrite firstn_firstn_le by lia. reflexivity.
Qed.

(** C5: whatever [param] the input carries, GetSyncpoint and GetWaitbase
    return status 0 and write [param] back unchanged followed by a
    [value] of exactly 0; the bytes of the output buffer after the
    8-byte record stay as they were. *)
Theorem GetSyncpoint_GetWaitbase_value_zero (input output : list byte) :
  (8 <= length input)%nat -> (8 <= length output)%nat ->
  let output' := firstn 4 input ++ put_u32 0 ++ skipn 8 output in
  GetSyncpoint input output = Ret (0, output')
  /\ GetWaitbase input output = Ret (0, output')
  /\ param (of_bytes output') = param (of_bytes input)
  /\ value (of_bytes output') = 0.
Proof.
  intros Li Lo output'.
  assert (HG : GetSyncpoint input output = Ret (0, output')).
  { unfold GetSyncpoint, read_struct, write_struct.
    rewrite read_bytes_fits by (cbn [sizeof Pod_IoctlGetSyncpoint]; lia).
    cbn [bind sizeof Pod_IoctlGetSyncpoint skipn Z.to_nat].
    change (Z.to_nat (Z.of_nat 8)) with 8%nat.
    rewrite (get_syncpoint_image input Li).
    rewrite write_bytes_front
      by (rewrite length_app, length_firstn, length_put_u32; lia).
    cbn [bind]. unfold NvErrCodes.Success.
    rewrite length_app, length_firstn, length_put_u32, Nat.min_l by lia.
    rewrite <- app_assoc. reflexivity. }
  split; [exact HG|]. split; [exact HG|].
  cbn [of_bytes Pod_IoctlGetSyncpoint param value]. unfold output', get_u32, field.
  split.
  - rewrite skipn_O, firstn_app_exact by (rewrite length_firstn; lia).
    reflexivity.
  - rewrite skipn_app_exact by (rewrite length_firstn; lia).
    rewrite firstn_app_exact by apply length_put_u32.
    unfold put_u32. rewrite le_combine_split. reflexivity.
Qed.

(** ** Decoding a map-buffer or unmap-buffer request *)

Lemma read_struct_fits (T : Type) `{Pod T} (input : list byte) :
  (sizeof T <= length input)%nat ->
  read_struct T input = Ret (of_bytes (firstn (sizeof T) input)).
Proof.
  intros L. unfold read_struct. rewrite read_bytes_fits by lia.
  cbn [bind Z.to_nat skipn]. rewrite Nat2Z.id. reflexivity.
Qed.

Lemma read_struct_short (T : Type) `{Pod T} (input : list byte) :
  (length input < sizeof T)%nat -> read_struct T input = Fault OutOfBoundsRead.
Proof.
  intros L. unfold read_struct. rewrite read_bytes_short by lia. reflexivity.
Qed.

Lemma SpliceVectors_fits (T : Type) `{PodOk T} (input : list byte) (count off : Z) :
  0 <= off -> 0 <= count ->
  off + count * Z.of_nat (sizeof T) <= Z.of_nat (length input) ->
  exists v,
    SpliceVectors T input count off = Ret (v, off + count * Z.of_nat (sizeof T))
    /\ length v = Z.to_nat count
    /\ vector_bytes v = firstn (Z.to_nat (count * Z.of_nat (sizeof T)))
                          (skipn (Z.to_nat off) input).
Proof.
  intros Hoff Hc Hfit.
  destruct (SpliceVectors T input count off) as [[v off']|f] eqn:E.
  - destruct (SpliceVectors_Ret T input count off v off' Hoff Hc E) as (-> & _ & Hl & Hv).
    exists v. repeat split; assumption.
  - unfold SpliceVectors in E. rewrite read_bytes_fits in E by exact Hfit.
    discriminate E.
Qed.

(** A request that holds its header and the entries the header
    announces decodes without fault. *)
Lemma MapBuffer_input_decodes (input : list byte) :
  Z.of_nat (sizeof IoctlMapBuffer) + get_u32 input 0 * 8 <= Z.of_nat (length input) ->
  exists params entries,
    read_struct IoctlMapBuffer input = Ret params
    /\ num_entries params = get_u32 input 0
    /\ SpliceVectors MapBufferEntry input (num_entries params)
         (Z.of_nat (sizeof IoctlMapBuffer))
       = Ret (entries, Z.of_nat (sizeof IoctlMapBuffer) + num_entries params * 8)
    /\ length entries = Z.to_nat (num_entries params).
Proof.
  intros Hfit. pose proof (get_u32_range input 0) as R.
  assert (Hhdr : (sizeof IoctlMapBuffer <= length input)%nat) by lia.
  assert (Hn : num_entries (of_bytes (firstn (sizeof IoctlMapBuffer) input))
               = get_u32 input 0).
  { cbn [of_bytes MapBufferHeader Pod_IoctlMapBuffer num_entries sizeof].
    unfold get_u32, field. rewrite !skipn_O, firstn_firstn_le by lia. reflexivity. }
  destruct (SpliceVectors_fits MapBufferEntry input (get_u32 input 0)
              (Z.of_nat (sizeof IoctlMapBuffer)))
    as (entries & Hs & Hl & _); [lia | lia | exact Hfit |].
  exists (of_bytes (firstn (sizeof IoctlMapBuffer) input)), entries.
  rewrite Hn. repeat split; [apply read_struct_fits; exact Hhdr | exact Hs | exact Hl].
Qed.

(** ** UnmapBuffer *)

Lemma same_state_refl (st : state) : same_state st st.
Proof. repeat split. Qed.

Lemma set_dma_map_addr_same (o : Object) :
  set_dma_map_addr o (dma_map_addr o) = o.
Proof. destruct o. reflexivity. Qed.

(** What one turn of the unmap loop does to the objects. *)
Lemma UnmapBuffer_entry_objects (st st' : state) (cmf_buff : MapBufferEntry) :
  UnmapBuffer_entry st cmf_buff = Some st' ->
  exists object,
    GetObject (map_handle cmf_buff) = Some object
    /\ dma_map_addr (objects st' object) = 0
    /\ forall r, dma_map_addr (objects st r) = 0 -> dma_map_addr (objects st' r) = 0.
Proof.
  unfold UnmapBuffer_entry. intros H.
  destruct (GetObject (map_handle cmf_buff)) as [object|]; [|discriminate H].
  exists object. split; [reflexivity|].
  destruct (RemoveBufferMap (buffer_mappings st) (dma_map_addr (objects st object)))
    as [sz m].
  injection H as <-.
  destruct sz; cbn [store_dma_map_addr objects with_gpu_call with_buffer_mappings];
    (split; [rewrite Nat.eqb_refl; reflexivity|]);
    intros r Hr; destruct (Nat.eqb r object); try reflexivity; exact Hr.
Qed.

Lemma UnmapBuffer_loop_all_resolved (entries : list MapBufferEntry) :
  forall st : state,
  (forall e, In e entries -> GetObject (map_handle e) <> None) ->
  exists st',
    UnmapBuffer_loop st entries = (st', true)
    /\ (forall r, dma_map_addr (objects st r) = 0 -> dma_map_addr (objects st' r) = 0)
    /\ forall e object, In e entries -> GetObject (map_handle e) = Some object ->
         dma_map_addr (objects st' object) = 0.
Proof.
  induction entries as [|e entries IH]; intros st Hres; cbn [UnmapBuffer_loop].
  - exists st. split; [reflexivity|]. split; [auto|]. intros e object [].
  - destruct (UnmapBuffer_entry st e) as [st1|] eqn:E.
    + destruct (UnmapBuffer_entry_objects _ _ _ E) as (object & Hobj & Hz & Hkeep).
      destruct (IH st1) as (st' & Hloop & Hkeep' & Hall).
      { intros e' He'. apply Hres. right. exact He'. }
      exists st'. split; [exact Hloop|]. split; [auto|].
      intros e' object' [<-|Hin] Hget.
      * rewrite Hobj in Hget. injection Hget as <-. apply Hkeep'. exact Hz.
      * eapply Hall; eassumption.
    + exfalso. unfold UnmapBuffer_entry in E.
      destruct (GetObject (map_handle e)) as [object|] eqn:G.
      * destruct (RemoveBufferMap (buffer_mappings st) (dma_map_addr (objects st object))).
        discriminate E.
      * apply (Hres e); [left; reflexivity | exact G].
Qed.

(** C9: when the input holds the header and its entries and every
    entry's handle resolves, UnmapBuffer returns status 0 with the whole
    output buffer zero-filled, and the object of every entry ends with
    [dma_map_addr = 0], whether or not the map had an entry for it. *)
Theorem UnmapBuffer_all_resolved (st : state) (input output : list byte)
  (params : IoctlMapBuffer) (entries : list MapBufferEntry) (off : Z) :
  read_struct IoctlMapBuffer input = Ret params ->
  SpliceVectors MapBufferEntry input (num_entries params)
    (Z.of_nat (sizeof IoctlMapBuffer)) = Ret (entries, off) ->
  (forall e, In e entries -> GetObject (map_handle e) <> None) ->
  exists st',
    UnmapBuffer st input output = Ret (0, repeat Byte.x00 (length output), st')
    /\ forall e object, In e entries -> GetObject (map_handle e) = Some object ->
         dma_map_addr (objects st' object) = 0.
Proof.
  intros Hp Hs Hres.
  destruct (UnmapBuffer_loop_all_resolved entries st Hres) as (st' & Hloop & _ & Hall).
  exists st'. split; [|exact Hall].
  unfold UnmapBuffer. rewrite Hp. cbn [bind]. rewrite Hs. cbn [bind].
  rewrite Hloop. reflexivity.
Qed.

Lemma UnmapBuffer_entry_never_mapped (st : state) (cmf_buff : MapBufferEntry) (object : nat) :
  GetObject (map_handle cmf_buff) = Some object ->
  dma_map_addr (objects st object) = 0 ->
  lookup (buffer_mappings st) 0 = None ->
  exists st', UnmapBuffer_entry st cmf_buff = Some st' /\ same_state st st'.
Proof.
  intros Hget Hz Hno. unfold UnmapBuffer_entry. rewrite Hget, Hz.
  rewrite RemoveBufferMap_spec, Hno.
  eexists. split; [reflexivity|].
  split; [reflexivity|]. split; [reflexivity|].
  intros r. cbn [store_dma_map_addr objects with_buffer_mappings].
  destruct (Nat.eqb r object) eqn:E; [|reflexivity].
  apply Nat.eqb_eq in E. subst r. rewrite <- Hz. apply set_dma_map_addr_same.
Qed.

Lemma UnmapBuffer_loop_never_mapped (st0 : state) (entries : list MapBufferEntry) :
  (forall e, In e entries ->
     exists object, GetObject (map_handle e) = Some object
                    /\ dma_map_addr (objects st0 object) = 0) ->
  lookup (buffer_mappings st0) 0 = None ->
  forall st, same_state st0 st ->
  exists st', UnmapBuffer_loop st entries = (st', true) /\ same_state st0 st'.
Proof.
  intros Hall Hno.
  induction entries as [|e entries IH]; intros st Hsame; cbn [UnmapBuffer_loop].
  - exists st. split; [reflexivity | exact Hsame].
  - destruct (Hall e (or_introl eq_refl)) as (object & Hget & Hz).
    destruct Hsame as (Hm & Hg & Ho).
    destruct (UnmapBuffer_entry_never_mapped st e object Hget) as (st1 & E & Hs1).
    { rewrite Ho. exact Hz. }
    { rewrite Hm. exact Hno. }
    rewrite E. apply IH.
    + intros e' He'. apply Hall. right. exact He'.
    + destruct Hs1 as (Hm1 & Hg1 & Ho1).
      split; [congruence|]. split; [congruence|].
      intros r. rewrite Ho1. apply Ho.
Qed.

(** C8: in whatever state the loop reaches it, an unmap-buffer entry
    whose object was never mapped ([dma_map_addr = 0], and the map has no
    entry at address 0) makes no call on the GPU and leaves the object
    and the map as they were; a
    call made of such entries returns status 0 with the GPU trace, the
    map and every object unchanged. *)
Theorem UnmapBuffer_never_mapped (st : state) (input output : list byte)
  (params : IoctlMapBuffer) (entries : list MapBufferEntry) (off : Z) :
  read_struct IoctlMapBuffer input = Ret params ->
  SpliceVectors MapBufferEntry input (num_entries params)
    (Z.of_nat (sizeof IoctlMapBuffer)) = Ret (entries, off) ->
  (forall e, In e entries ->
     exists object, GetObject (map_handle e) = Some object
                    /\ dma_map_addr (objects st object) = 0) ->
  lookup (buffer_mappings st) 0 = None ->
  (forall st0 e object,
     GetObject (map_handle e) = Some object ->
     dma_map_addr (objects st0 object) = 0 ->
     lookup (buffer_mappings st0) 0 = None ->
     exists st1, UnmapBuffer_entry st0 e = Some st1
                 /\ gpu st1 = gpu st0
                 /\ buffer_mappings st1 = buffer_mappings st0
                 /\ forall r, objects st1 r = objects st0 r)
  /\ exists st',
       UnmapBuffer st input output = Ret (0, repeat Byte.x00 (length output), st')
       /\ gpu st' = gpu st
       /\ buffer_mappings st' = buffer_mappings st
       /\ forall object, objects st' object = objects st object.
Proof.
  intros Hp Hs Hall Hno. split.
  - intros st0 e object Hget Hz Hno0.
    destruct (UnmapBuffer_entry_never_mapped st0 e object Hget Hz Hno0)
      as (st1 & E & Hm & Hg & Ho).
    exists st1. repeat split; assumption.
  - destruct (UnmapBuffer_loop_never_mapped st entries Hall Hno st (same_state_refl st))
      as (st' & Hloop & Hm & Hg & Ho).
    exists st'. split; [|repeat split; assumption].
    unfold UnmapBuffer. rewrite Hp. cbn [bind]. rewrite Hs. cbn [bind].
    rewrite Hloop. reflexivity.
Qed.

(** ** MapBuffer *)

(** Successive [memcpy]s into the output: a written prefix followed by
    what the buffer held before. *)
Lemma write_bytes_append (pre dst data : list byte) (off : Z) :
  off = Z.of_nat (length pre) ->
  (length pre + length data <= length dst)%nat ->
  write_bytes (pre ++ skipn (length pre) dst) off data
  = Ret ((pre ++ data) ++ skipn (length (pre ++ data)) dst).
Proof.
  intros -> H.
  rewrite write_bytes_fits by (rewrite length_app, length_skipn; lia).
  rewrite Nat2Z.id, firstn_app_exact by reflexivity.
  rewrite skipn_app, skipn_skipn, length_app.
  rewrite (skipn_all2 pre) by lia.
  replace (length pre + length data - length pre + length pre)%nat
    with (length pre + length data)%nat by lia.
  rewrite <- app_assoc. reflexivity.
Qed.

Lemma read_struct_Ret (T : Type) `{PodOk T} (input : list byte) (params : T) :
  read_struct T input = Ret params ->
  (sizeof T <= length input)%nat
  /\ params = of_bytes (firstn (sizeof T) input)
  /\ to_bytes params = firstn (sizeof T) input.
Proof.
  unfold read_struct. intros E. bind_inv E. injection E as <-.
  apply read_bytes_Ret in E0; [|lia|lia].
  destruct E0 as (Hle & Hbs & Hlen). rewrite Nat2Z.id in *. cbn [Z.to_nat skipn] in Hbs.
  subst a. split; [lia|]. split; [reflexivity|].
  apply to_of_bytes. exact Hlen.
Qed.

Lemma length_vector_bytes_entries (entries : list MapBufferEntry) :
  length (vector_bytes entries) = (8 * length entries)%nat.
Proof.
  unfold vector_bytes.
  induction entries as [|e entries IH]; [reflexivity|].
  cbn [map concat length]. rewrite length_app, IH.
  cbn [to_bytes Pod_MapBufferEntry]. rewrite length_app, !length_put_u32. lia.
Qed.

Lemma MapBuffer_entry_mapped (st : state) (cmf_buff : MapBufferEntry) (object : nat) :
  GetObject (map_handle cmf_buff) = Some object ->
  dma_map_addr (objects st object) <> 0 ->
  let o := objects st object in
  MapBuffer_entry st cmf_buff
  = Ret (with_buffer_mappings st
           (AddBufferMap (buffer_mappings st) (dma_map_addr o) (size o) (addr o)
              (Status_eqb (status o) Allocated)),
         Some {| map_handle := map_handle cmf_buff; map_address := dma_map_addr o |}).
Proof.
  intros Hget Hnz o. unfold MapBuffer_entry. rewrite Hget.
  apply Z.eqb_neq in Hnz. rewrite Hnz. cbn [bind]. rewrite Hnz. reflexivity.
Qed.

Lemma MapBuffer_loop_mapped (entries : list MapBufferEntry) :
  forall st : state,
  (forall e, In e entries ->
     exists object, GetObject (map_handle e) = Some object
                    /\ dma_map_addr (objects st object) <> 0) ->
  exists m',
    MapBuffer_loop st entries
    = Ret (with_buffer_mappings st m', Some (map (reported st) entries)).
Proof.
  induction entries as [|e entries IH]; intros st Hall; cbn [MapBuffer_loop map].
  - exists (buffer_mappings st). destruct st. reflexivity.
  - destruct (Hall e (or_introl eq_refl)) as (object & Hget & Hnz).
    rewrite (MapBuffer_entry_mapped st e object Hget Hnz). cbn [bind].
    match goal with
    | |- context [MapBuffer_loop ?st1 entries] => destruct (IH st1) as (m' & Hloop)
    end.
    { intros e' He'. apply Hall. right. exact He'. }
    rewrite Hloop. cbn [bind option_map].
    exists m'. unfold reported at 2. rewrite Hget. reflexivity.
Qed.

(** An object that is mapped is not touched by map-buffer. *)
Lemma MapBuffer_entry_frame (st st' : state) (cmf_buff : MapBufferEntry)
  (r : option MapBufferEntry) (object : nat) :
  MapBuffer_entry st cmf_buff = Ret (st', r) ->
  dma_map_addr (objects st object) <> 0 ->
  objects st' object = objects st object.
Proof.
  unfold MapBuffer_entry. intros H Hnz.
  destruct (GetObject (map_handle cmf_buff)) as [object'|];
    [|injection H as <- <-; reflexivity].
  bind_inv H.
  assert (Ha : objects a object = objects st object).
  { destruct (dma_map_addr (objects st object') =? 0) eqn:Ez.
    - bind_inv E. injection E as <-.
      cbn [store_dma_map_addr objects with_gpu_call].
      destruct (Nat.eqb object object') eqn:Eo; [|reflexivity].
      apply Nat.eqb_eq in Eo. subst object'. apply Z.eqb_eq in Ez. contradiction.
    - injection E as <-. reflexivity. }
  destruct (dma_map_addr (objects a object') =? 0); injection H as <- <-; exact Ha.
Qed.

Lemma MapBuffer_loop_frame (entries : list MapBufferEntry) :
  forall (st st' : state) (r : option (list MapBufferEntry)) (object : nat),
  MapBuffer_loop st entries = Ret (st', r) ->
  dma_map_addr (objects st object) <> 0 ->
  objects st' object = objects st object.
Proof.
  induction entries as [|e entries IH]; intros st st' r object H Hnz;
    cbn [MapBuffer_loop] in H.
  - injection H as <- <-. reflexivity.
  - bind_inv H. destruct a as [st1 [e'|]].
    + bind_inv H. destruct a as [st2 r2]. injection H as <- <-.
      pose proof (MapBuffer_entry_frame _ _ _ _ _ E Hnz) as H1.
      rewrite <- H1. eapply IH; [exact E0|]. rewrite H1. exact Hnz.
    + injection H as <- <-. eapply MapBuffer_entry_frame; eassumption.
Qed.

(** C6: in whatever state the loop reaches it, an entry that resolves to
    an object whose [dma_map_addr] is non-zero triggers no allocation:
    the GPU is not called, the object stays as it is and the entry
    reports the existing address.  A
    map-buffer call whose objects are all mapped already (as after an
    earlier map-buffer without an unmap in between) therefore returns
    status 0, makes no GPU call, changes no object and writes back, after
    the header, every entry with its object's existing address.  And no
    map-buffer call changes an object that is mapped. *)
Theorem MapBuffer_reuses_mapping (st : state) (input output : list byte)
  (params : IoctlMapBuffer) (entries : list MapBufferEntry) (off : Z) :
  read_struct IoctlMapBuffer input = Ret params ->
  SpliceVectors MapBufferEntry input (num_entries params)
    (Z.of_nat (sizeof IoctlMapBuffer)) = Ret (entries, off) ->
  (forall e, In e entries ->
     exists object, GetObject (map_handle e) = Some object
                    /\ dma_map_addr (objects st object) <> 0) ->
  (sizeof IoctlMapBuffer + 8 * length entries <= length output)%nat ->
  (forall st1 e object,
     GetObject (map_handle e) = Some object ->
     dma_map_addr (objects st1 object) <> 0 ->
     exists m',
       MapBuffer_entry st1 e = Ret (with_buffer_mappings st1 m', Some (reported st1 e)))
  /\ (exists m',
        MapBuffer st input output
        = Ret (0,
               (to_bytes params ++ vector_bytes (map (reported st) entries))
               ++ skipn (sizeof IoctlMapBuffer + 8 * length entries) output,
               with_buffer_mappings st m'))
  /\ (forall input2 output2 status output2' st' object,
        MapBuffer st input2 output2 = Ret (status, output2', st') ->
        dma_map_addr (objects st object) <> 0 ->
        objects st' object = objects st object).
Proof.
  intros Hp Hs Hall Hout. split; [|split].
  - intros st1 e object Hget Hnz.
    eexists. rewrite (MapBuffer_entry_mapped st1 e object Hget Hnz).
    unfold reported. rewrite Hget. reflexivity.
  - destruct (MapBuffer_loop_mapped entries st Hall) as (m' & Hloop).
    exists m'. unfold MapBuffer. rewrite Hp. cbn [bind]. rewrite Hs. cbn [bind].
    rewrite Hloop. cbn [bind].
    pose proof (read_struct_Ret IoctlMapBuffer input params Hp) as (Hlen & _ & Himg).
    assert (Lp : length (to_bytes params) = sizeof IoctlMapBuffer)
      by (rewrite Himg, length_firstn; lia).
    unfold write_struct. rewrite write_bytes_front by lia. cbn [bind].
    rewrite write_bytes_append;
      [|lia|rewrite length_vector_bytes_entries, length_map; lia].
    cbn [bind]. unfold NvErrCodes.Success.
    rewrite length_app, Lp, length_vector_bytes_entries, length_map. reflexivity.
  - intros input2 output2 status output2' st' object H Hnz.
    unfold MapBuffer in H.
    bind_inv H. bind_inv H. destruct a0 as [entries2 off2].
    bind_inv H. destruct a0 as [st1 r].
    pose proof (MapBuffer_loop_frame _ _ _ _ _ E1 Hnz) as Hfr.
    destruct r as [entries'|].
    + bind_inv H. bind_inv H. injection H as _ _ <-. exact Hfr.
    + bind_inv H. injection H as _ _ <-. exact Hfr.
Qed.

(** ** Submit *)

(** Writing back a vector that was spliced from [input] at [off], into
    an output that already mirrors the input up to [off]. *)
Lemma WriteVectors_mirror (T : Type) `{Pod T} (input output : list byte)
  (v : list T) (count off : Z) :
  0 <= off -> 0 <= count ->
  off + count * Z.of_nat (sizeof T) <= Z.of_nat (length input) ->
  off + count * Z.of_nat (sizeof T) <= Z.of_nat (length output) ->
  length v = Z.to_nat count ->
  vector_bytes v = firstn (Z.to_nat (count * Z.of_nat (sizeof T)))
                     (skipn (Z.to_nat off) input) ->
  let off' := off + count * Z.of_nat (sizeof T) in
  WriteVectors (firstn (Z.to_nat off) input ++ skipn (Z.to_nat off) output) v off
  = Ret (firstn (Z.to_nat off') input ++ skipn (Z.to_nat off') output, off').
Proof.
  intros Hoff Hc Hin Hout Hl Hv off'.
  assert (Hn : 0 <= count * Z.of_nat (sizeof T)) by nia.
  unfold WriteVectors. rewrite Hv.
  pose proof (write_bytes_append (firstn (Z.to_nat off) input) output
                (firstn (Z.to_nat (count * Z.of_nat (sizeof T)))
                   (skipn (Z.to_nat off) input)) off) as W.
  rewrite !length_firstn, !length_skipn in W.
  rewrite Nat.min_l in W by lia.
  rewrite W by lia. cbn [bind].
  rewrite <- firstn_plus, length_firstn, Nat.min_l by lia.
  rewrite Hl, Z2Nat.id by lia.
  unfold off'. rewrite Z2Nat.inj_add by lia. reflexivity.
Qed.

Lemma Submit_loop_forwards (find : Z -> outcome (option BufferMap))
  (objs : nat -> Object) (t t' : list gpu_call) (cmds : list CommandBuffer) :
  forwards find objs t cmds t' ->
  forall st, objects st = objs -> gpu st = t ->
  Submit_loop find st cmds = Ret (with_gpu st t', None).
Proof.
  induction 1 as [t|t t' c cs object map Hget Hfind Hrest IH];
    intros st Hobjs Hgpu; cbn [Submit_loop].
  - subst t. destruct st. reflexivity.
  - unfold Submit_cmd_buffer. rewrite Hget, Hobjs, Hfind. cbn [bind]. rewrite Hgpu.
    apply (IH (with_gpu st _)); [exact Hobjs | reflexivity].
Qed.

(** The [if (!map)] branch of the loop is never taken: [FindBufferMap]
    hands back a mapping or stops the program, so no turn of the loop
    returns 0. *)
Lemma Submit_cmd_buffer_never_not_found (st st' : state) (cmd_buffer : CommandBuffer) :
  Submit_cmd_buffer (FindBufferMap (buffer_mappings st)) st cmd_buffer <> Ret (st', Some 0).
Proof.
  unfold Submit_cmd_buffer.
  destruct (GetObject (memory_id cmd_buffer)) as [object|].
  - destruct (FindBufferMap (buffer_mappings st) (dma_map_addr (objects st object)))
      as [[map|]|f] eqn:E; cbn [bind].
    + discriminate.
    + exfalso. exact (FindBufferMap_never_absent _ _ E).
    + discriminate.
  - unfold ASSERT. destruct assert_fatal; cbn [bind]; [discriminate|].
    intros H. injection H as _ H. vm_compute in H. discriminate H.
Qed.

(** Descriptors that all resolve to objects the lookup has a mapping
    for can be forwarded, whatever the trace so far. *)
Lemma forwards_exists (find : Z -> outcome (option BufferMap)) (objs : nat -> Object)
  (cmds : list CommandBuffer) :
  (forall c, In c cmds ->
     exists object b, GetObject (memory_id c) = Some object
                      /\ find (dma_map_addr (objs object)) = Ret (Some b)) ->
  forall t, exists t', forwards find objs t cmds t'.
Proof.
  induction cmds as [|c cmds IH]; intros Hall t.
  - exists t. constructor.
  - destruct (Hall c (or_introl eq_refl)) as (object & b & Hget & Hfind).
    edestruct IH as (t' & Hfw).
    + intros c' Hc'. apply Hall. right. exact Hc'.
    + exists t'. eapply forwards_cons; eassumption.
Qed.

(** With [FindBufferMap] as the lookup: under the invariant, descriptors
    whose objects all carry an address inside some mapping's range can
    be forwarded. *)
Lemma forwards_FindBufferMap (m : list (Z * BufferMap)) (objs : nat -> Object)
  (cmds : list CommandBuffer) :
  buffer_map_inv m ->
  (forall c, In c cmds ->
     exists object k b,
       GetObject (memory_id c) = Some object
       /\ In (k, b) m
       /\ StartAddr b <= dma_map_addr (objs object) < EndAddr b) ->
  forall t, exists t', forwards (FindBufferMap m) objs t cmds t'.
Proof.
  intros Hinv Hall. apply forwards_exists.
  intros c Hc. destruct (Hall c Hc) as (object & k & b & Hget & Hin & Hrange).
  destruct (FindBufferMap_found m _ k b Hinv Hin Hrange) as (b' & Hfind & _).
  exists object, b'. split; assumption.
Qed.

(** C1, as the code has it: [Submit] validates nothing.  On an input
    shorter than the header, or shorter than the header plus the
    command-buffer descriptors it announces, or more generally shorter
    than the header plus the six vectors its counts announce, decoding
    runs into a [memcpy] that reads past the end of the input: no status
    is returned (in particular no malformed-request failure), no
    descriptor is processed and nothing is written to the output. *)
Theorem Submit_short_input (st : state) (input output : list byte) :
  let params : IoctlSubmit := of_bytes (firstn (sizeof IoctlSubmit) input) in
  (length input < sizeof IoctlSubmit)%nat
  \/ Z.of_nat (length input)
     < Z.of_nat (sizeof IoctlSubmit)
       + cmd_buffer_count params * Z.of_nat (sizeof CommandBuffer)
  \/ Z.of_nat (length input) < Submit_input_size params ->
  Submit st input output = Fault OutOfBoundsRead.
Proof.
  intros params H. unfold Submit, Submit_with.
  destruct (Nat.ltb_spec (length input) (sizeof IoctlSubmit)) as [Hs|Hl].
  - (* the header itself does not fit *)
    rewrite read_struct_short by exact Hs. reflexivity.
  - assert (Hshort : Z.of_nat (length input) < Submit_input_size params).
    { destruct H as [H|[H|H]]; [lia| |exact H].
      (* the other vectors only add to what is read *)
      unfold Submit_input_size.
      pose proof (get_u32_range (firstn (sizeof IoctlSubmit) input) 4) as R1.
      pose proof (get_u32_range (firstn (sizeof IoctlSubmit) input) 8) as R2.
      pose proof (get_u32_range (firstn (sizeof IoctlSubmit) input) 12) as R3.
      change (get_u32 (firstn (sizeof IoctlSubmit) input) 4)
        with (relocation_count params) in R1.
      change (get_u32 (firstn (sizeof IoctlSubmit) input) 8)
        with (syncpoint_count params) in R2.
      change (get_u32 (firstn (sizeof IoctlSubmit) input) 12)
        with (fence_count params) in R3.
      nia. }
    clear H. rewrite read_struct_fits by exact Hl. cbn [bind].
    fold params. unfold Submit_input_size in Hshort.
    unfold SpliceVectors, read_bytes.
    cbn [sizeof Pod_IoctlSubmit Pod_CommandBuffer Pod_u32 Pod_Reloc Pod_SyncptIncr
         Pod_Fence Pod_Blob] in *.
    (* each of the six splices either faults or moves the offset on;
       had none faulted, the last offset would fit the input *)
    repeat match goal with
           | |- context [if ?a <=? ?b then _ else _] =>
               destruct (Z.leb_spec a b); cbn [bind]; [|reflexivity]
           end.
    exfalso. lia.
Qed.

(** X22: the success path of [Submit].  Take a submit call whose input
    holds the header and all six vectors and whose output can hold the
    header and the first five.  If every descriptor resolves to an
    object for which [FindBufferMap] yields a mapping, every descriptor
    is forwarded (a block read at the mapping's start plus the
    descriptor's offset, then the words read pushed as a command list),
    the status is 0 and the output receives the header and the
    command-buffer, relocation, relocation-shift, syncpoint-increment
    and wait-check vectors as the input had them; the rest of the
    output, where the fences would go, is left as it was. *)
Theorem Submit_forwards_and_writes_back (st : state) (input output : list byte)
  (params : IoctlSubmit) (cmds : list CommandBuffer) (off : Z) (t' : list gpu_call) :
  read_struct IoctlSubmit input = Ret params ->
  SpliceVectors CommandBuffer input (cmd_buffer_count params)
    (Z.of_nat (sizeof IoctlSubmit)) = Ret (cmds, off) ->
  Submit_input_size params <= Z.of_nat (length input) ->
  forwards (FindBufferMap (buffer_mappings st)) (objects st) (gpu st) cmds t' ->
  Submit_output_size params <= Z.of_nat (length output) ->
  Submit st input output
  = Ret (0,
         firstn (Z.to_nat (Submit_output_size params)) input
         ++ skipn (Z.to_nat (Submit_output_size params)) output,
         with_gpu st t').
Proof.
  intros Hp Hs Hin Hfw Hout. unfold Submit.
  set (find := FindBufferMap (buffer_mappings st)) in *.
  pose proof (read_struct_Ret IoctlSubmit input params Hp) as (Hlen & Hpar & Himg).
  assert (C1 : 0 <= cmd_buffer_count params) by (subst params; apply get_u32_range).
  assert (C2 : 0 <= relocation_count params) by (subst params; apply get_u32_range).
  assert (C3 : 0 <= syncpoint_count params) by (subst params; apply get_u32_range).
  assert (C4 : 0 <= fence_count params) by (subst params; apply get_u32_range).
  clear Hpar.
  unfold Submit_input_size in Hin.
  destruct (SpliceVectors_Ret CommandBuffer input _ _ cmds off (Nat2Z.is_nonneg _) C1 Hs)
    as (-> & _ & Hl1 & Hv1).
  cbn [sizeof Pod_IoctlSubmit Pod_CommandBuffer] in *.
  destruct (@SpliceVectors_fits Blob Pod_Reloc _ input (relocation_count params)
              (Z.of_nat 16 + cmd_buffer_count params * Z.of_nat 12))
    as (v2 & E2 & Hl2 & Hv2); [nia | exact C2 | cbn [sizeof Pod_Reloc Pod_Blob]; nia |].
  destruct (SpliceVectors_fits Z input (relocation_count params)
              (Z.of_nat 16 + cmd_buffer_count params * Z.of_nat 12
               + relocation_count params * Z.of_nat (@sizeof Blob Pod_Reloc)))
    as (v3 & E3 & Hl3 & Hv3);
    [cbn [sizeof Pod_Reloc Pod_Blob]; nia | exact C2
     | cbn [sizeof Pod_Reloc Pod_Blob Pod_u32]; nia |].
  destruct (@SpliceVectors_fits Blob Pod_SyncptIncr _ input (syncpoint_count params)
              (Z.of_nat 16 + cmd_buffer_count params * Z.of_nat 12
               + relocation_count params * Z.of_nat (@sizeof Blob Pod_Reloc)
               + relocation_count params * Z.of_nat (sizeof Z)))
    as (v4 & E4 & Hl4 & Hv4);
    [cbn [sizeof Pod_Reloc Pod_Blob Pod_u32]; nia | exact C3
     | cbn [sizeof Pod_Reloc Pod_SyncptIncr Pod_Blob Pod_u32]; nia |].
  destruct (@SpliceVectors_fits Blob Pod_SyncptIncr _ input (syncpoint_count params)
              (Z.of_nat 16 + cmd_buffer_count params * Z.of_nat 12
               + relocation_count params * Z.of_nat (@sizeof Blob Pod_Reloc)
               + relocation_count params * Z.of_nat (sizeof Z)
               + syncpoint_count params * Z.of_nat (@sizeof Blob Pod_SyncptIncr)))
    as (v5 & E5 & Hl5 & Hv5);
    [cbn [sizeof Pod_Reloc Pod_SyncptIncr Pod_Blob Pod_u32]; nia | exact C3
     | cbn [sizeof Pod_Reloc Pod_SyncptIncr Pod_Blob Pod_u32]; nia |].
  destruct (@SpliceVectors_fits Blob Pod_Fence _ input (fence_count params)
              (Z.of_nat 16 + cmd_buffer_count params * Z.of_nat 12
               + relocation_count params * Z.of_nat (@sizeof Blob Pod_Reloc)
               + relocation_count params * Z.of_nat (sizeof Z)
               + syncpoint_count params * Z.of_nat (@sizeof Blob Pod_SyncptIncr)
               + syncpoint_count params * Z.of_nat (@sizeof Blob Pod_SyncptIncr)))
    as (v6 & E6 & Hl6 & Hv6);
    [cbn [sizeof Pod_Reloc Pod_SyncptIncr Pod_Blob Pod_u32]; nia | exact C4
     | cbn [sizeof Pod_Reloc Pod_SyncptIncr Pod_Fence Pod_Blob Pod_u32]; nia |].
  assert (Hdecode :
             Submit_with find st input output
             = bind (Submit_loop find st cmds)
                 (fun x => match x with
                           | (st, Some status) => Ret (status, output, st)
                           | (st, None) =>
                               output <- write_struct output params ;;
                               '(output, offset) <- WriteVectors output cmds (Z.of_nat 16) ;;
                               '(output, offset) <- WriteVectors (H := Pod_Reloc) output v2 offset ;;
                               '(output, offset) <- WriteVectors output v3 offset ;;
                               '(output, offset) <- WriteVectors (H := Pod_SyncptIncr) output v4 offset ;;
                               '(output, offset) <- WriteVectors (H := Pod_SyncptIncr) output v5 offset ;;
                               Ret (NvErrCodes.Success, output, st)
                           end)).
  { unfold Submit_with. rewrite Hp. cbn [bind sizeof Pod_IoctlSubmit].
    rewrite Hs. cbn [bind]. rewrite E2. cbn [bind]. rewrite E3. cbn [bind].
    rewrite E4. cbn [bind]. rewrite E5. cbn [bind]. rewrite E6. cbn [bind].
    f_equal. }
  unfold Submit_output_size in *.
  cbn [sizeof Pod_IoctlSubmit Pod_CommandBuffer] in *.
  rewrite Hdecode.
  rewrite (Submit_loop_forwards find (objects st) (gpu st) t' cmds Hfw st eq_refl eq_refl).
  cbn [bind]. unfold write_struct. rewrite Himg.
  rewrite write_bytes_front by (rewrite length_firstn; lia). cbn [bind].
  rewrite length_firstn, Nat.min_l by lia.
  change 16%nat with (Z.to_nat (Z.of_nat 16)).
  rewrite (WriteVectors_mirror CommandBuffer input output cmds
             (cmd_buffer_count params) (Z.of_nat 16));
    [|lia|lia|cbn [sizeof Pod_CommandBuffer]; nia|cbn [sizeof Pod_CommandBuffer]; nia
     |exact Hl1|exact Hv1].
  cbn [bind sizeof Pod_CommandBuffer].
  rewrite (@WriteVectors_mirror Blob Pod_Reloc input output v2 (relocation_count params));
    [|nia|lia|cbn [sizeof Pod_Reloc Pod_Blob]; nia|cbn [sizeof Pod_Reloc Pod_Blob]; nia
     |exact Hl2|exact Hv2].
  cbn [bind].
  rewrite (WriteVectors_mirror Z input output v3 (relocation_count params));
    [|cbn [sizeof Pod_Reloc Pod_Blob]; nia|lia
     |cbn [sizeof Pod_Reloc Pod_Blob Pod_u32]; nia
     |cbn [sizeof Pod_Reloc Pod_Blob Pod_u32]; nia
     |exact Hl3|exact Hv3].
  cbn [bind].
  rewrite (@WriteVectors_mirror Blob Pod_SyncptIncr input output v4 (syncpoint_count params));
    [|cbn [sizeof Pod_Reloc Pod_Blob Pod_u32]; nia|lia
     |cbn [sizeof Pod_Reloc Pod_SyncptIncr Pod_Blob Pod_u32]; nia
     |cbn [sizeof Pod_Reloc Pod_SyncptIncr Pod_Blob Pod_u32]; nia
     |exact Hl4|exact Hv4].
  cbn [bind].
  rewrite (@WriteVectors_mirror Blob Pod_SyncptIncr input output v5 (syncpoint_count params));
    [|cbn [sizeof Pod_Reloc Pod_SyncptIncr Pod_Blob Pod_u32]; nia|lia
     |cbn [sizeof Pod_Reloc Pod_SyncptIncr Pod_Blob Pod_u32]; nia
     |cbn [sizeof Pod_Reloc Pod_SyncptIncr Pod_Blob Pod_u32]; nia
     |exact Hl5|exact Hv5].
  cbn [bind]. reflexivity.
Qed.

(** ** The error path of MapBuffer and UnmapBuffer *)

Lemma UnmapBuffer_loop_unresolved (pre : list MapBufferEntry) :
  forall (st : state) (e : MapBufferEntry) (post : list MapBufferEntry),
  (forall e', In e' pre -> GetObject (map_handle e') <> None) ->
  GetObject (map_handle e) = None ->
  UnmapBuffer_loop st (pre ++ e :: post) = (fst (UnmapBuffer_loop st pre), false).
Proof.
  induction pre as [|e0 pre IH]; intros st e post Hpre He; cbn [UnmapBuffer_loop app].
  - unfold UnmapBuffer_entry. rewrite He. reflexivity.
  - destruct (UnmapBuffer_entry st e0) as [st1|] eqn:E.
    + apply IH; [|exact He]. intros e' He'. apply Hpre. right. exact He'.
    + exfalso. unfold UnmapBuffer_entry in E.
      destruct (GetObject (map_handle e0)) as [object|] eqn:G.
      * destruct (RemoveBufferMap (buffer_mappings st) (dma_map_addr (objects st object))).
        discriminate E.
      * apply (Hpre e0); [left; reflexivity | exact G].
Qed.

(** At the first handle that does not resolve the loop stops and the
    status is [InvalidInput]; the write-back copies [output.size()] bytes
    from [params], which is the header only when the output buffer is
    exactly as long as the header, a prefix of it when shorter, and a
    read past [params] when longer. *)
Lemma UnmapBuffer_unresolved_handle (st : state) (input output : list byte)
  (params : IoctlMapBuffer) (pre post : list MapBufferEntry) (e : MapBufferEntry) (off : Z) :
  read_struct IoctlMapBuffer input = Ret params ->
  SpliceVectors MapBufferEntry input (num_entries params)
    (Z.of_nat (sizeof IoctlMapBuffer)) = Ret (pre ++ e :: post, off) ->
  (forall e', In e' pre -> GetObject (map_handle e') <> None) ->
  GetObject (map_handle e) = None ->
  UnmapBuffer st input output
  = if (length output <=? sizeof IoctlMapBuffer)%nat
    then Ret (NvErrCodes.InvalidInput, firstn (length output) (to_bytes params),
              fst (UnmapBuffer_loop st pre))
    else Fault OutOfBoundsRead.
Proof.
  intros Hp Hs Hpre He. unfold UnmapBuffer. rewrite Hp. cbn [bind]. rewrite Hs. cbn [bind].
  rewrite (UnmapBuffer_loop_unresolved pre st e post Hpre He).
  unfold write_struct_sized.
  destruct (length output <=? sizeof IoctlMapBuffer)%nat; reflexivity.
Qed.

Lemma MapBuffer_loop_unresolved (pre : list MapBufferEntry) :
  forall (st st' : state) (pre' : list MapBufferEntry) (e : MapBufferEntry)
         (post : list MapBufferEntry),
  MapBuffer_loop st pre = Ret (st', Some pre') ->
  GetObject (map_handle e) = None ->
  MapBuffer_loop st (pre ++ e :: post) = Ret (st', None).
Proof.
  induction pre as [|e0 pre IH]; intros st st' pre' e post Hpre He;
    cbn [MapBuffer_loop app] in *.
  - injection Hpre as <- _. unfold MapBuffer_entry. rewrite He. reflexivity.
  - bind_inv Hpre. destruct a as [st1 [e0'|]]; [|discriminate Hpre].
    bind_inv Hpre. destruct a as [st2 [l|]]; [|discriminate Hpre].
    injection Hpre as <- _.
    rewrite E. cbn [bind]. rewrite (IH st1 st2 l e post E0 He). reflexivity.
Qed.

Lemma MapBuffer_unresolved_handle (st st' : state) (input output : list byte)
  (params : IoctlMapBuffer) (pre pre' post : list MapBufferEntry) (e : MapBufferEntry)
  (off : Z) :
  read_struct IoctlMapBuffer input = Ret params ->
  SpliceVectors MapBufferEntry input (num_entries params)
    (Z.of_nat (sizeof IoctlMapBuffer)) = Ret (pre ++ e :: post, off) ->
  MapBuffer_loop st pre = Ret (st', Some pre') ->
  GetObject (map_handle e) = None ->
  MapBuffer st input output
  = if (length output <=? sizeof IoctlMapBuffer)%nat
    then Ret (NvErrCodes.InvalidInput, firstn (length output) (to_bytes params), st')
    else Fault OutOfBoundsRead.
Proof.
  intros Hp Hs Hpre He. unfold MapBuffer. rewrite Hp. cbn [bind]. rewrite Hs. cbn [bind].
  rewrite (MapBuffer_loop_unresolved pre st st' pre' e post Hpre He). cbn [bind].
  unfold write_struct_sized.
  destruct (length output <=? sizeof IoctlMapBuffer)%nat; reflexivity.
Qed.

(** * Further properties of the code *)

(** ** SpliceVectors and WriteVectors *)

(** X1: [SpliceVectors] succeeds exactly when the [count] elements fit
    in the input from [offset] on.  It then returns [count] elements
    whose bytes are the input's at that place and the offset advanced by
    [count * sizeof(T)] (an empty vector and the same offset for
    [count = 0]); otherwise the copy reads past the end of the input. *)
Theorem SpliceVectors_bounds (T : Type) `{PodOk T} (input : list byte) (count off : Z) :
  0 <= off -> 0 <= count ->
  (off + count * Z.of_nat (sizeof T) <= Z.of_nat (length input) ->
   exists v,
     SpliceVectors T input count off = Ret (v, off + count * Z.of_nat (sizeof T))
     /\ length v = Z.to_nat count
     /\ vector_bytes v = firstn (Z.to_nat (count * Z.of_nat (sizeof T)))
                           (skipn (Z.to_nat off) input))
  /\ (Z.of_nat (length input) < off + count * Z.of_nat (sizeof T) ->
      SpliceVectors T input count off = Fault OutOfBoundsRead).
Proof.
  intros Hoff Hc. split.
  - intros Hfit. apply SpliceVectors_fits; assumption.
  - intros Hshort. unfold SpliceVectors.
    rewrite read_bytes_short by exact Hshort. reflexivity.
Qed.

Lemma length_write_bytes (dst data dst' : list byte) (off : Z) :
  0 <= off -> write_bytes dst off data = Ret dst' -> length dst' = length dst.
Proof.
  unfold write_bytes. intros Hoff H.
  destruct (off + Z.of_nat (length data) <=? Z.of_nat (length dst)) eqn:E; [|discriminate H].
  apply Z.leb_le in E. injection H as <-.
  rewrite !length_app, length_firstn, length_skipn. lia.
Qed.

Lemma slice_write_bytes (dst data : list byte) (off : nat) :
  (off + length data <= length dst)%nat ->
  firstn (length data)
    (skipn off (firstn off dst ++ data ++ skipn (off + length data) dst))
  = data.
Proof.
  intros H.
  rewrite skipn_app_exact by (rewrite length_firstn; lia).
  apply firstn_app_exact. reflexivity.
Qed.

(** X2: a vector spliced from a buffer and written at the same offset
    into an output buffer that is long enough puts the input's bytes
    there and leaves the rest of the output alone; both calls return the
    same advanced offset, and splicing the output at that offset gives
    the vector back. *)
Theorem SpliceVectors_WriteVectors_round_trip (T : Type) `{PodOk T}
  (input output : list byte) (count off off' : Z) (v : list T) :
  0 <= off -> 0 <= count ->
  SpliceVectors T input count off = Ret (v, off') ->
  off' <= Z.of_nat (length output) ->
  let output' := firstn (Z.to_nat off) output
                 ++ firstn (Z.to_nat (off' - off)) (skipn (Z.to_nat off) input)
                 ++ skipn (Z.to_nat off') output in
  WriteVectors output v off = Ret (output', off')
  /\ length output' = length output
  /\ SpliceVectors T output' count off = Ret (v, off').
Proof.
  intros Hoff Hc Hs Hout output'.
  destruct (SpliceVectors_Ret T input count off v off' Hoff Hc Hs) as (-> & Hin & Hl & Hv).
  assert (Hn : 0 <= count * Z.of_nat (sizeof T)) by nia.
  assert (Lv : length (vector_bytes v) = Z.to_nat (count * Z.of_nat (sizeof T)))
    by (rewrite Hv, length_firstn, length_skipn; lia).
  assert (HW : WriteVectors output v off
               = Ret (output', off + count * Z.of_nat (sizeof T))).
  { unfold WriteVectors. rewrite write_bytes_fits by lia. cbn [bind].
    unfold output'.
    replace (off + count * Z.of_nat (sizeof T) - off) with (count * Z.of_nat (sizeof T))
      by lia.
    rewrite <- Hv, Lv, Hl, Z2Nat.id, Z2Nat.inj_add by lia. reflexivity. }
  split; [exact HW|].
  assert (Lo : length output' = length output).
  { unfold output'. rewrite !length_app, !length_firstn, !length_skipn. lia. }
  split; [exact Lo|].
  (* the bytes now found at [off] in the output are the vector's *)
  unfold SpliceVectors. rewrite read_bytes_fits by lia. cbn [bind].
  unfold SpliceVectors in Hs. rewrite read_bytes_fits in Hs by lia. cbn [bind] in Hs.
  injection Hs as Hs. rewrite <- Hs. f_equal. f_equal. f_equal. f_equal.
  unfold output'.
  replace (off + count * Z.of_nat (sizeof T) - off) with (count * Z.of_nat (sizeof T))
    by lia.
  rewrite skipn_app_exact by (rewrite length_firstn; lia).
  apply firstn_app_exact.
  rewrite length_firstn, length_skipn. lia.
Qed.

(** ** The buffer address map *)

Lemma length_insert_or_assign {V : Type} (m : list (Z * V)) (k : Z) (v : V) :
  ascending m ->
  length (insert_or_assign m k v)
  = match lookup m k with Some _ => length m | None => S (length m) end.
Proof.
  induction m as [|[k' v'] m IH]; intros Hasc; [reflexivity|].
  destruct Hasc as [Hk Hasc]. cbn [insert_or_assign]. rewrite lookup_cons.
  destruct (k <? k') eqn:Hlt.
  - apply Z.ltb_lt in Hlt.
    destruct (k' =? k) eqn:E; [apply Z.eqb_eq in E; lia|].
    rewrite lookup_below; [reflexivity|].
    eapply Forall_impl; [|exact Hk]. cbn. intros; lia.
  - rewrite Z.eqb_sym. destruct (k' =? k) eqn:E; [reflexivity|].
    cbn [length]. rewrite (IH Hasc). destruct (lookup m k); reflexivity.
Qed.

Lemma length_erase_found {V : Type} (m : list (Z * V)) (k : Z) (v : V) :
  lookup m k = Some v -> S (length (erase m (map_find m k))) = length m.
Proof.
  induction m as [|[k' v'] m IH]; [discriminate|].
  rewrite lookup_cons, erase_cons.
  destruct (k' =? k); [reflexivity|].
  intros H. cbn [length]. rewrite (IH H). reflexivity.
Qed.

(** X3: after [AddBufferMap(a, ...)] the map has, under [a], exactly the
    mapping just built (start [a], the given size, CPU address and flag);
    every other key finds what it found before; the entries stay in key
    order; and the map grows by one entry exactly when [a] was not a key
    yet. *)
Theorem AddBufferMap_lookup (m : list (Z * BufferMap)) (a sz cpu : Z) (b : bool) :
  ascending m ->
  let m' := AddBufferMap m a sz cpu b in
  lookup m' a = Some {| start_addr := a; map_size := sz; cpu_addr := cpu;
                        is_allocated := b |}
  /\ (forall k, k <> a -> lookup m' k = lookup m k)
  /\ ascending m'
  /\ length m' = match lookup m a with Some _ => length m | None => S (length m) end.
Proof.
  intros Hasc m'. unfold m', AddBufferMap.
  split; [apply lookup_insert_same|].
  split; [intros k Hk; apply lookup_insert_other; assumption|].
  split; [apply ascending_insert; exact Hasc|].
  apply length_insert_or_assign. exact Hasc.
Qed.

(** X4: the last write wins.  Adding a mapping at an address where one
    was just added leaves the map as if only the second had been added:
    no second entry, nothing of the first one kept. *)
Theorem AddBufferMap_overwrites (m : list (Z * BufferMap))
  (a sz1 cpu1 sz2 cpu2 : Z) (b1 b2 : bool) :
  AddBufferMap (AddBufferMap m a sz1 cpu1 b1) a sz2 cpu2 b2
  = AddBufferMap m a sz2 cpu2 b2.
Proof.
  unfold AddBufferMap.
  induction m as [|[k' v'] m IH]; cbn [insert_or_assign].
  - rewrite Z.ltb_irrefl, Z.eqb_refl. reflexivity.
  - destruct (a <? k') eqn:Hlt; cbn [insert_or_assign].
    + rewrite Z.ltb_irrefl, Z.eqb_refl. reflexivity.
    + destruct (a =? k') eqn:Heq; cbn [insert_or_assign].
      * rewrite Z.ltb_irrefl, Z.eqb_refl. reflexivity.
      * rewrite Hlt, Heq, IH. reflexivity.
Qed.

(** X5: [RemoveBufferMap] on a key the map does not have returns no size
    and leaves the map alone.  On a key it has, it returns the mapping's
    size if the mapping is allocated and 0 if not, and the map loses
    exactly that one entry.  Either way the key is absent afterwards,
    the other keys find what they found before, and removing the same
    address again changes nothing. *)
Theorem RemoveBufferMap_cases (m : list (Z * BufferMap)) (a : Z) :
  ascending m ->
  let r := RemoveBufferMap m a in
  match lookup m a with
  | None => r = (None, m)
  | Some b => fst r = Some (if IsAllocated b then Size b else 0)
              /\ S (length (snd r)) = length m
  end
  /\ lookup (snd r) a = None
  /\ (forall k, k <> a -> lookup (snd r) k = lookup m k)
  /\ ascending (snd r)
  /\ RemoveBufferMap (snd r) a = (None, snd r).
Proof.
  intros Hasc r. unfold r. rewrite RemoveBufferMap_spec.
  destruct (lookup m a) as [b|] eqn:L; cbn [fst snd].
  - assert (Hgone : lookup (erase m (map_find m a)) a = None)
      by (apply lookup_erase_same; exact Hasc).
    split; [split; [reflexivity | eapply length_erase_found; exact L]|].
    split; [exact Hgone|].
    split; [intros k Hk; apply lookup_erase_other; exact Hk|].
    split; [apply ascending_erase; exact Hasc|].
    rewrite RemoveBufferMap_spec, Hgone. reflexivity.
  - split; [reflexivity|]. split; [exact L|].
    split; [reflexivity|]. split; [exact Hasc|].
    rewrite RemoveBufferMap_spec, L. reflexivity.
Qed.

Lemma ascending_head_unique {V : Type} (k : Z) (v v' : V) (m : list (Z * V)) :
  ascending ((k, v) :: m) -> In (k, v') ((k, v) :: m) -> v' = v.
Proof.
  intros [Hk _] [[= ->]|Hin]; [reflexivity|].
  rewrite Forall_forall in Hk. specialize (Hk _ Hin). cbn in Hk. lia.
Qed.

(** X6: with the invariant in force, looking up an address that lies in
    the range of some mapping returns a mapping of the map whose range
    contains the address; when only one mapping contains the address,
    that is the one returned. *)
Theorem FindBufferMap_hit (m : list (Z * BufferMap)) (gpu_addr k : Z) (b : BufferMap) :
  buffer_map_inv m -> In (k, b) m ->
  StartAddr b <= gpu_addr < EndAddr b ->
  exists b',
    FindBufferMap m gpu_addr = Ret (Some b')
    /\ In (StartAddr b', b') m
    /\ StartAddr b' <= gpu_addr < EndAddr b'
    /\ ((forall k2 b2, In (k2, b2) m -> StartAddr b2 <= gpu_addr < EndAddr b2 -> b2 = b) ->
        b' = b).
Proof.
  intros Hinv Hin Hrange.
  destruct (FindBufferMap_found m gpu_addr k b Hinv Hin Hrange) as (b' & Hf & Hin' & Hr').
  exists b'. repeat split; try assumption; try apply Hr'.
  intros Huniq. exact (Huniq _ _ Hin' Hr').
Qed.

(** X7: looking up an address that no mapping filed at or below it
    contains never yields "not found".  If every key is at or below the
    address, the assertion [it != end()] fails (and where assertions do
    not stop the program, [end()] is dereferenced).  If some key lies
    above the address, the entry with the least such key is returned,
    although the address is below its start. *)
Theorem FindBufferMap_miss (m : list (Z * BufferMap)) (gpu_addr : Z) :
  ascending m ->
  (forall k b, In (k, b) m -> k <= gpu_addr ->
     ~ (StartAddr b <= gpu_addr < EndAddr b)) ->
  ((forall k b, In (k, b) m -> k <= gpu_addr) ->
   FindBufferMap m gpu_addr
   = Fault (if assert_fatal then AssertionFailed else EndIteratorDeref))
  /\ (forall k b,
        In (k, b) m -> gpu_addr < k ->
        (forall k' b', In (k', b') m -> gpu_addr < k' -> k <= k') ->
        FindBufferMap m gpu_addr = Ret (Some b)).
Proof.
  intros Hasc Hmiss.
  induction m as [|[k0 b0] m IH].
  - split; [intros _; apply FindBufferMap_nil | intros k b []].
  - assert (Hasc' : ascending m) by apply Hasc.
    assert (Hmiss' : forall k b, In (k, b) m -> k <= gpu_addr ->
                       ~ (StartAddr b <= gpu_addr < EndAddr b))
      by (intros k b Hin; apply Hmiss; right; exact Hin).
    destruct (IH Hasc' Hmiss') as [IHfault IHnext].
    rewrite FindBufferMap_cons.
    destruct (gpu_addr <? k0) eqn:Hlt.
    + apply Z.ltb_lt in Hlt. split.
      * intros Hall. specialize (Hall k0 b0 (or_introl eq_refl)). lia.
      * intros k b Hin Hk Hleast.
        assert (k = k0).
        { pose proof (Hleast k0 b0 (or_introl eq_refl) Hlt).
          destruct Hin as [[= -> ->]|Hin]; [reflexivity|].
          destruct Hasc as [Hk0 _]. rewrite Forall_forall in Hk0.
          specialize (Hk0 _ Hin). cbn in Hk0. lia. }
        subst k. f_equal. f_equal. symmetry.
        eapply ascending_head_unique; eassumption.
    + apply Z.ltb_ge in Hlt.
      assert (Hp : (StartAddr b0 <=? gpu_addr) && (gpu_addr <? EndAddr b0) = false).
      { destruct ((StartAddr b0 <=? gpu_addr) && (gpu_addr <? EndAddr b0)) eqn:Hp;
          [|reflexivity].
        exfalso. apply andb_true_iff in Hp. destruct Hp as [Hp1 Hp2].
        apply Z.leb_le in Hp1. apply Z.ltb_lt in Hp2.
        apply (Hmiss k0 b0 (or_introl eq_refl) Hlt). lia. }
      rewrite Hp. split.
      * intros Hall. apply IHfault. intros k b Hin. apply (Hall k b). right. exact Hin.
      * intros k b Hin Hk Hleast.
        destruct Hin as [[= -> ->]|Hin]; [lia|].
        apply (IHnext k b Hin Hk).
        intros k' b' Hin'. apply (Hleast k' b'). right. exact Hin'.
Qed.

(** ** Mapping and unmapping one entry *)

Lemma lookup_In {V : Type} (m : list (Z * V)) (k : Z) (v : V) :
  lookup m k = Some v -> In (k, v) m.
Proof.
  intros H. apply lookup_key in H. eapply nth_error_In. exact H.
Qed.

Lemma wrap32_small (z : Z) : 0 <= z < 2 ^ 32 -> wrap32 z = z.
Proof. intros H. unfold wrap32. apply Z.mod_small. exact H. Qed.

Lemma wrap32_range (z : Z) : 0 <= wrap32 z < 2 ^ 32.
Proof. unfold wrap32. apply Z.mod_pos_bound. lia. Qed.

(** One turn of the map-buffer loop on an object that is not mapped:
    the allocation, the assertion on its result, and what follows. *)
Lemma MapBuffer_entry_fresh (st : state) (cmf_buff : MapBufferEntry) (object : nat) :
  GetObject (map_handle cmf_buff) = Some object ->
  dma_map_addr (objects st object) = 0 ->
  let o := objects st object in
  let low_addr := wrap64 (gpu_MapAllocate32 (gpu st) (addr o) (size o)) in
  MapBuffer_entry st cmf_buff
  = bind (bind (ASSERT (wrap32 low_addr =? low_addr))
            (fun _ => Ret (store_dma_map_addr
                             (with_gpu_call st
                                (MapAllocate32 (addr o) (size o) low_addr))
                             object (wrap32 low_addr))))
      (fun st1 =>
         if wrap32 low_addr =? 0 then Ret (st1, Some cmf_buff)
         else Ret (with_buffer_mappings st1
                     (AddBufferMap (buffer_mappings st1) (wrap32 low_addr)
                        (size o) (addr o) (Status_eqb (status o) Allocated)),
                   Some {| map_handle := map_handle cmf_buff;
                           map_address := wrap32 low_addr |})).
Proof.
  intros Hget Hz o low_addr.
  unfold MapBuffer_entry. rewrite Hget, Hz. cbn [Z.eqb]. fold o. fold low_addr.
  set (st1 := store_dma_map_addr
                (with_gpu_call st (MapAllocate32 (addr o) (size o) low_addr))
                object (wrap32 low_addr)).
  assert (Hobj : objects st1 object = set_dma_map_addr o (wrap32 low_addr)).
  { unfold st1. cbn [store_dma_map_addr with_gpu_call with_gpu objects].
    rewrite Nat.eqb_refl. reflexivity. }
  rewrite Hobj. cbn [dma_map_addr set_dma_map_addr].
  destruct (ASSERT (wrap32 low_addr =? low_addr)); cbn [bind]; [|reflexivity].
  rewrite Hobj. cbn [dma_map_addr size addr status set_dma_map_addr]. reflexivity.
Qed.

(** X8: map-buffer on an entry whose object is not mapped yet
    ([dma_map_addr = 0]) asks the GPU for an address once, with the
    object's CPU address and size.
    - A non-zero 32-bit answer becomes the object's [dma_map_addr], is
      reported in the entry, and is filed in the map with the object's
      size, CPU address and whether its status is [Allocated]; no other
      object changes.
    - The answer 0 is not an error: the entry, the map and the objects
      stay as they were.
    - An answer that does not fit 32 bits fails the assertion; where
      assertions do not stop the program, the address truncated to 32
      bits is what gets stored and reported. *)
Theorem MapBuffer_entry_allocates (st : state) (cmf_buff : MapBufferEntry) (object : nat) :
  GetObject (map_handle cmf_buff) = Some object ->
  dma_map_addr (objects st object) = 0 ->
  let o := objects st object in
  let low_addr := wrap64 (gpu_MapAllocate32 (gpu st) (addr o) (size o)) in
  (0 < low_addr < 2 ^ 32 ->
   exists st',
     MapBuffer_entry st cmf_buff
     = Ret (st', Some {| map_handle := map_handle cmf_buff; map_address := low_addr |})
     /\ gpu st' = gpu st ++ [MapAllocate32 (addr o) (size o) low_addr]
     /\ objects st' object = set_dma_map_addr o low_addr
     /\ (forall r, r <> object -> objects st' r = objects st r)
     /\ buffer_mappings st'
        = AddBufferMap (buffer_mappings st) low_addr (size o) (addr o)
            (Status_eqb (status o) Allocated))
  /\ (low_addr = 0 ->
      exists st',
        MapBuffer_entry st cmf_buff = Ret (st', Some cmf_buff)
        /\ gpu st' = gpu st ++ [MapAllocate32 (addr o) (size o) 0]
        /\ buffer_mappings st' = buffer_mappings st
        /\ forall r, objects st' r = objects st r)
  /\ (2 ^ 32 <= low_addr ->
      if assert_fatal
      then MapBuffer_entry st cmf_buff = Fault AssertionFailed
      else wrap32 low_addr <> 0 ->
           exists st',
             MapBuffer_entry st cmf_buff
             = Ret (st', Some {| map_handle := map_handle cmf_buff;
                                 map_address := wrap32 low_addr |})
             /\ dma_map_addr (objects st' object) = wrap32 low_addr).
Proof.
  intros Hget Hz o low_addr.
  pose proof (MapBuffer_entry_fresh st cmf_buff object Hget Hz) as Hstep.
  cbv zeta in Hstep. fold o in Hstep. fold low_addr in Hstep.
  rewrite Hstep. unfold ASSERT. split; [|split].
  - intros Hlow. rewrite wrap32_small by lia. rewrite Z.eqb_refl. cbn [bind].
    destruct (low_addr =? 0) eqn:E; [apply Z.eqb_eq in E; lia|].
    eexists. split; [reflexivity|].
    cbn [gpu objects buffer_mappings with_buffer_mappings store_dma_map_addr
         with_gpu_call with_gpu].
    rewrite Nat.eqb_refl.
    split; [reflexivity|]. split; [reflexivity|]. split; [|reflexivity].
    intros r Hr. apply Nat.eqb_neq in Hr. rewrite Hr. reflexivity.
  - intros Hlow. rewrite Hlow. cbn [bind wrap32 Z.modulo Z.div_eucl Z.eqb snd].
    eexists. split; [reflexivity|].
    cbn [gpu objects buffer_mappings store_dma_map_addr with_gpu_call with_gpu].
    split; [reflexivity|]. split; [reflexivity|].
    intros r. destruct (Nat.eqb r object) eqn:E; [|reflexivity].
    apply Nat.eqb_eq in E. subst r. unfold o in Hz. rewrite <- Hz at 1.
    apply set_dma_map_addr_same.
  - intros Hbig.
    assert (Hne : (wrap32 low_addr =? low_addr) = false).
    { apply Z.eqb_neq. pose proof (wrap32_range low_addr). lia. }
    rewrite Hne. destruct assert_fatal; cbn [bind]; [reflexivity|].
    intros Hnz. apply Z.eqb_neq in Hnz. rewrite Hnz.
    eexists. split; [reflexivity|].
    cbn [objects with_buffer_mappings store_dma_map_addr with_gpu_call with_gpu].
    rewrite Nat.eqb_refl. reflexivity.
Qed.

(** What [MapBuffer_entry] leaves behind for an entry it could map. *)
Lemma MapBuffer_entry_registers (st st' : state) (cmf_buff cmf_buff' : MapBufferEntry)
  (object : nat) :
  GetObject (map_handle cmf_buff) = Some object ->
  MapBuffer_entry st cmf_buff = Ret (st', Some cmf_buff') ->
  dma_map_addr (objects st' object) <> 0 ->
  let o := objects st' object in
  map_handle cmf_buff' = map_handle cmf_buff
  /\ map_address cmf_buff' = dma_map_addr o
  /\ lookup (buffer_mappings st') (dma_map_addr o)
     = Some {| start_addr := dma_map_addr o; map_size := size o; cpu_addr := addr o;
               is_allocated := Status_eqb (status o) Allocated |}.
Proof.
  intros Hget H Hnz o. unfold MapBuffer_entry in H. rewrite Hget in H.
  bind_inv H.
  destruct (dma_map_addr (objects a object) =? 0) eqn:Ez.
  - injection H as <- <-. apply Z.eqb_eq in Ez. contradiction.
  - injection H as <- <-. unfold o.
    cbn [with_buffer_mappings objects buffer_mappings map_handle map_address].
    split; [reflexivity|]. split; [reflexivity|].
    unfold AddBufferMap. apply lookup_insert_same.
Qed.

(** X9: mapping, then looking up.  After map-buffer has processed an
    entry whose object ends up mapped, the entry reports the object's
    address, the map files under it a mapping with the object's size
    and CPU address, and [FindBufferMap] on any address of the range
    [[dma_map_addr, dma_map_addr + size)] returns a mapping whose range
    contains that address. *)
Theorem MapBuffer_entry_then_FindBufferMap (st st' : state)
  (cmf_buff cmf_buff' : MapBufferEntry) (object : nat) (gpu_addr : Z) :
  buffer_map_inv (buffer_mappings st) ->
  GetObject (map_handle cmf_buff) = Some object ->
  MapBuffer_entry st cmf_buff = Ret (st', Some cmf_buff') ->
  let o := objects st' object in
  dma_map_addr o <> 0 ->
  0 <= dma_map_addr o -> dma_map_addr o + size o < 2 ^ 64 ->
  dma_map_addr o <= gpu_addr < dma_map_addr o + size o ->
  map_address cmf_buff' = dma_map_addr o
  /\ lookup (buffer_mappings st') (dma_map_addr o)
     = Some {| start_addr := dma_map_addr o; map_size := size o; cpu_addr := addr o;
               is_allocated := Status_eqb (status o) Allocated |}
  /\ exists b,
       FindBufferMap (buffer_mappings st') gpu_addr = Ret (Some b)
       /\ StartAddr b <= gpu_addr < EndAddr b.
Proof.
  intros Hinv Hget H o Hnz Hpos Hfit Hrange.
  destruct (MapBuffer_entry_registers st st' cmf_buff cmf_buff' object Hget H Hnz)
    as (_ & Haddr & Hlook).
  fold o in Haddr, Hlook.
  split; [exact Haddr|]. split; [exact Hlook|].
  assert (Hinv' : buffer_map_inv (buffer_mappings st'))
    by (eapply MapBuffer_entry_inv; eassumption).
  destruct (FindBufferMap_found (buffer_mappings st') gpu_addr _ _ Hinv'
              (lookup_In _ _ _ Hlook)) as (b & Hf & _ & Hb).
  - unfold StartAddr, EndAddr, wrap64. cbn [start_addr map_size].
    rewrite Z.mod_small by lia. exact Hrange.
  - exists b. split; assumption.
Qed.

(** X10: unmap-buffer on an entry whose object's address is a key of
    the map forwards exactly one [Unmap] of that address, with the
    mapping's size if the mapping is allocated and with size 0 if it is
    not; the entry is erased from the map (other keys are not affected),
    the object's [dma_map_addr] becomes 0 and no other object changes. *)
Theorem UnmapBuffer_entry_mapped (st : state) (cmf_buff : MapBufferEntry) (object : nat)
  (b : BufferMap) :
  ascending (buffer_mappings st) ->
  GetObject (map_handle cmf_buff) = Some object ->
  let a := dma_map_addr (objects st object) in
  lookup (buffer_mappings st) a = Some b ->
  exists st',
    UnmapBuffer_entry st cmf_buff = Some st'
    /\ gpu st' = gpu st ++ [Unmap a (if IsAllocated b then Size b else 0)]
    /\ dma_map_addr (objects st' object) = 0
    /\ (forall r, r <> object -> objects st' r = objects st r)
    /\ lookup (buffer_mappings st') a = None
    /\ (forall k, k <> a -> lookup (buffer_mappings st') k = lookup (buffer_mappings st) k).
Proof.
  intros Hasc Hget a Hlook. unfold UnmapBuffer_entry. rewrite Hget.
  fold a. rewrite RemoveBufferMap_spec, Hlook.
  eexists. split; [reflexivity|].
  cbn [gpu objects buffer_mappings store_dma_map_addr with_gpu_call with_gpu
       with_buffer_mappings].
  rewrite Nat.eqb_refl.
  split; [reflexivity|]. split; [reflexivity|].
  split; [intros r Hr; apply Nat.eqb_neq in Hr; rewrite Hr; reflexivity|].
  split; [apply lookup_erase_same; exact Hasc|].
  intros k Hk. apply lookup_erase_other. exact Hk.
Qed.

(** X11: mapping an unmapped object and unmapping it again.  When the
    GPU hands out a non-zero 32-bit address [low_addr], map-buffer
    followed by unmap-buffer on the same entry makes two GPU calls, the
    allocation and an [Unmap] of [low_addr] (with the object's size if
    the object is [Allocated], with size 0 if not), and brings every
    object back to what it was; [low_addr] is not a key afterwards and
    every other key finds what it found at the start. *)
Theorem MapBuffer_entry_then_UnmapBuffer_entry (st : state) (cmf_buff : MapBufferEntry)
  (object : nat) :
  ascending (buffer_mappings st) ->
  GetObject (map_handle cmf_buff) = Some object ->
  dma_map_addr (objects st object) = 0 ->
  let o := objects st object in
  let low_addr := wrap64 (gpu_MapAllocate32 (gpu st) (addr o) (size o)) in
  0 < low_addr < 2 ^ 32 ->
  exists st1 cmf_buff1 st2,
    MapBuffer_entry st cmf_buff = Ret (st1, Some cmf_buff1)
    /\ map_address cmf_buff1 = low_addr
    /\ UnmapBuffer_entry st1 cmf_buff1 = Some st2
    /\ gpu st2 = gpu st ++ [MapAllocate32 (addr o) (size o) low_addr;
                            Unmap low_addr
                              (if Status_eqb (status o) Allocated then size o else 0)]
    /\ (forall r, objects st2 r = objects st r)
    /\ lookup (buffer_mappings st2) low_addr = None
    /\ (forall k, k <> low_addr ->
          lookup (buffer_mappings st2) k = lookup (buffer_mappings st) k).
Proof.
  intros Hasc Hget Hz o low_addr Hlow.
  pose proof (MapBuffer_entry_fresh st cmf_buff object Hget Hz) as Hmap.
  cbv zeta in Hmap. fold o in Hmap. fold low_addr in Hmap.
  unfold ASSERT in Hmap. rewrite wrap32_small in Hmap by lia.
  rewrite Z.eqb_refl in Hmap. cbn [bind] in Hmap.
  destruct (low_addr =? 0) eqn:E0; [apply Z.eqb_eq in E0; lia|].
  set (b := {| start_addr := low_addr; map_size := size o; cpu_addr := addr o;
               is_allocated := Status_eqb (status o) Allocated |}).
  set (m1 := insert_or_assign (buffer_mappings st) low_addr b).
  (* the state between the two turns, and the state after *)
  set (st1 := with_buffer_mappings
                (store_dma_map_addr
                   (with_gpu_call st (MapAllocate32 (addr o) (size o) low_addr))
                   object low_addr) m1).
  set (st2 := store_dma_map_addr
                (with_gpu_call (with_buffer_mappings st1 (erase m1 (map_find m1 low_addr)))
                   (Unmap low_addr (if Status_eqb (status o) Allocated then size o else 0)))
                object 0).
  exists st1, {| map_handle := map_handle cmf_buff; map_address := low_addr |}, st2.
  assert (Hobj1 : objects st1 object = set_dma_map_addr o low_addr).
  { unfold st1. cbn [with_buffer_mappings store_dma_map_addr with_gpu_call with_gpu objects].
    rewrite Nat.eqb_refl. reflexivity. }
  split; [exact Hmap|]. split; [reflexivity|].
  split.
  { unfold UnmapBuffer_entry. cbn [map_handle]. rewrite Hget, Hobj1.
    cbn [dma_map_addr set_dma_map_addr].
    rewrite RemoveBufferMap_spec.
    change (buffer_mappings st1) with m1. unfold m1 at 1.
    rewrite lookup_insert_same. reflexivity. }
  split.
  { unfold st2, st1.
    cbn [gpu store_dma_map_addr with_gpu_call with_gpu with_buffer_mappings].
    rewrite <- app_assoc. reflexivity. }
  split; [|split].
  - intros r. unfold st2, st1.
    cbn [objects store_dma_map_addr with_gpu_call with_gpu with_buffer_mappings].
    destruct (Nat.eqb r object) eqn:Er; [|reflexivity].
    apply Nat.eqb_eq in Er. subst r.
    (* the object itself: its address went from 0 to [low_addr] and back *)
    clear - Hz. unfold o. destruct (objects st object) as [oa os ot od].
    cbn in Hz. subst od. reflexivity.
  - change (buffer_mappings st2) with (erase m1 (map_find m1 low_addr)).
    apply lookup_erase_same. apply ascending_insert. exact Hasc.
  - intros k Hk.
    change (buffer_mappings st2) with (erase m1 (map_find m1 low_addr)).
    rewrite lookup_erase_other by exact Hk.
    apply lookup_insert_other; assumption.
Qed.

(** ** Submit: what the loop does to the session *)

Lemma WriteVectors_length (T : Type) `{Pod T} (dst dst' : list byte) (v : list T)
  (off off' : Z) :
  0 <= off -> WriteVectors dst v off = Ret (dst', off') ->
  length dst' = length dst /\ 0 <= off'.
Proof.
  intros Hoff E. unfold WriteVectors in E. bind_inv E. injection E as <- <-.
  split; [eapply length_write_bytes; eassumption | nia].
Qed.

(** A call of [Submit] that returns went through the loop once, over the
    descriptors decoded from the input, and returns the loop's state;
    when the loop returned a status, that status and the untouched
    output buffer are the result. *)
Lemma Submit_with_loop (find : Z -> outcome (option BufferMap)) (st st' : state)
  (input output output' : list byte) (status : Z) :
  Submit_with find st input output = Ret (status, output', st') ->
  exists params cmds off r,
    read_struct IoctlSubmit input = Ret params
    /\ SpliceVectors CommandBuffer input (cmd_buffer_count params)
         (Z.of_nat (sizeof IoctlSubmit)) = Ret (cmds, off)
    /\ Submit_loop find st cmds = Ret (st', r)
    /\ match r with
       | Some s => status = s /\ output' = output
       | None => status = 0 /\ length output' = length output
       end.
Proof.
  intros H. unfold Submit_with in H.
  bind_inv H. rename a into params. rename E into Hp.
  bind_inv H. destruct a as [cmds off]. rename E into Hs.
  do 5 (bind_inv H; match type of H with context [match ?x with _ => _ end] =>
                      destruct x end).
  bind_inv H.
  match type of H with context [match ?x with _ => _ end] => destruct x as [st1 r] end.
  match goal with
  | L : Submit_loop _ _ _ = Ret _ |- _ => rename L into HL
  end.
  exists params, cmds, off, r. split; [exact Hp|]. split; [exact Hs|].
  destruct r as [s|].
  - injection H as <- <- <-. split; [exact HL|]. split; reflexivity.
  - bind_inv H.
    match goal with
    | W : write_struct _ _ = Ret _ |- _ =>
        unfold write_struct in W; apply length_write_bytes in W; [|lia]
    end.
    do 5 (bind_inv H;
          match type of H with context [match ?x with _ => _ end] => destruct x end;
          match goal with
          | W : WriteVectors _ _ _ = Ret _ |- _ =>
              apply WriteVectors_length in W; [destruct W|lia]
          end).
    injection H as <- <- <-. split; [exact HL|]. split; [reflexivity|congruence].
Qed.

Lemma Submit_cmd_buffer_trace (find : Z -> outcome (option BufferMap))
  (st st' : state) (cmd_buffer : CommandBuffer) (r : option Z) :
  Submit_cmd_buffer find st cmd_buffer = Ret (st', r) ->
  (r = None \/ r = Some 0 \/ r = Some NvErrCodes.InvalidInput)
  /\ exists calls,
       gpu st' = gpu st ++ calls
       /\ forallb is_forwarding calls = true
       /\ (length calls <= 2)%nat.
Proof.
  unfold Submit_cmd_buffer. intros H.
  destruct (GetObject (memory_id cmd_buffer)) as [object|].
  - bind_inv H. destruct a as [b|]; injection H as <- <-.
    + split; [left; reflexivity|]. eexists. split; [reflexivity|].
      split; [reflexivity | cbn; lia].
    + split; [right; left; reflexivity|]. exists [].
      rewrite app_nil_r. split; [reflexivity|]. split; [reflexivity | cbn; lia].
  - bind_inv H. injection H as <- <-.
    split; [right; right; reflexivity|]. exists [].
    rewrite app_nil_r. split; [reflexivity|]. split; [reflexivity | cbn; lia].
Qed.

Lemma Submit_loop_trace (find : Z -> outcome (option BufferMap))
  (cmds : list CommandBuffer) :
  forall (st st' : state) (r : option Z),
  Submit_loop find st cmds = Ret (st', r) ->
  (r = None \/ r = Some 0 \/ r = Some NvErrCodes.InvalidInput)
  /\ exists calls,
       gpu st' = gpu st ++ calls
       /\ forallb is_forwarding calls = true
       /\ (length calls <= 2 * length cmds)%nat.
Proof.
  induction cmds as [|c cmds IH]; intros st st' r H; cbn [Submit_loop] in H.
  - injection H as <- <-. split; [left; reflexivity|]. exists [].
    rewrite app_nil_r. split; [reflexivity|]. split; [reflexivity | cbn; lia].
  - bind_inv H. destruct a as [st1 r1].
    destruct (Submit_cmd_buffer_trace _ _ _ _ _ E) as (Hr1 & calls1 & Hg1 & Hf1 & Hl1).
    destruct r1 as [s|].
    + injection H as <- <-. split; [exact Hr1|]. exists calls1.
      split; [exact Hg1|]. split; [exact Hf1 | cbn [length]; lia].
    + destruct (IH _ _ _ H) as (Hr & calls2 & Hg2 & Hf2 & Hl2).
      split; [exact Hr|]. exists (calls1 ++ calls2).
      split; [rewrite Hg2, Hg1, app_assoc; reflexivity|].
      split; [rewrite forallb_app, Hf1, Hf2; reflexivity|].
      rewrite length_app. cbn [length]. lia.
Qed.

(** X12: [Submit] only reads the session and only forwards.  A call
    that returns leaves the map and every object as they were; the GPU
    trace grows by block reads and pushed command lists only (never an
    allocation or an unmap), at most two calls per descriptor; the
    output buffer keeps its length; and the status is 0 or
    [InvalidInput], never [OutOfMemory]. *)
Theorem Submit_only_forwards (st st' : state) (input output output' : list byte)
  (status : Z) :
  Submit st input output = Ret (status, output', st') ->
  buffer_mappings st' = buffer_mappings st
  /\ objects st' = objects st
  /\ (status = 0 \/ status = NvErrCodes.InvalidInput)
  /\ status <> NvErrCodes.OutOfMemory
  /\ length output' = length output
  /\ exists calls,
       gpu st' = gpu st ++ calls
       /\ forallb is_forwarding calls = true
       /\ Z.of_nat (length calls) <= 2 * get_u32 input 0.
Proof.
  intros H. unfold Submit in H.
  destruct (Submit_with_mappings _ _ _ _ _ _ _ H) as [Hm Ho].
  destruct (Submit_with_loop _ _ _ _ _ _ _ H) as (params & cmds & off & r & Hp & Hs & HL & Hr).
  destruct (Submit_loop_trace _ _ _ _ _ HL) as (Hcases & calls & Hg & Hf & Hl).
  assert (Hstatus : status = 0 \/ status = NvErrCodes.InvalidInput).
  { destruct r as [s|]; [|left; apply Hr].
    destruct Hr as [-> _].
    destruct Hcases as [Hc|[Hc|Hc]]; [discriminate Hc| |]; injection Hc as ->;
      [left | right]; reflexivity. }
  split; [exact Hm|]. split; [exact Ho|]. split; [exact Hstatus|].
  split; [destruct Hstatus as [->| ->]; discriminate|].
  split; [destruct r; [destruct Hr as [_ ->]; reflexivity | apply Hr]|].
  exists calls. split; [exact Hg|]. split; [exact Hf|].
  destruct (read_struct_Ret IoctlSubmit input params Hp) as (Hlen & Hpar & _).
  assert (Hc : cmd_buffer_count params = get_u32 input 0).
  { subst params. cbn [of_bytes Pod_IoctlSubmit cmd_buffer_count sizeof].
    unfold get_u32, field. rewrite !skipn_O, firstn_firstn_le by lia. reflexivity. }
  pose proof (get_u32_range input 0) as R.
  assert (Hnn : 0 <= cmd_buffer_count params) by (rewrite Hc; lia).
  destruct (SpliceVectors_Ret CommandBuffer input _ _ cmds off (Nat2Z.is_nonneg _)
              Hnn Hs) as (_ & _ & Hlc & _).
  rewrite Hc in Hlc. lia.
Qed.

Lemma Submit_loop_unresolved (find : Z -> outcome (option BufferMap))
  (objs : nat -> Object) (t t' : list gpu_call) (pre : list CommandBuffer) :
  forwards find objs t pre t' ->
  forall (c : CommandBuffer) (post : list CommandBuffer) (st : state),
  GetObject (memory_id c) = None ->
  objects st = objs -> gpu st = t ->
  Submit_loop find st (pre ++ c :: post)
  = if assert_fatal then Fault AssertionFailed
    else Ret (with_gpu st t', Some NvErrCodes.InvalidInput).
Proof.
  induction 1 as [t|t t' c0 cs object0 map Hget0 Hfind0 Hrest IH];
    intros c post st Hget Hobjs Hgpu; cbn [Submit_loop app].
  - unfold Submit_cmd_buffer, ASSERT. rewrite Hget.
    destruct assert_fatal; cbn [bind]; [reflexivity|].
    subst t. destruct st. reflexivity.
  - unfold Submit_cmd_buffer at 1. rewrite Hget0, Hobjs, Hfind0. cbn [bind]. rewrite Hgpu.
    rewrite (IH c post (with_gpu st _) Hget Hobjs eq_refl).
    destruct assert_fatal; reflexivity.
Qed.

(** The loop depends on the input only through the descriptors. *)
Lemma Submit_with_returned_status (find : Z -> outcome (option BufferMap))
  (st st' : state) (input output : list byte)
  (params : IoctlSubmit) (cmds : list CommandBuffer) (off : Z) (status : Z) :
  read_struct IoctlSubmit input = Ret params ->
  SpliceVectors CommandBuffer input (cmd_buffer_count params)
    (Z.of_nat (sizeof IoctlSubmit)) = Ret (cmds, off) ->
  Submit_input_size params <= Z.of_nat (length input) ->
  (Submit_loop find st cmds = Ret (st', Some status) ->
   Submit_with find st input output = Ret (status, output, st'))
  /\ (forall f, Submit_loop find st cmds = Fault f ->
        Submit_with find st input output = Fault f).
Proof.
  intros Hp Hs Hin.
  pose proof (read_struct_Ret IoctlSubmit input params Hp) as (Hlen & Hpar & Himg).
  assert (C1 : 0 <= cmd_buffer_count params) by (subst params; apply get_u32_range).
  assert (C2 : 0 <= relocation_count params) by (subst params; apply get_u32_range).
  assert (C3 : 0 <= syncpoint_count params) by (subst params; apply get_u32_range).
  assert (C4 : 0 <= fence_count params) by (subst params; apply get_u32_range).
  clear Hpar. unfold Submit_input_size in Hin.
  destruct (SpliceVectors_Ret CommandBuffer input _ _ cmds off (Nat2Z.is_nonneg _) C1 Hs)
    as (-> & _ & _ & _).
  cbn [sizeof Pod_IoctlSubmit Pod_CommandBuffer] in *.
  unfold Submit_with. rewrite Hp. cbn [bind sizeof Pod_IoctlSubmit]. rewrite Hs. cbn [bind].
  unfold SpliceVectors.
  cbn [sizeof Pod_CommandBuffer Pod_u32 Pod_Reloc Pod_SyncptIncr Pod_Fence Pod_Blob].
  repeat (rewrite read_bytes_fits by nia; cbn [bind]).
  split.
  - intros HL. rewrite HL. reflexivity.
  - intros f HL. rewrite HL. reflexivity.
Qed.

(** X13: at the first descriptor whose handle does not resolve, [Submit]
    stops: the descriptors before it stay forwarded, those after it are
    not looked at, nothing is written to the output buffer, and the
    status is [InvalidInput]; when a failed [ASSERT] stops the program,
    the [ASSERT_OR_EXECUTE] on the object stops it instead. *)
Theorem Submit_unresolved_handle (st : state) (input output : list byte)
  (params : IoctlSubmit) (pre post : list CommandBuffer) (c : CommandBuffer)
  (off : Z) (t' : list gpu_call) :
  read_struct IoctlSubmit input = Ret params ->
  SpliceVectors CommandBuffer input (cmd_buffer_count params)
    (Z.of_nat (sizeof IoctlSubmit)) = Ret (pre ++ c :: post, off) ->
  Submit_input_size params <= Z.of_nat (length input) ->
  forwards (FindBufferMap (buffer_mappings st)) (objects st) (gpu st) pre t' ->
  GetObject (memory_id c) = None ->
  Submit st input output
  = if assert_fatal then Fault AssertionFailed
    else Ret (NvErrCodes.InvalidInput, output, with_gpu st t').
Proof.
  intros Hp Hs Hin Hfw Hget. unfold Submit.
  pose proof (Submit_loop_unresolved _ _ _ _ _ Hfw c post st Hget eq_refl eq_refl) as HL.
  destruct (Submit_with_returned_status (FindBufferMap (buffer_mappings st)) st
              (with_gpu st t') input output params (pre ++ c :: post) off
              NvErrCodes.InvalidInput Hp Hs Hin) as [Hret Hfault].
  destruct assert_fatal.
  - apply Hfault. exact HL.
  - apply Hret. exact HL.
Qed.

(** ** MapBuffer and UnmapBuffer: what a call does to the session *)

Lemma num_entries_read (input : list byte) (params : IoctlMapBuffer) :
  read_struct IoctlMapBuffer input = Ret params ->
  num_entries params = get_u32 input 0
  /\ length (to_bytes params) = sizeof IoctlMapBuffer.
Proof.
  intros Hp. destruct (read_struct_Ret IoctlMapBuffer input params Hp) as (Hlen & -> & Himg).
  split.
  - cbn [of_bytes MapBufferHeader Pod_IoctlMapBuffer num_entries sizeof] in *.
    unfold get_u32, field. rewrite !skipn_O, firstn_firstn_le by lia. reflexivity.
  - rewrite Himg, length_firstn. lia.
Qed.

Lemma length_write_struct_sized (output output' : list byte) (params : IoctlMapBuffer) :
  length (to_bytes params) = sizeof IoctlMapBuffer ->
  write_struct_sized output params = Ret output' ->
  length output' = length output.
Proof.
  unfold write_struct_sized. intros L H.
  set (image := to_bytes params) in *.
  destruct (Nat.leb_spec (length output) (sizeof IoctlMapBuffer)); [|discriminate H].
  injection H as <-. rewrite length_firstn. lia.
Qed.

Lemma MapBuffer_with_loop (st st' : state) (input output output' : list byte) (status : Z) :
  MapBuffer st input output = Ret (status, output', st') ->
  exists entries off r,
    SpliceVectors MapBufferEntry input (get_u32 input 0)
      (Z.of_nat (sizeof IoctlMapBuffer)) = Ret (entries, off)
    /\ MapBuffer_loop st entries = Ret (st', r)
    /\ status = match r with
                | Some _ => NvErrCodes.Success
                | None => NvErrCodes.InvalidInput
                end
    /\ length output' = length output.
Proof.
  intros H. unfold MapBuffer in H.
  bind_inv H. rename a into params. rename E into Hp.
  destruct (num_entries_read input params Hp) as [Hn Lp].
  bind_inv H. destruct a as [entries off]. rename E into Hs.
  bind_inv H. destruct a as [st1 r]. rename E into HL.
  rewrite Hn in Hs. exists entries, off, r. split; [exact Hs|].
  destruct r as [entries'|].
  - bind_inv H. bind_inv H. injection H as <- <- <-.
    unfold write_struct in E. apply length_write_bytes in E; [|lia].
    apply length_write_bytes in E0; [|lia].
    split; [exact HL|]. split; [reflexivity | congruence].
  - bind_inv H. injection H as <- <- <-.
    split; [exact HL|]. split; [reflexivity|].
    eapply length_write_struct_sized; eassumption.
Qed.

Lemma UnmapBuffer_with_loop (st st' : state) (input output output' : list byte)
  (status : Z) :
  UnmapBuffer st input output = Ret (status, output', st') ->
  exists entries off completed,
    SpliceVectors MapBufferEntry input (get_u32 input 0)
      (Z.of_nat (sizeof IoctlMapBuffer)) = Ret (entries, off)
    /\ UnmapBuffer_loop st entries = (st', completed)
    /\ (status = (if completed then NvErrCodes.Success else NvErrCodes.InvalidInput))
    /\ length output' = length output.
Proof.
  intros H. unfold UnmapBuffer in H.
  bind_inv H. rename a into params. rename E into Hp.
  destruct (num_entries_read input params Hp) as [Hn Lp].
  bind_inv H. destruct a as [entries off]. rename E into Hs.
  destruct (UnmapBuffer_loop st entries) as [st1 completed] eqn:HL.
  rewrite Hn in Hs. exists entries, off, completed. split; [exact Hs|].
  destruct completed.
  - injection H as <- <- <-. split; [exact HL|]. split; [reflexivity|].
    apply repeat_length.
  - bind_inv H. injection H as <- <- <-.
    split; [exact HL|]. split; [reflexivity|].
    eapply length_write_struct_sized; eassumption.
Qed.

Lemma dma_set_dma_map_addr (o : Object) (v : Z) :
  dma_map_addr (set_dma_map_addr o v) = v.
Proof. reflexivity. Qed.

Lemma set_dma_map_addr_twice (o : Object) (v w : Z) :
  set_dma_map_addr (set_dma_map_addr o v) w = set_dma_map_addr o w.
Proof. reflexivity. Qed.

Lemma touches_only_refl (kind : gpu_call -> bool) (st st' : state) :
  gpu st' = gpu st -> objects st' = objects st -> touches_only kind 0 st st'.
Proof.
  intros Hg Ho. split; [|split].
  - exists []. rewrite app_nil_r.
    split; [exact Hg|]. split; [reflexivity | cbn; lia].
  - intros r. rewrite Ho. symmetry. apply set_dma_map_addr_same.
  - intros r. left. rewrite Ho. reflexivity.
Qed.

Lemma touches_only_trans (kind : gpu_call -> bool) (n1 n2 : nat) (st1 st2 st3 : state) :
  touches_only kind n1 st1 st2 -> touches_only kind n2 st2 st3 ->
  touches_only kind (n1 + n2) st1 st3.
Proof.
  intros ((c1 & Hg1 & Hk1 & Hl1) & Hf1 & Hd1) ((c2 & Hg2 & Hk2 & Hl2) & Hf2 & Hd2).
  split; [|split].
  - exists (c1 ++ c2). split; [rewrite Hg2, Hg1, app_assoc; reflexivity|].
    split; [rewrite forallb_app, Hk1, Hk2; reflexivity | rewrite length_app; lia].
  - intros r. rewrite (Hf2 r) at 1. rewrite (Hf1 r). apply set_dma_map_addr_twice.
  - intros r. destruct (Hd2 r) as [E2|R2]; [|right; exact R2].
    rewrite E2. apply Hd1.
Qed.

Lemma touches_only_weaken (kind : gpu_call -> bool) (n n' : nat) (st st' : state) :
  (n <= n')%nat -> touches_only kind n st st' -> touches_only kind n' st st'.
Proof.
  intros Hn ((c & Hg & Hk & Hl) & Hf & Hd). split; [|split; assumption].
  exists c. repeat split; try assumption. lia.
Qed.

Lemma touches_only_store (kind : gpu_call -> bool) (st : state) (object : nat) (v : Z) :
  0 <= v < 2 ^ 32 -> touches_only kind 0 st (store_dma_map_addr st object v).
Proof.
  intros Hv. split; [|split].
  - exists []. rewrite app_nil_r.
    split; [reflexivity|]. split; [reflexivity | cbn; lia].
  - intros r. cbn [store_dma_map_addr objects].
    destruct (Nat.eqb r object); [reflexivity | symmetry; apply set_dma_map_addr_same].
  - intros r. cbn [store_dma_map_addr objects].
    destruct (Nat.eqb r object); [right; exact Hv | left; reflexivity].
Qed.

Lemma touches_only_call (kind : gpu_call -> bool) (st : state) (c : gpu_call) :
  kind c = true -> touches_only kind 1 st (with_gpu_call st c).
Proof.
  intros Hk. split; [|split].
  - exists [c]. split; [reflexivity|].
    split; [cbn; rewrite Hk; reflexivity | cbn; lia].
  - intros r. symmetry. apply set_dma_map_addr_same.
  - intros r. left. reflexivity.
Qed.

Lemma MapBuffer_entry_touches (st st' : state) (cmf_buff : MapBufferEntry)
  (r : option MapBufferEntry) :
  MapBuffer_entry st cmf_buff = Ret (st', r) ->
  touches_only is_MapAllocate32 1 st st'.
Proof.
  unfold MapBuffer_entry. intros H.
  destruct (GetObject (map_handle cmf_buff)) as [object|].
  - bind_inv H.
    assert (Ha : touches_only is_MapAllocate32 1 st a).
    { destruct (dma_map_addr (objects st object) =? 0).
      - bind_inv E. injection E as <-.
        eapply (touches_only_trans _ 1 0);
          [|apply touches_only_store; apply wrap32_range].
        apply touches_only_call. reflexivity.
      - injection E as <-.
        apply (touches_only_weaken _ 0); [lia|]. apply touches_only_refl; reflexivity. }
    destruct (dma_map_addr (objects a object) =? 0); injection H as <- <-; exact Ha.
  - injection H as <- <-.
    apply (touches_only_weaken _ 0); [lia|]. apply touches_only_refl; reflexivity.
Qed.

Lemma MapBuffer_loop_touches (entries : list MapBufferEntry) :
  forall (st st' : state) (r : option (list MapBufferEntry)),
  MapBuffer_loop st entries = Ret (st', r) ->
  touches_only is_MapAllocate32 (length entries) st st'.
Proof.
  induction entries as [|e entries IH]; intros st st' r H; cbn [MapBuffer_loop] in H.
  - injection H as <- <-. apply touches_only_refl; reflexivity.
  - bind_inv H. destruct a as [st1 [e'|]].
    + bind_inv H. destruct a as [st2 r2]. injection H as <- <-.
      apply (touches_only_trans _ 1 (length entries) st st1).
      * eapply MapBuffer_entry_touches; eassumption.
      * eapply IH; eassumption.
    + injection H as <- <-. apply (touches_only_weaken _ 1); [cbn; lia|].
      eapply MapBuffer_entry_touches; eassumption.
Qed.

Lemma UnmapBuffer_entry_touches (st st' : state) (cmf_buff : MapBufferEntry) :
  UnmapBuffer_entry st cmf_buff = Some st' ->
  touches_only is_Unmap 1 st st'
  /\ forall r, objects st' r = objects st r \/ dma_map_addr (objects st' r) = 0.
Proof.
  unfold UnmapBuffer_entry. intros H.
  destruct (GetObject (map_handle cmf_buff)) as [object|]; [|discriminate H].
  destruct (RemoveBufferMap (buffer_mappings st) (dma_map_addr (objects st object)))
    as [sz m].
  injection H as <-. split.
  - destruct sz as [sz|].
    + apply (touches_only_trans _ 1 0 st
               (with_gpu_call (with_buffer_mappings st m)
                  (Unmap (dma_map_addr (objects st object)) sz))).
      * apply (touches_only_call is_Unmap (with_buffer_mappings st m)). reflexivity.
      * apply touches_only_store. lia.
    + apply (touches_only_weaken _ 0); [lia|].
      apply (touches_only_store is_Unmap (with_buffer_mappings st m)). lia.
  - intros r. destruct sz; cbn [store_dma_map_addr objects with_gpu_call with_gpu
                                with_buffer_mappings];
      (destruct (Nat.eqb r object); [right; reflexivity | left; reflexivity]).
Qed.

Lemma UnmapBuffer_loop_touches (entries : list MapBufferEntry) :
  forall st : state,
  touches_only is_Unmap (length entries) st (fst (UnmapBuffer_loop st entries))
  /\ forall r, objects (fst (UnmapBuffer_loop st entries)) r = objects st r
               \/ dma_map_addr (objects (fst (UnmapBuffer_loop st entries)) r) = 0.
Proof.
  induction entries as [|e entries IH]; intros st; cbn [UnmapBuffer_loop].
  - split; [apply touches_only_refl; reflexivity | intros r; left; reflexivity].
  - destruct (UnmapBuffer_entry st e) as [st1|] eqn:E; cbn [fst].
    + destruct (UnmapBuffer_entry_touches _ _ _ E) as [Ht1 Hz1].
      destruct (IH st1) as [Ht Hz]. split.
      * apply (touches_only_trans _ 1 (length entries) st st1); assumption.
      * intros r. destruct (Hz r) as [Hr|Hr]; [|right; exact Hr].
        rewrite Hr. apply Hz1.
    + split; [|intros r; left; reflexivity].
      apply (touches_only_weaken _ 0); [lia|]. apply touches_only_refl; reflexivity.
Qed.

Lemma MapBuffer_entry_keeps_keys (st st' : state) (cmf_buff : MapBufferEntry)
  (r : option MapBufferEntry) :
  ascending (buffer_mappings st) ->
  MapBuffer_entry st cmf_buff = Ret (st', r) ->
  ascending (buffer_mappings st')
  /\ forall k, lookup (buffer_mappings st) k <> None ->
               lookup (buffer_mappings st') k <> None.
Proof.
  intros Hasc H. unfold MapBuffer_entry in H.
  destruct (GetObject (map_handle cmf_buff)) as [object|];
    [|injection H as <- <-; split; [exact Hasc | auto]].
  bind_inv H.
  assert (Hm : buffer_mappings a = buffer_mappings st).
  { destruct (dma_map_addr (objects st object) =? 0).
    - bind_inv E. injection E as <-. reflexivity.
    - injection E as <-. reflexivity. }
  destruct (dma_map_addr (objects a object) =? 0); injection H as <- <-.
  - rewrite Hm. split; [exact Hasc | auto].
  - cbn [with_buffer_mappings buffer_mappings]. rewrite Hm. unfold AddBufferMap.
    split; [apply ascending_insert; exact Hasc|].
    intros k Hk. destruct (Z.eq_dec k (dma_map_addr (objects a object))) as [->|Hne].
    + rewrite lookup_insert_same. discriminate.
    + rewrite lookup_insert_other by assumption. exact Hk.
Qed.

Lemma MapBuffer_loop_keeps_keys (entries : list MapBufferEntry) :
  forall (st st' : state) (r : option (list MapBufferEntry)),
  ascending (buffer_mappings st) ->
  MapBuffer_loop st entries = Ret (st', r) ->
  ascending (buffer_mappings st')
  /\ forall k, lookup (buffer_mappings st) k <> None ->
               lookup (buffer_mappings st') k <> None.
Proof.
  induction entries as [|e entries IH]; intros st st' r Hasc H; cbn [MapBuffer_loop] in H.
  - injection H as <- <-. split; [exact Hasc | auto].
  - bind_inv H. destruct a as [st1 [e'|]].
    + bind_inv H. destruct a as [st2 r2]. injection H as <- <-.
      destruct (MapBuffer_entry_keeps_keys _ _ _ _ Hasc E) as [Hasc1 Hk1].
      destruct (IH _ _ _ Hasc1 E0) as [Hasc2 Hk2].
      split; [exact Hasc2 | auto].
    + injection H as <- <-. eapply MapBuffer_entry_keeps_keys; eassumption.
Qed.

(** X14: what a map-buffer call that returns has done.  The status is 0
    or [InvalidInput], never [OutOfMemory]; the output buffer keeps its
    length; the GPU was only asked for allocations, at most one per
    entry; of an object nothing but [dma_map_addr] is ever changed, and
    if all device addresses were 32-bit values before they still are;
    and no mapping that was in the map has been removed. *)
Theorem MapBuffer_effects (st st' : state) (input output output' : list byte) (status : Z) :
  MapBuffer st input output = Ret (status, output', st') ->
  (status = 0 \/ status = NvErrCodes.InvalidInput)
  /\ status <> NvErrCodes.OutOfMemory
  /\ length output' = length output
  /\ (exists calls,
        gpu st' = gpu st ++ calls
        /\ forallb is_MapAllocate32 calls = true
        /\ Z.of_nat (length calls) <= get_u32 input 0)
  /\ (forall r, objects st' r
                = set_dma_map_addr (objects st r) (dma_map_addr (objects st' r)))
  /\ (dma_map_addr_32bit (objects st) -> dma_map_addr_32bit (objects st'))
  /\ (ascending (buffer_mappings st) ->
      forall k, lookup (buffer_mappings st) k <> None ->
                lookup (buffer_mappings st') k <> None).
Proof.
  intros H.
  destruct (MapBuffer_with_loop _ _ _ _ _ _ H) as (entries & off & r & Hs & HL & Hst & Hlen).
  destruct (MapBuffer_loop_touches _ _ _ _ HL) as ((calls & Hg & Hk & Hl) & Hf & Hd).
  pose proof (get_u32_range input 0) as R.
  destruct (SpliceVectors_Ret MapBufferEntry input _ _ entries off (Nat2Z.is_nonneg _)
              (proj1 R) Hs) as (_ & _ & Hle & _).
  assert (Hstatus : status = 0 \/ status = NvErrCodes.InvalidInput)
    by (rewrite Hst; destruct r; [left | right]; reflexivity).
  split; [exact Hstatus|].
  split; [destruct Hstatus as [->| ->]; discriminate|].
  split; [exact Hlen|].
  split; [exists calls; split; [exact Hg|]; split; [exact Hk | lia]|].
  split; [exact Hf|].
  split.
  - intros H32 object. destruct (Hd object) as [E|Hr]; [rewrite E; apply H32 | exact Hr].
  - intros Hasc. eapply MapBuffer_loop_keeps_keys; eassumption.
Qed.

Lemma UnmapBuffer_entry_shrinks (st st' : state) (cmf_buff : MapBufferEntry) :
  ascending (buffer_mappings st) ->
  UnmapBuffer_entry st cmf_buff = Some st' ->
  ascending (buffer_mappings st')
  /\ forall k, lookup (buffer_mappings st') k = None
               \/ lookup (buffer_mappings st') k = lookup (buffer_mappings st) k.
Proof.
  intros Hasc H. unfold UnmapBuffer_entry in H.
  destruct (GetObject (map_handle cmf_buff)) as [object|]; [|discriminate H].
  assert (Hrm : ascending (snd (RemoveBufferMap (buffer_mappings st)
                                  (dma_map_addr (objects st object))))
                /\ forall k,
                     lookup (snd (RemoveBufferMap (buffer_mappings st)
                                    (dma_map_addr (objects st object)))) k = None
                     \/ lookup (snd (RemoveBufferMap (buffer_mappings st)
                                       (dma_map_addr (objects st object)))) k
                        = lookup (buffer_mappings st) k).
  { rewrite RemoveBufferMap_spec.
    destruct (lookup (buffer_mappings st) (dma_map_addr (objects st object)));
      cbn [snd]; [|split; [exact Hasc | intros k; right; reflexivity]].
    split; [apply ascending_erase; exact Hasc|].
    intros k. destruct (Z.eq_dec k (dma_map_addr (objects st object))) as [->|Hne].
    - left. apply lookup_erase_same. exact Hasc.
    - right. apply lookup_erase_other. exact Hne. }
  destruct (RemoveBufferMap (buffer_mappings st) (dma_map_addr (objects st object)))
    as [sz m]. cbn [snd] in Hrm. destruct Hrm as [Hasc' Hkeys].
  injection H as <-.
  assert (Hm : buffer_mappings
                 (store_dma_map_addr
                    match sz with
                    | Some sz0 =>
                        with_gpu_call (with_buffer_mappings st m)
                          (Unmap (dma_map_addr (objects st object)) sz0)
                    | None => with_buffer_mappings st m
                    end object 0) = m) by (destruct sz; reflexivity).
  rewrite Hm. split; [exact Hasc' | exact Hkeys].
Qed.

Lemma UnmapBuffer_loop_shrinks (entries : list MapBufferEntry) :
  forall st : state,
  ascending (buffer_mappings st) ->
  ascending (buffer_mappings (fst (UnmapBuffer_loop st entries)))
  /\ forall k, lookup (buffer_mappings (fst (UnmapBuffer_loop st entries))) k = None
               \/ lookup (buffer_mappings (fst (UnmapBuffer_loop st entries))) k
                  = lookup (buffer_mappings st) k.
Proof.
  induction entries as [|e entries IH]; intros st Hasc; cbn [UnmapBuffer_loop].
  - split; [exact Hasc | intros k; right; reflexivity].
  - destruct (UnmapBuffer_entry st e) as [st1|] eqn:E; cbn [fst].
    + destruct (UnmapBuffer_entry_shrinks _ _ _ Hasc E) as [Hasc1 Hk1].
      destruct (IH st1 Hasc1) as [Hasc2 Hk2]. split; [exact Hasc2|].
      intros k. destruct (Hk2 k) as [Hn|He]; [left; exact Hn|].
      rewrite He. apply Hk1.
    + split; [exact Hasc | intros k; right; reflexivity].
Qed.

(** X15: what an unmap-buffer call that returns has done.  The status is
    0 or [InvalidInput], never [OutOfMemory]; the output buffer keeps
    its length; the GPU was only asked to unmap, at most once per entry;
    every object is as it was or has [dma_map_addr = 0], with nothing
    but that field changed; and the map has only lost entries: every
    key finds what it found before, or nothing. *)
Theorem UnmapBuffer_effects (st st' : state) (input output output' : list byte)
  (status : Z) :
  UnmapBuffer st input output = Ret (status, output', st') ->
  (status = 0 \/ status = NvErrCodes.InvalidInput)
  /\ status <> NvErrCodes.OutOfMemory
  /\ length output' = length output
  /\ (exists calls,
        gpu st' = gpu st ++ calls
        /\ forallb is_Unmap calls = true
        /\ Z.of_nat (length calls) <= get_u32 input 0)
  /\ (forall r, objects st' r = objects st r
                \/ objects st' r = set_dma_map_addr (objects st r) 0)
  /\ (dma_map_addr_32bit (objects st) -> dma_map_addr_32bit (objects st'))
  /\ (ascending (buffer_mappings st) ->
      forall k, lookup (buffer_mappings st') k = None
                \/ lookup (buffer_mappings st') k = lookup (buffer_mappings st) k).
Proof.
  intros H.
  destruct (UnmapBuffer_with_loop _ _ _ _ _ _ H)
    as (entries & off & completed & Hs & HL & Hst & Hlen).
  pose proof (UnmapBuffer_loop_touches entries st) as [((calls & Hg & Hk & Hl) & Hf & Hd) Hz].
  pose proof (UnmapBuffer_loop_shrinks entries st) as Hshrink.
  rewrite HL in *. cbn [fst] in *.
  pose proof (get_u32_range input 0) as R.
  destruct (SpliceVectors_Ret MapBufferEntry input _ _ entries off (Nat2Z.is_nonneg _)
              (proj1 R) Hs) as (_ & _ & Hle & _).
  assert (Hstatus : status = 0 \/ status = NvErrCodes.InvalidInput)
    by (rewrite Hst; destruct completed; [left | right]; reflexivity).
  split; [exact Hstatus|].
  split; [destruct Hstatus as [->| ->]; discriminate|].
  split; [exact Hlen|].
  split; [exists calls; split; [exact Hg|]; split; [exact Hk | lia]|].
  split.
  - intros r. destruct (Hz r) as [E|E]; [left; exact E|].
    right. rewrite (Hf r), E. reflexivity.
  - split.
    + intros H32 object. destruct (Hd object) as [E|Hr]; [rewrite E; apply H32 | exact Hr].
    + intros Hasc. apply Hshrink. exact Hasc.
Qed.

(** ** Buffers that are too short *)

(** X16: the outcome of GetSyncpoint and of GetWaitbase is decided by
    the two buffer lengths alone.  An input of fewer than 8 bytes makes
    the first copy read past the input; failing that, an output of fewer
    than 8 bytes makes the second copy write past the output; otherwise
    the status is 0 and the output starts with the input's [param]
    followed by a zero [value]. *)
Theorem GetSyncpoint_outcome (input output : list byte) :
  let outcome :=
    if (length input <? 8)%nat then Fault OutOfBoundsRead
    else if (length output <? 8)%nat then Fault OutOfBoundsWrite
         else Ret (0, firstn 4 input ++ put_u32 0 ++ skipn 8 output) in
  GetSyncpoint input output = outcome /\ GetWaitbase input output = outcome.
Proof.
  intros outcome.
  assert (HG : GetSyncpoint input output = outcome).
  { unfold outcome, GetSyncpoint.
    destruct (Nat.ltb_spec (length input) 8) as [Hi|Hi].
    - rewrite read_struct_short by exact Hi. reflexivity.
    - rewrite read_struct_fits by exact Hi. cbn [bind sizeof Pod_IoctlGetSyncpoint].
      unfold write_struct. rewrite (get_syncpoint_image input Hi). unfold write_bytes.
      rewrite length_app, length_firstn, length_put_u32, Nat.min_l by lia.
      destruct (Nat.ltb_spec (length output) 8) as [Ho|Ho].
      + destruct (0 + Z.of_nat (4 + 4) <=? Z.of_nat (length output)) eqn:E;
          [apply Z.leb_le in E; lia | reflexivity].
      + destruct (0 + Z.of_nat (4 + 4) <=? Z.of_nat (length output)) eqn:E;
          [|apply Z.leb_gt in E; lia].
        cbn [bind]. unfold NvErrCodes.Success.
        rewrite <- app_assoc. reflexivity. }
  split; [exact HG | exact HG].
Qed.

Lemma MapBuffer_loop_length (entries : list MapBufferEntry) :
  forall (st st' : state) (entries' : list MapBufferEntry),
  MapBuffer_loop st entries = Ret (st', Some entries') ->
  length entries' = length entries.
Proof.
  induction entries as [|e entries IH]; intros st st' entries' H; cbn [MapBuffer_loop] in H.
  - injection H as _ <-. reflexivity.
  - bind_inv H. destruct a as [st1 [e'|]]; [|discriminate H].
    bind_inv H. destruct a as [st2 [l|]]; [|discriminate H].
    injection H as _ <-. cbn [length]. f_equal. eapply IH. exact E0.
Qed.

(** X17: map-buffer and unmap-buffer check no length either.  An input
    shorter than the header, or than the header plus the entries it
    announces, makes decoding read past the input, before any handle is
    looked at.  And when map-buffer's loop has run to the end but the
    output buffer cannot hold the header and the entries, the write-back
    writes past the output. *)
Theorem MapBuffer_UnmapBuffer_short_buffers (st : state) (input output : list byte) :
  ((length input < sizeof IoctlMapBuffer)%nat
   \/ Z.of_nat (length input) < Z.of_nat (sizeof IoctlMapBuffer) + get_u32 input 0 * 8 ->
   MapBuffer st input output = Fault OutOfBoundsRead
   /\ UnmapBuffer st input output = Fault OutOfBoundsRead)
  /\ (forall params entries off st' entries',
        read_struct IoctlMapBuffer input = Ret params ->
        SpliceVectors MapBufferEntry input (num_entries params)
          (Z.of_nat (sizeof IoctlMapBuffer)) = Ret (entries, off) ->
        MapBuffer_loop st entries = Ret (st', Some entries') ->
        (length output < sizeof IoctlMapBuffer + 8 * length entries)%nat ->
        MapBuffer st input output = Fault OutOfBoundsWrite).
Proof.
  split.
  - intros H. unfold MapBuffer, UnmapBuffer.
    destruct (Nat.ltb_spec (length input) (sizeof IoctlMapBuffer)) as [Hs|Hl].
    + rewrite read_struct_short by exact Hs. split; reflexivity.
    + destruct H as [H|H]; [lia|].
      pose proof (read_struct_fits IoctlMapBuffer input Hl) as Hp.
      destruct (num_entries_read input _ Hp) as [Hn _].
      rewrite Hp. cbn [bind]. rewrite Hn. unfold SpliceVectors.
      rewrite read_bytes_short by (cbn [sizeof Pod_MapBufferEntry]; lia).
      split; reflexivity.
  - intros params entries off st' entries' Hp Hs HL Hshort.
    destruct (num_entries_read input params Hp) as [_ Lp].
    pose proof (MapBuffer_loop_length _ _ _ _ HL) as Hle.
    unfold MapBuffer. rewrite Hp. cbn [bind]. rewrite Hs. cbn [bind].
    rewrite HL. cbn [bind]. unfold write_struct.
    destruct (Nat.leb_spec (length (to_bytes params)) (length output)) as [Hfit|Hno].
    + rewrite write_bytes_front by exact Hfit. cbn [bind].
      unfold write_bytes.
      rewrite length_vector_bytes_entries, length_app, length_skipn, Hle.
      destruct (Z.of_nat (sizeof IoctlMapBuffer) + Z.of_nat (8 * length entries)
                <=? Z.of_nat (length (to_bytes params)
                              + (length output - length (to_bytes params)))) eqn:E;
        [apply Z.leb_le in E; lia | reflexivity].
    + unfold write_bytes.
      destruct (0 + Z.of_nat (length (to_bytes params)) <=? Z.of_nat (length output)) eqn:E;
        [apply Z.leb_le in E; lia | reflexivity].
Qed.

(** X18: at the first entry whose handle does not resolve, map-buffer
    and unmap-buffer stop with the status [InvalidInput]: the session is
    left as processing the entries before it left it, the entries after
    it are not looked at.  With an output buffer no longer than the
    header, the output receives the first [output.size()] bytes of the
    header as they came in. *)
Theorem MapBuffer_UnmapBuffer_stop_at_unresolved (st : state) (input output : list byte)
  (params : IoctlMapBuffer) (pre post : list MapBufferEntry) (e : MapBufferEntry)
  (off : Z) :
  read_struct IoctlMapBuffer input = Ret params ->
  SpliceVectors MapBufferEntry input (num_entries params)
    (Z.of_nat (sizeof IoctlMapBuffer)) = Ret (pre ++ e :: post, off) ->
  GetObject (map_handle e) = None ->
  (length output <= sizeof IoctlMapBuffer)%nat ->
  ((forall e', In e' pre -> GetObject (map_handle e') <> None) ->
   UnmapBuffer st input output
   = Ret (NvErrCodes.InvalidInput, firstn (length output) input,
          fst (UnmapBuffer_loop st pre)))
  /\ (forall st' pre',
        MapBuffer_loop st pre = Ret (st', Some pre') ->
        MapBuffer st input output
        = Ret (NvErrCodes.InvalidInput, firstn (length output) input, st')).
Proof.
  intros Hp Hs He Hout.
  destruct (read_struct_Ret IoctlMapBuffer input params Hp) as (_ & _ & Himg).
  assert (Hhdr : firstn (length output) (to_bytes params) = firstn (length output) input)
    by (rewrite Himg; apply firstn_firstn_le; exact Hout).
  apply Nat.leb_le in Hout.
  split.
  - intros Hpre.
    rewrite (UnmapBuffer_unresolved_handle st input output params pre post e off
               Hp Hs Hpre He).
    rewrite Hout, Hhdr. reflexivity.
  - intros st' pre' HL.
    rewrite (MapBuffer_unresolved_handle st st' input output params pre pre' post e off
               Hp Hs HL He).
    rewrite Hout, Hhdr. reflexivity.
Qed.

(** ** SetNVMAPfd and SetSubmitTimeout *)

(** X19: SetNVMAPfd stores the little-endian 32-bit value found in the
    first four bytes of the input as [nvmap_fd], ignores whatever
    follows them, returns 0 and touches nothing else of the session; an
    input of fewer than four bytes makes the copy read past it. *)
Theorem SetNVMAPfd_stores (s : session) (input : list byte) :
  ((length input < 4)%nat -> SetNVMAPfd s input = Fault OutOfBoundsRead)
  /\ ((4 <= length input)%nat ->
      SetNVMAPfd s input
      = Ret (0, {| device := device s; nvmap_fd := get_u32 input 0;
                   submit_timeout := submit_timeout s |}))
  /\ (forall fd rest,
        0 <= fd < 2 ^ 32 ->
        SetNVMAPfd s (put_u32 fd ++ rest)
        = Ret (0, {| device := device s; nvmap_fd := fd;
                     submit_timeout := submit_timeout s |})).
Proof.
  assert (Hfit : forall input, (4 <= length input)%nat ->
            SetNVMAPfd s input
            = Ret (0, {| device := device s; nvmap_fd := get_u32 input 0;
                         submit_timeout := submit_timeout s |})).
  { intros i Hi. unfold SetNVMAPfd.
    rewrite read_struct_fits by exact Hi.
    cbn [bind of_bytes Pod_IoctlSetNvmapFD params_nvmap_fd sizeof].
    unfold get_u32, field. rewrite !skipn_O, firstn_firstn_le by lia. reflexivity. }
  split; [|split].
  - intros Hi. unfold SetNVMAPfd. rewrite read_struct_short by exact Hi. reflexivity.
  - apply Hfit.
  - intros fd rest Hfd.
    rewrite Hfit by (rewrite length_app, length_put_u32; lia).
    unfold get_u32, field. rewrite skipn_O.
    rewrite firstn_app_exact by apply length_put_u32.
    unfold put_u32. rewrite le_combine_split.
    rewrite Z.mod_small by (cbn; lia). reflexivity.
Qed.

(** X20: SetSubmitTimeout copies as many bytes as the input has.  With
    an input no longer than the member, the member starts with the
    input's bytes and keeps its old bytes after them (so an empty input
    changes nothing and a full-size input replaces the value), the
    status is 0 and the output buffer and the rest of the session are
    untouched; doing it again with the same input changes nothing more.
    With an input longer than the member the copy writes past it. *)
Theorem SetSubmitTimeout_copies (s : session) (input output : list byte) :
  ((length input <= length (submit_timeout s))%nat ->
   let s' := {| device := device s; nvmap_fd := nvmap_fd s;
                submit_timeout := input ++ skipn (length input) (submit_timeout s) |} in
   SetSubmitTimeout s input output = Ret (0, output, s')
   /\ length (submit_timeout s') = length (submit_timeout s)
   /\ (length input = length (submit_timeout s) -> submit_timeout s' = input)
   /\ (input = [] -> submit_timeout s' = submit_timeout s)
   /\ SetSubmitTimeout s' input output = Ret (0, output, s'))
  /\ ((length (submit_timeout s) < length input)%nat ->
      SetSubmitTimeout s input output = Fault OutOfBoundsWrite).
Proof.
  split.
  - intros Hfit s'.
    assert (Hlen : length (submit_timeout s') = length (submit_timeout s))
      by (cbn [s' submit_timeout]; rewrite length_app, length_skipn; lia).
    split; [|split; [exact Hlen|split; [|split]]].
    + unfold SetSubmitTimeout. rewrite write_bytes_front by exact Hfit. reflexivity.
    + intros Hfull. cbn [s' submit_timeout].
      rewrite skipn_all2 by lia. apply app_nil_r.
    + intros ->. reflexivity.
    + unfold SetSubmitTimeout. rewrite write_bytes_front by lia. cbn [bind].
      cbn [s' submit_timeout device nvmap_fd].
      rewrite skipn_app_exact by reflexivity. reflexivity.
  - intros Hlong. unfold SetSubmitTimeout, write_bytes.
    destruct (0 + Z.of_nat (length input) <=? Z.of_nat (length (submit_timeout s))) eqn:E;
      [apply Z.leb_le in E; lia | reflexivity].
Qed.

(** ** Submit with an output buffer that is too short *)

Lemma WriteVectors_cases (T : Type) `{Pod T} (dst : list byte) (v : list T) (off : Z) :
  0 <= off ->
  WriteVectors dst v off = Fault OutOfBoundsWrite
  \/ exists dst',
       WriteVectors dst v off
       = Ret (dst', off + Z.of_nat (length v) * Z.of_nat (sizeof T))
       /\ length dst' = length dst
       /\ off + Z.of_nat (length (vector_bytes v)) <= Z.of_nat (length dst).
Proof.
  intros Hoff. unfold WriteVectors.
  destruct (write_bytes dst off (vector_bytes v)) as [dst'|f] eqn:E; cbn [bind].
  - right. exists dst'. split; [reflexivity|].
    split; [eapply length_write_bytes; eassumption|].
    unfold write_bytes in E.
    destruct (off + Z.of_nat (length (vector_bytes v)) <=? Z.of_nat (length dst)) eqn:B;
      [apply Z.leb_le in B; exact B | discriminate E].
  - left. unfold write_bytes in E.
    destruct (off + Z.of_nat (length (vector_bytes v)) <=? Z.of_nat (length dst));
      [discriminate E | injection E as <-; reflexivity].
Qed.

Lemma length_spliced (T : Type) `{PodOk T} (input : list byte) (count off : Z)
  (v : list T) (off' : Z) :
  SpliceVectors T input count off = Ret (v, off') ->
  0 <= off -> 0 <= count ->
  Z.of_nat (length v) = count
  /\ Z.of_nat (length (vector_bytes v)) = count * Z.of_nat (sizeof T)
  /\ off' = off + count * Z.of_nat (sizeof T).
Proof.
  intros Hs Hoff Hc.
  destruct (SpliceVectors_Ret T input count off v off' Hoff Hc Hs) as (-> & Hfit & Hl & Hv).
  split; [lia|]. split; [|reflexivity].
  rewrite Hv, length_firstn, length_skipn. nia.
Qed.

(** X21: [Submit] does not check the output buffer either.  When the
    input decodes and the loop over the descriptors has run to the end,
    an output buffer shorter than the header plus the first five vectors
    makes the write-back write past its end; by then the command lists
    have been pushed. *)
Theorem Submit_short_output (st st' : state) (input output : list byte)
  (params : IoctlSubmit) (cmds : list CommandBuffer) (off : Z) :
  read_struct IoctlSubmit input = Ret params ->
  SpliceVectors CommandBuffer input (cmd_buffer_count params)
    (Z.of_nat (sizeof IoctlSubmit)) = Ret (cmds, off) ->
  Submit_input_size params <= Z.of_nat (length input) ->
  Submit_loop (FindBufferMap (buffer_mappings st)) st cmds = Ret (st', None) ->
  Z.of_nat (length output) < Submit_output_size params ->
  Submit st input output = Fault OutOfBoundsWrite.
Proof.
  intros Hp Hs Hin HL Hout.
  pose proof (read_struct_Ret IoctlSubmit input params Hp) as (Hlen & Hpar & Himg).
  assert (C1 : 0 <= cmd_buffer_count params) by (subst params; apply get_u32_range).
  assert (C2 : 0 <= relocation_count params) by (subst params; apply get_u32_range).
  assert (C3 : 0 <= syncpoint_count params) by (subst params; apply get_u32_range).
  assert (C4 : 0 <= fence_count params) by (subst params; apply get_u32_range).
  clear Hpar. unfold Submit_input_size in Hin. unfold Submit_output_size in Hout.
  destruct (length_spliced CommandBuffer input _ _ cmds off Hs) as (Hn1 & Hb1 & ->);
    [apply Nat2Z.is_nonneg | exact C1 |].
  cbn [sizeof Pod_IoctlSubmit Pod_CommandBuffer] in *.
  destruct (@SpliceVectors_fits Blob Pod_Reloc _ input (relocation_count params)
              (Z.of_nat 16 + cmd_buffer_count params * Z.of_nat 12))
    as (v2 & E2 & _ & _); [nia | exact C2 | cbn [sizeof Pod_Reloc Pod_Blob]; nia |].
  destruct (length_spliced Blob (H := Pod_Reloc) input _ _ v2 _ E2) as (Hn2 & Hb2 & _);
    [nia | exact C2 |].
  destruct (SpliceVectors_fits Z input (relocation_count params)
              (Z.of_nat 16 + cmd_buffer_count params * Z.of_nat 12
               + relocation_count params * Z.of_nat (@sizeof Blob Pod_Reloc)))
    as (v3 & E3 & _ & _);
    [cbn [sizeof Pod_Reloc Pod_Blob]; nia | exact C2
     | cbn [sizeof Pod_Reloc Pod_Blob Pod_u32]; nia |].
  destruct (length_spliced Z input _ _ v3 _ E3) as (Hn3 & Hb3 & _);
    [cbn [sizeof Pod_Reloc Pod_Blob]; nia | exact C2 |].
  destruct (@SpliceVectors_fits Blob Pod_SyncptIncr _ input (syncpoint_count params)
              (Z.of_nat 16 + cmd_buffer_count params * Z.of_nat 12
               + relocation_count params * Z.of_nat (@sizeof Blob Pod_Reloc)
               + relocation_count params * Z.of_nat (sizeof Z)))
    as (v4 & E4 & _ & _);
    [cbn [sizeof Pod_Reloc Pod_Blob Pod_u32]; nia | exact C3
     | cbn [sizeof Pod_Reloc Pod_SyncptIncr Pod_Blob Pod_u32]; nia |].
  destruct (length_spliced Blob (H := Pod_SyncptIncr) input _ _ v4 _ E4) as (Hn4 & Hb4 & _);
    [cbn [sizeof Pod_Reloc Pod_Blob Pod_u32]; nia | exact C3 |].
  destruct (@SpliceVectors_fits Blob Pod_SyncptIncr _ input (syncpoint_count params)
              (Z.of_nat 16 + cmd_buffer_count params * Z.of_nat 12
               + relocation_count params * Z.of_nat (@sizeof Blob Pod_Reloc)
               + relocation_count params * Z.of_nat (sizeof Z)
               + syncpoint_count params * Z.of_nat (@sizeof Blob Pod_SyncptIncr)))
    as (v5 & E5 & _ & _);
    [cbn [sizeof Pod_Reloc Pod_SyncptIncr Pod_Blob Pod_u32]; nia | exact C3
     | cbn [sizeof Pod_Reloc Pod_SyncptIncr Pod_Blob Pod_u32]; nia |].
  destruct (length_spliced Blob (H := Pod_SyncptIncr) input _ _ v5 _ E5) as (Hn5 & Hb5 & _);
    [cbn [sizeof Pod_Reloc Pod_SyncptIncr Pod_Blob Pod_u32]; nia | exact C3 |].
  destruct (@SpliceVectors_fits Blob Pod_Fence _ input (fence_count params)
              (Z.of_nat 16 + cmd_buffer_count params * Z.of_nat 12
               + relocation_count params * Z.of_nat (@sizeof Blob Pod_Reloc)
               + relocation_count params * Z.of_nat (sizeof Z)
               + syncpoint_count params * Z.of_nat (@sizeof Blob Pod_SyncptIncr)
               + syncpoint_count params * Z.of_nat (@sizeof Blob Pod_SyncptIncr)))
    as (v6 & E6 & _ & _);
    [cbn [sizeof Pod_Reloc Pod_SyncptIncr Pod_Blob Pod_u32]; nia | exact C4
     | cbn [sizeof Pod_Reloc Pod_SyncptIncr Pod_Fence Pod_Blob Pod_u32]; nia |].
  cbn [sizeof Pod_Reloc Pod_SyncptIncr Pod_Fence Pod_Blob Pod_u32] in *.
  unfold Submit, Submit_with. rewrite Hp. cbn [bind sizeof Pod_IoctlSubmit].
  rewrite Hs. cbn [bind]. rewrite E2. cbn [bind]. rewrite E3. cbn [bind].
  rewrite E4. cbn [bind]. rewrite E5. cbn [bind]. rewrite E6. cbn [bind].
  rewrite HL. cbn [bind].
  (* the header, then the five vectors: each write faults or leaves the
     output at its length and moves the offset on *)
  unfold write_struct.
  destruct (write_bytes output 0 (to_bytes params)) as [out0|f] eqn:W0; cbn [bind].
  2:{ unfold write_bytes in W0.
      destruct (0 + Z.of_nat (length (to_bytes params)) <=? Z.of_nat (length output));
        [discriminate W0 | injection W0 as <-; reflexivity]. }
  assert (B0 : 16 <= Z.of_nat (length output)).
  { unfold write_bytes in W0.
    destruct (0 + Z.of_nat (length (to_bytes params)) <=? Z.of_nat (length output)) eqn:B;
      [|discriminate W0].
    apply Z.leb_le in B. rewrite Himg, length_firstn in B. lia. }
  apply length_write_bytes in W0; [|lia].
  destruct (WriteVectors_cases CommandBuffer out0 cmds (Z.of_nat 16)) as [F|(out1 & W1 & L1 & B1)];
    [lia | rewrite F; reflexivity |].
  rewrite W1. cbn [bind sizeof Pod_CommandBuffer]. rewrite Hn1.
  destruct (WriteVectors_cases Blob (H := Pod_Reloc) out1 v2
              (Z.of_nat 16 + cmd_buffer_count params * Z.of_nat 12)) as [F|(out2 & W2 & L2 & B2)];
    [nia | rewrite F; reflexivity |].
  rewrite W2. cbn [bind sizeof Pod_Reloc Pod_Blob]. rewrite Hn2.
  destruct (WriteVectors_cases Z out2 v3
              (Z.of_nat 16 + cmd_buffer_count params * Z.of_nat 12
               + relocation_count params * Z.of_nat sizeof_Reloc)) as [F|(out3 & W3 & L3 & B3)];
    [nia | rewrite F; reflexivity |].
  rewrite W3. cbn [bind sizeof Pod_u32]. rewrite Hn3.
  destruct (WriteVectors_cases Blob (H := Pod_SyncptIncr) out3 v4
              (Z.of_nat 16 + cmd_buffer_count params * Z.of_nat 12
               + relocation_count params * Z.of_nat sizeof_Reloc
               + relocation_count params * Z.of_nat 4)) as [F|(out4 & W4 & L4 & B4)];
    [nia | rewrite F; reflexivity |].
  rewrite W4. cbn [bind sizeof Pod_SyncptIncr Pod_Blob]. rewrite Hn4.
  destruct (WriteVectors_cases Blob (H := Pod_SyncptIncr) out4 v5
              (Z.of_nat 16 + cmd_buffer_count params * Z.of_nat 12
               + relocation_count params * Z.of_nat sizeof_Reloc
               + relocation_count params * Z.of_nat 4
               + syncpoint_count params * Z.of_nat sizeof_SyncptIncr)) as [F|(out5 & W5 & L5 & B5)];
    [nia | rewrite F; reflexivity |].
  (* all six writes fitted: the output is long enough after all *)
  exfalso. lia.
Qed.
End Device.

(** * Worked examples on the concrete session *)

Lemma demo_mappings_ascending : ascending demo_mappings.
Proof. cbn. split; [constructor | exact I]. Defined.

Lemma demo_mappings_inv : buffer_map_inv demo_mappings.
Proof.
  split; [exact demo_mappings_ascending|].
  repeat constructor.
Defined.

(** C7 at work: a mapping of 0x2000 bytes added at 0x40000 with
    [is_allocated = true], then removed. *)
Lemma AddBufferMap_then_RemoveBufferMap_witness :
  ascending demo_mappings
  /\ (let r := RemoveBufferMap
                 (AddBufferMap demo_mappings 0x40000 0x2000 0xB0000000 true) 0x40000 in
      fst r = Some (if true then 0x2000 else 0)
      /\ lookup (snd r) 0x40000 = None
      /\ forall k, k <> 0x40000 -> lookup (snd r) k = lookup demo_mappings k).
Proof.
  split; [exact demo_mappings_ascending|].
  exact (AddBufferMap_then_RemoveBufferMap demo_mappings 0x40000 0x2000 0xB0000000 true
           demo_mappings_ascending).
Defined.

(** C10 at work, on the map of the concrete session. *)
Lemma buffer_map_invariant_witness :
  buffer_map_inv demo_mappings
  /\ (NoDup (map fst demo_mappings)
      /\ forall entry, In entry demo_mappings ->
           fst entry = StartAddr (snd entry)
           /\ EndAddr (snd entry) = wrap64 (StartAddr (snd entry) + Size (snd entry)))
  /\ (forall gpu_addr sz cpu b, buffer_map_inv (AddBufferMap demo_mappings gpu_addr sz cpu b))
  /\ (forall gpu_addr, buffer_map_inv (snd (RemoveBufferMap demo_mappings gpu_addr)))
  /\ (forall st input output status output' st',
        buffer_mappings st = demo_mappings ->
        MapBuffer true demo_GetObject demo_MapAllocate32 0 st input output
        = Ret (status, output', st') ->
        buffer_map_inv (buffer_mappings st'))
  /\ (forall st input output status output' st',
        buffer_mappings st = demo_mappings ->
        UnmapBuffer demo_GetObject 0 st input output = Ret (status, output', st') ->
        buffer_map_inv (buffer_mappings st'))
  /\ (forall st input output status output' st',
        buffer_mappings st = demo_mappings ->
        Submit true demo_GetObject demo_ReadBlock 16 8 8 st input output
        = Ret (status, output', st') ->
        buffer_mappings st' = demo_mappings).
Proof.
  split; [exact demo_mappings_inv|].
  exact (buffer_map_invariant true demo_GetObject demo_MapAllocate32 demo_ReadBlock
           16 8 8 0 demo_mappings demo_mappings_inv).
Defined.

(** C5 at work: [param = 77], a stale [value = 5] in the input, and an
    output buffer of 12 bytes. *)
Lemma GetSyncpoint_GetWaitbase_value_zero_witness :
  (8 <= length (put_u32 77 ++ put_u32 5))%nat
  /\ (8 <= length (repeat Byte.xff 12))%nat
  /\ (let output' := firstn 4 (put_u32 77 ++ put_u32 5) ++ put_u32 0
                     ++ skipn 8 (repeat Byte.xff 12) in
      GetSyncpoint (put_u32 77 ++ put_u32 5) (repeat Byte.xff 12) = Ret (0, output')
      /\ GetWaitbase (put_u32 77 ++ put_u32 5) (repeat Byte.xff 12) = Ret (0, output')
      /\ param (of_bytes output') = param (of_bytes (put_u32 77 ++ put_u32 5))
      /\ value (of_bytes output') = 0).
Proof.
  assert (Hi : (8 <= length (put_u32 77 ++ put_u32 5))%nat) by (vm_compute; lia).
  assert (Ho : (8 <= length (repeat Byte.xff 12))%nat) by (vm_compute; lia).
  split; [exact Hi|]. split; [exact Ho|].
  exact (GetSyncpoint_GetWaitbase_value_zero _ _ Hi Ho).
Defined.

(** C9 at work: unmapping the handles 3 (mapped) and 4 (never mapped). *)
Lemma UnmapBuffer_all_resolved_witness :
  @read_struct IoctlMapBuffer (Pod_IoctlMapBuffer 0) (demo_map_input 0 [3; 4])
  = Ret (demo_map_params 2 0)
  /\ SpliceVectors MapBufferEntry (demo_map_input 0 [3; 4]) 2 4
     = Ret (map demo_entry [3; 4], 20)
  /\ (forall e, In e (map demo_entry [3; 4]) -> demo_GetObject (map_handle e) <> None)
  /\ exists st',
       UnmapBuffer demo_GetObject 0 demo_state (demo_map_input 0 [3; 4])
         (repeat Byte.xff 20)
       = Ret (0, repeat Byte.x00 (length (repeat Byte.xff 20)), st')
       /\ forall e object, In e (map demo_entry [3; 4]) ->
            demo_GetObject (map_handle e) = Some object ->
            dma_map_addr (objects st' object) = 0.
Proof.
  assert (Hp : @read_struct IoctlMapBuffer (Pod_IoctlMapBuffer 0) (demo_map_input 0 [3; 4])
               = Ret (demo_map_params 2 0)) by (vm_compute; reflexivity).
  assert (Hs : SpliceVectors MapBufferEntry (demo_map_input 0 [3; 4]) 2 4
               = Ret (map demo_entry [3; 4], 20)) by (vm_compute; reflexivity).
  assert (Hr : forall e, In e (map demo_entry [3; 4]) ->
                         demo_GetObject (map_handle e) <> None)
    by (intros e [<-|[<-|[]]]; discriminate).
  split; [exact Hp|]. split; [exact Hs|]. split; [exact Hr|].
  exact (UnmapBuffer_all_resolved demo_GetObject 0 demo_state (demo_map_input 0 [3; 4])
           (repeat Byte.xff 20) (demo_map_params 2 0) (map demo_entry [3; 4]) 20 Hp Hs Hr).
Defined.

(** C8 at work: unmapping the handle 4, whose object was never mapped. *)
Lemma UnmapBuffer_never_mapped_witness :
  @read_struct IoctlMapBuffer (Pod_IoctlMapBuffer 0) (demo_map_input 0 [4])
  = Ret (demo_map_params 1 0)
  /\ SpliceVectors MapBufferEntry (demo_map_input 0 [4]) 1 4
     = Ret (map demo_entry [4], 12)
  /\ (forall e, In e (map demo_entry [4]) ->
        exists object, demo_GetObject (map_handle e) = Some object
                       /\ dma_map_addr (objects demo_state object) = 0)
  /\ lookup (buffer_mappings demo_state) 0 = None
  /\ (forall st0 e object,
        demo_GetObject (map_handle e) = Some object ->
        dma_map_addr (objects st0 object) = 0 ->
        lookup (buffer_mappings st0) 0 = None ->
        exists st1, UnmapBuffer_entry demo_GetObject st0 e = Some st1
                    /\ gpu st1 = gpu st0
                    /\ buffer_mappings st1 = buffer_mappings st0
                    /\ forall r, objects st1 r = objects st0 r)
  /\ exists st',
       UnmapBuffer demo_GetObject 0 demo_state (demo_map_input 0 [4]) (repeat Byte.xff 12)
       = Ret (0, repeat Byte.x00 (length (repeat Byte.xff 12)), st')
       /\ gpu st' = gpu demo_state
       /\ buffer_mappings st' = buffer_mappings demo_state
       /\ forall object, objects st' object = objects demo_state object.
Proof.
  assert (Hp : @read_struct IoctlMapBuffer (Pod_IoctlMapBuffer 0) (demo_map_input 0 [4])
               = Ret (demo_map_params 1 0)) by (vm_compute; reflexivity).
  assert (Hs : SpliceVectors MapBufferEntry (demo_map_input 0 [4]) 1 4
               = Ret (map demo_entry [4], 12)) by (vm_compute; reflexivity).
  assert (Hz : forall e, In e (map demo_entry [4]) ->
                 exists object, demo_GetObject (map_handle e) = Some object
                                /\ dma_map_addr (objects demo_state object) = 0)
    by (intros e [<-|[]]; exists 1%nat; split; reflexivity).
  assert (Hn : lookup (buffer_mappings demo_state) 0 = None) by reflexivity.
  split; [exact Hp|]. split; [exact Hs|]. split; [exact Hz|]. split; [exact Hn|].
  exact (UnmapBuffer_never_mapped demo_GetObject 0 demo_state (demo_map_input 0 [4])
           (repeat Byte.xff 12) (demo_map_params 1 0) (map demo_entry [4]) 12
           Hp Hs Hz Hn).
Defined.

(** C6 at work: mapping the handle 3 again, whose object is already
    mapped at 0x10000. *)
Lemma MapBuffer_reuses_mapping_witness :
  @read_struct IoctlMapBuffer (Pod_IoctlMapBuffer 0) (demo_map_input 0 [3])
  = Ret (demo_map_params 1 0)
  /\ SpliceVectors MapBufferEntry (demo_map_input 0 [3]) 1 4
     = Ret (map demo_entry [3], 12)
  /\ (forall e, In e (map demo_entry [3]) ->
        exists object, demo_GetObject (map_handle e) = Some object
                       /\ dma_map_addr (objects demo_state object) <> 0)
  /\ (4 + 8 * length (map demo_entry [3%Z]) <= length (repeat Byte.xff 12))%nat
  /\ (forall st1 e object,
        demo_GetObject (map_handle e) = Some object ->
        dma_map_addr (objects st1 object) <> 0 ->
        exists m',
          MapBuffer_entry true demo_GetObject demo_MapAllocate32 st1 e
          = Ret (with_buffer_mappings st1 m', Some (reported demo_GetObject st1 e)))
  /\ (exists m',
        MapBuffer true demo_GetObject demo_MapAllocate32 0 demo_state
          (demo_map_input 0 [3]) (repeat Byte.xff 12)
        = Ret (0,
               (@to_bytes _ (Pod_IoctlMapBuffer 0) (demo_map_params 1 0)
                ++ vector_bytes (map (reported demo_GetObject demo_state)
                                   (map demo_entry [3])))
               ++ skipn (4 + 8 * length (map demo_entry [3])) (repeat Byte.xff 12),
               with_buffer_mappings demo_state m'))
  /\ (forall input2 output2 status output2' st' object,
        MapBuffer true demo_GetObject demo_MapAllocate32 0 demo_state input2 output2
        = Ret (status, output2', st') ->
        dma_map_addr (objects demo_state object) <> 0 ->
        objects st' object = objects demo_state object).
Proof.
  assert (Hp : @read_struct IoctlMapBuffer (Pod_IoctlMapBuffer 0) (demo_map_input 0 [3])
               = Ret (demo_map_params 1 0)) by (vm_compute; reflexivity).
  assert (Hs : SpliceVectors MapBufferEntry (demo_map_input 0 [3]) 1 4
               = Ret (map demo_entry [3], 12)) by (vm_compute; reflexivity).
  assert (Hz : forall e, In e (map demo_entry [3]) ->
                 exists object, demo_GetObject (map_handle e) = Some object
                                /\ dma_map_addr (objects demo_state object) <> 0)
    by (intros e [<-|[]]; exists 0%nat; split; [reflexivity | discriminate]).
  assert (Ho : (4 + 8 * length (map demo_entry [3%Z]) <= length (repeat Byte.xff 12))%nat)
    by (vm_compute; lia).
  split; [exact Hp|]. split; [exact Hs|]. split; [exact Hz|]. split; [exact Ho|].
  exact (MapBuffer_reuses_mapping true demo_GetObject demo_MapAllocate32 0 demo_state
           (demo_map_input 0 [3]) (repeat Byte.xff 12) (demo_map_params 1 0)
           (map demo_entry [3]) 12 Hp Hs Hz Ho).
Defined.

(** C1 at work: a header that announces one descriptor, and no
    descriptor after it. *)
Lemma Submit_short_input_witness :
  (let params : IoctlSubmit := of_bytes (firstn (sizeof IoctlSubmit) demo_submit_short) in
   (length demo_submit_short < sizeof IoctlSubmit)%nat
   \/ Z.of_nat (length demo_submit_short)
      < Z.of_nat (sizeof IoctlSubmit)
        + cmd_buffer_count params * Z.of_nat (sizeof CommandBuffer)
   \/ Z.of_nat (length demo_submit_short) < Submit_input_size 16 8 8 params)
  /\ Submit true demo_GetObject demo_ReadBlock 16 8 8 demo_state demo_submit_short
       (repeat Byte.xff 28)
     = Fault OutOfBoundsRead.
Proof.
  assert (H : let params : IoctlSubmit :=
                of_bytes (firstn (sizeof IoctlSubmit) demo_submit_short) in
              (length demo_submit_short < sizeof IoctlSubmit)%nat
              \/ Z.of_nat (length demo_submit_short)
                 < Z.of_nat (sizeof IoctlSubmit)
                   + cmd_buffer_count params * Z.of_nat (sizeof CommandBuffer)
              \/ Z.of_nat (length demo_submit_short) < Submit_input_size 16 8 8 params)
    by (right; left; vm_compute; reflexivity).
  split; [exact H|].
  exact (Submit_short_input true demo_GetObject demo_ReadBlock 16 8 8 demo_state
           demo_submit_short (repeat Byte.xff 28) H).
Defined.

(** The specification's sentence read literally (a short request is
    rejected with a failure status, before any read past the buffer)
    fails on that input: the
    handler returns no status at all, it reads past the end of the
    input. *)
Lemma Submit_short_input_not_rejected :
  Submit true demo_GetObject demo_ReadBlock 16 8 8 demo_state demo_submit_short
    (repeat Byte.xff 28)
  = Fault OutOfBoundsRead
  /\ ~ (exists status output' st',
          Submit true demo_GetObject demo_ReadBlock 16 8 8 demo_state demo_submit_short
            (repeat Byte.xff 28)
          = Ret (status, output', st')).
Proof.
  assert (E : Submit true demo_GetObject demo_ReadBlock 16 8 8 demo_state demo_submit_short
                (repeat Byte.xff 28)
              = Fault OutOfBoundsRead) by (vm_compute; reflexivity).
  split; [exact E|].
  intros (status & output' & st' & H). rewrite E in H. discriminate H.
Qed.

(** X22 at work: the full request of the session (one descriptor for the
    mapped object, one relocation, one syncpoint, one fence).  64 bytes
    are written back; the last 8 bytes of the output, where the fences
    would go, keep their content. *)
Lemma Submit_forwards_and_writes_back_witness :
  read_struct IoctlSubmit demo_submit_full = Ret demo_submit_params
  /\ SpliceVectors CommandBuffer demo_submit_full (cmd_buffer_count demo_submit_params)
       (Z.of_nat (sizeof IoctlSubmit))
     = Ret ([demo_cmd 3], 28)
  /\ Submit_input_size 16 8 8 demo_submit_params <= Z.of_nat (length demo_submit_full)
  /\ forwards demo_GetObject demo_ReadBlock
       (FindBufferMap true (buffer_mappings demo_state)) (objects demo_state)
       (gpu demo_state) [demo_cmd 3]
       [ReadBlock 0x10008 8; PushCommandBuffer [0x10008; 0x1000C]]
  /\ Submit_output_size 16 8 demo_submit_params <= Z.of_nat (length (repeat Byte.xff 72))
  /\ Submit true demo_GetObject demo_ReadBlock 16 8 8 demo_state demo_submit_full
       (repeat Byte.xff 72)
     = Ret (0, firstn 64 demo_submit_full ++ repeat Byte.xff 8,
            with_gpu demo_state
              [ReadBlock 0x10008 8; PushCommandBuffer [0x10008; 0x1000C]]).
Proof.
  assert (Hp : read_struct IoctlSubmit demo_submit_full = Ret demo_submit_params)
    by (vm_compute; reflexivity).
  assert (Hs : SpliceVectors CommandBuffer demo_submit_full
                 (cmd_buffer_count demo_submit_params) (Z.of_nat (sizeof IoctlSubmit))
               = Ret ([demo_cmd 3], 28)) by (vm_compute; reflexivity).
  assert (Hin : Submit_input_size 16 8 8 demo_submit_params
                <= Z.of_nat (length demo_submit_full)) by (vm_compute; discriminate).
  assert (Hfw : forwards demo_GetObject demo_ReadBlock
                  (FindBufferMap true (buffer_mappings demo_state)) (objects demo_state)
                  (gpu demo_state) [demo_cmd 3]
                  [ReadBlock 0x10008 8; PushCommandBuffer [0x10008; 0x1000C]]).
  { eapply forwards_cons; [reflexivity | vm_compute; reflexivity | apply forwards_nil]. }
  assert (Hout : Submit_output_size 16 8 demo_submit_params
                 <= Z.of_nat (length (repeat Byte.xff 72))) by (vm_compute; discriminate).
  split; [exact Hp|]. split; [exact Hs|]. split; [exact Hin|]. split; [exact Hfw|].
  split; [exact Hout|].
  exact (Submit_forwards_and_writes_back true demo_GetObject demo_ReadBlock 16 8 8
           demo_state demo_submit_full (repeat Byte.xff 72) demo_submit_params
           [demo_cmd 3] 28 _ Hp Hs Hin Hfw Hout).
Defined.

(** C3 on the code: a descriptor whose object has no mapping is not
    skipped.  [Submit] tests the lookup's result with [if (!map)], but
    [FindBufferMap] never reports absence, so no turn of the loop ever
    takes that branch, in any session.  What happens instead:
    - the handle 4 resolves to an object that was never mapped
      ([dma_map_addr = 0]); with the mapping of another object in the
      map, the lookup hands back that mapping and the other object's
      memory is forwarded as a command list;
    - the same request on an empty map fails the assertion in the
      lookup (or, where assertions do not stop the program,
      dereferences [end()]), and so does a request for the handle 5,
      whose object carries an address that no mapping covers; the
      descriptor behind it is not processed and nothing is written back.
    The rest of the claim holds: when the lookups succeed the status is
    0 and the output receives the header and the first five vectors,
    never the fences. *)
Theorem Submit_absent_mapping :
  (forall assert_fatal GetObject gpu_ReadBlock st st' cmd_buffer,
     Submit_cmd_buffer assert_fatal GetObject gpu_ReadBlock
       (FindBufferMap assert_fatal (buffer_mappings st)) st cmd_buffer
     <> Ret (st', Some 0))
  /\ dma_map_addr (objects demo_state 1%nat) = 0
  /\ lookup (buffer_mappings demo_state) 0 = None
  /\ Submit true demo_GetObject demo_ReadBlock 16 8 8 demo_state
       (demo_submit_cmds [4]) (repeat Byte.xff 28)
     = Ret (0, demo_submit_cmds [4],
            with_gpu demo_state
              [ReadBlock 0x10008 8; PushCommandBuffer [0x10008; 0x1000C]])
  /\ Submit true demo_GetObject demo_ReadBlock 16 8 8 (with_buffer_mappings demo_state [])
       (demo_submit_cmds [4; 3]) (repeat Byte.xff 40)
     = Fault AssertionFailed
  /\ Submit false demo_GetObject demo_ReadBlock 16 8 8 (with_buffer_mappings demo_state [])
       (demo_submit_cmds [4; 3]) (repeat Byte.xff 40)
     = Fault EndIteratorDeref
  /\ Submit true demo_GetObject demo_ReadBlock 16 8 8 demo_state
       (demo_submit_cmds [5; 3]) (repeat Byte.xff 40)
     = Fault AssertionFailed
  /\ Submit false demo_GetObject demo_ReadBlock 16 8 8 demo_state
       (demo_submit_cmds [5; 3]) (repeat Byte.xff 40)
     = Fault EndIteratorDeref
  /\ Submit true demo_GetObject demo_ReadBlock 16 8 8 demo_state demo_submit_full
       (repeat Byte.xff 72)
     = Ret (0, firstn 64 demo_submit_full ++ repeat Byte.xff 8,
            with_gpu demo_state
              [ReadBlock 0x10008 8; PushCommandBuffer [0x10008; 0x1000C]]).
Proof.
  split.
  - intros assert_fatal GetObject gpu_ReadBlock st st' cmd_buffer.
    apply Submit_cmd_buffer_never_not_found.
  - repeat split; vm_compute; reflexivity.
Qed.

(** C2 on the code: an address that no mapping covers is never reported
    as absent.  Looking up the exclusive end 0x11000 of the only mapping
    fails the assertion (or, where assertions do not stop the program,
    dereferences [end()]); with a second mapping further up, at 0x50000,
    the same lookup returns that mapping, whose range does not contain
    the address.  An address inside the mapping is found. *)
Theorem FindBufferMap_absent_address :
  FindBufferMap true demo_mappings 0x11000 = Fault AssertionFailed
  /\ FindBufferMap false demo_mappings 0x11000 = Fault EndIteratorDeref
  /\ FindBufferMap true (AddBufferMap demo_mappings 0x50000 0x1000 0xC0000000 true) 0x11000
     = Ret (Some {| start_addr := 0x50000; map_size := 0x1000; cpu_addr := 0xC0000000;
                    is_allocated := true |})
  /\ FindBufferMap true demo_mappings 0x10FFF
     = Ret (Some {| start_addr := 0x10000; map_size := 0x1000; cpu_addr := 0x80000000;
                    is_allocated := true |}).
Proof. repeat split; vm_compute; reflexivity. Qed.

(** C4 on the code: one entry whose handle (9) does not resolve, and an
    output buffer sized for the header and that entry.  Both handlers
    stop at the entry, but the write-back copies [output.size()] bytes
    out of the header struct and so reads past it; no status is
    returned.  This holds for a header of 4 bytes as for one of 12.  Only
    an output buffer no longer than the header gets the header and the
    status -22 (as [u32]). *)
Theorem MapBuffer_UnmapBuffer_unresolved_handle :
  MapBuffer true demo_GetObject demo_MapAllocate32 0 demo_state
    (demo_map_input 0 [9]) (repeat Byte.xff 12)
  = Fault OutOfBoundsRead
  /\ UnmapBuffer demo_GetObject 0 demo_state (demo_map_input 0 [9]) (repeat Byte.xff 12)
     = Fault OutOfBoundsRead
  /\ MapBuffer true demo_GetObject demo_MapAllocate32 8 demo_state
       (demo_map_input 8 [9]) (repeat Byte.xff 20)
     = Fault OutOfBoundsRead
  /\ UnmapBuffer demo_GetObject 8 demo_state (demo_map_input 8 [9]) (repeat Byte.xff 20)
     = Fault OutOfBoundsRead
  /\ MapBuffer true demo_GetObject demo_MapAllocate32 0 demo_state
       (demo_map_input 0 [9]) (repeat Byte.xff 4)
     = Ret (NvErrCodes.InvalidInput, put_u32 1, demo_state)
  /\ UnmapBuffer demo_GetObject 0 demo_state (demo_map_input 0 [9]) (repeat Byte.xff 4)
     = Ret (NvErrCodes.InvalidInput, put_u32 1, demo_state)
  /\ NvErrCodes.InvalidInput = wrap32 (-22).
Proof. repeat split; vm_compute; reflexivity. Qed.

(** * Worked examples for the marshalling helpers and the address map *)

(** X1 at work: the two entries behind a 4-byte header are read in full;
    a third entry is not there. *)
Lemma SpliceVectors_bounds_witness :
  (exists v,
     SpliceVectors MapBufferEntry (demo_map_input 0 [3; 4]) 2 4
     = Ret (v, 4 + 2 * Z.of_nat (sizeof MapBufferEntry))
     /\ length v = Z.to_nat 2
     /\ vector_bytes v
        = firstn (Z.to_nat (2 * Z.of_nat (sizeof MapBufferEntry)))
            (skipn (Z.to_nat 4) (demo_map_input 0 [3; 4])))
  /\ SpliceVectors MapBufferEntry (demo_map_input 0 [3; 4]) 3 4 = Fault OutOfBoundsRead.
Proof.
  split.
  - refine (proj1 (SpliceVectors_bounds MapBufferEntry (demo_map_input 0 [3; 4]) 2 4
                     _ _) _).
    + lia.
    + lia.
    + vm_compute; discriminate.
  - refine (proj2 (SpliceVectors_bounds MapBufferEntry (demo_map_input 0 [3; 4]) 3 4
                     _ _) _).
    + lia.
    + lia.
    + vm_compute; reflexivity.
Defined.

(** X2 at work: the two entries of a map request written into an output
    buffer of 24 bytes and read back from it. *)
Lemma SpliceVectors_WriteVectors_round_trip_witness :
  SpliceVectors MapBufferEntry (demo_map_input 0 [3; 4]) 2 4
  = Ret (map demo_entry [3; 4], 20)
  /\ 20 <= Z.of_nat (length (repeat Byte.xff 24))
  /\ (let output' :=
        firstn (Z.to_nat 4) (repeat Byte.xff 24)
        ++ firstn (Z.to_nat (20 - 4)) (skipn (Z.to_nat 4) (demo_map_input 0 [3; 4]))
        ++ skipn (Z.to_nat 20) (repeat Byte.xff 24) in
      WriteVectors (repeat Byte.xff 24) (map demo_entry [3; 4]) 4 = Ret (output', 20)
      /\ length output' = length (repeat Byte.xff 24)
      /\ SpliceVectors MapBufferEntry output' 2 4 = Ret (map demo_entry [3; 4], 20)).
Proof.
  assert (Hs : SpliceVectors MapBufferEntry (demo_map_input 0 [3; 4]) 2 4
               = Ret (map demo_entry [3; 4], 20)) by (vm_compute; reflexivity).
  assert (Ho : 20 <= Z.of_nat (length (repeat Byte.xff 24))) by (vm_compute; discriminate).
  split; [exact Hs|]. split; [exact Ho|].
  refine (SpliceVectors_WriteVectors_round_trip MapBufferEntry
            (demo_map_input 0 [3; 4]) (repeat Byte.xff 24) 2 4 20 (map demo_entry [3; 4])
            _ _ Hs Ho); lia.
Defined.

(** X3 at work: a second mapping added to the map of the session. *)
Lemma AddBufferMap_lookup_witness :
  ascending demo_mappings
  /\ (let m' := AddBufferMap demo_mappings 0x40000 0x2000 0xB0000000 true in
      lookup m' 0x40000
      = Some {| start_addr := 0x40000; map_size := 0x2000; cpu_addr := 0xB0000000;
                is_allocated := true |}
      /\ (forall k, k <> 0x40000 -> lookup m' k = lookup demo_mappings k)
      /\ ascending m'
      /\ length m' = 2%nat).
Proof.
  split; [exact demo_mappings_ascending|].
  exact (AddBufferMap_lookup demo_mappings 0x40000 0x2000 0xB0000000 true
           demo_mappings_ascending).
Defined.

(** X5 at work: removing the one mapping of the session, which is
    allocated and 0x1000 bytes long. *)
Lemma RemoveBufferMap_cases_witness :
  ascending demo_mappings
  /\ (let r := RemoveBufferMap demo_mappings 0x10000 in
      (fst r = Some 0x1000 /\ S (length (snd r)) = length demo_mappings)
      /\ lookup (snd r) 0x10000 = None
      /\ (forall k, k <> 0x10000 -> lookup (snd r) k = lookup demo_mappings k)
      /\ ascending (snd r)
      /\ RemoveBufferMap (snd r) 0x10000 = (None, snd r)).
Proof.
  split; [exact demo_mappings_ascending|].
  exact (RemoveBufferMap_cases demo_mappings 0x10000 demo_mappings_ascending).
Defined.

(** X6 at work: an address in the middle of the one mapping. *)
Lemma FindBufferMap_hit_witness :
  let b := {| start_addr := 0x10000; map_size := 0x1000; cpu_addr := 0x80000000;
              is_allocated := true |} in
  buffer_map_inv demo_mappings
  /\ In (0x10000, b) demo_mappings
  /\ StartAddr b <= 0x10800 < EndAddr b
  /\ exists b',
       FindBufferMap true demo_mappings 0x10800 = Ret (Some b')
       /\ In (StartAddr b', b') demo_mappings
       /\ StartAddr b' <= 0x10800 < EndAddr b'
       /\ ((forall k2 b2, In (k2, b2) demo_mappings ->
              StartAddr b2 <= 0x10800 < EndAddr b2 -> b2 = b) ->
           b' = b).
Proof.
  intros b.
  assert (Hin : In (0x10000, b) demo_mappings) by (left; reflexivity).
  assert (Hr : StartAddr b <= 0x10800 < EndAddr b)
    by (split; [vm_compute; discriminate | vm_compute; reflexivity]).
  split; [exact demo_mappings_inv|]. split; [exact Hin|]. split; [exact Hr|].
  exact (FindBufferMap_hit true demo_mappings 0x10800 0x10000 b demo_mappings_inv Hin Hr).
Defined.

(** X7 at work: the exclusive end 0x11000 of the one mapping.  With that
    mapping alone the lookup stops the program; with a second mapping at
    0x50000 it hands back that mapping. *)
Lemma FindBufferMap_miss_witness :
  let b2 := {| start_addr := 0x50000; map_size := 0x1000; cpu_addr := 0xC0000000;
               is_allocated := true |} in
  let m2 := AddBufferMap demo_mappings 0x50000 0x1000 0xC0000000 true in
  FindBufferMap true demo_mappings 0x11000 = Fault AssertionFailed
  /\ FindBufferMap false demo_mappings 0x11000 = Fault EndIteratorDeref
  /\ ~ (StartAddr b2 <= 0x11000 < EndAddr b2)
  /\ FindBufferMap true m2 0x11000 = Ret (Some b2).
Proof.
  intros b2 m2.
  assert (Hnone : forall k b, In (k, b) demo_mappings -> k <= 0x11000 ->
                    ~ (StartAddr b <= 0x11000 < EndAddr b)).
  { intros k b [E|[]] _ [_ H]. injection E as <- <-. vm_compute in H. discriminate H. }
  assert (Hall : forall k b, In (k, b) demo_mappings -> k <= 0x11000).
  { intros k b [E|[]]. injection E as <- <-. vm_compute; discriminate. }
  assert (Hasc2 : ascending m2)
    by (apply ascending_insert; exact demo_mappings_ascending).
  assert (Hnone2 : forall k b, In (k, b) m2 -> k <= 0x11000 ->
                     ~ (StartAddr b <= 0x11000 < EndAddr b)).
  { intros k b [E|[E|[]]] Hk [H1 H2]; injection E as <- <-.
    - vm_compute in H2. discriminate H2.
    - vm_compute in Hk. apply Hk. reflexivity. }
  split; [|split; [|split]].
  - exact (proj1 (FindBufferMap_miss true demo_mappings 0x11000
                    demo_mappings_ascending Hnone) Hall).
  - exact (proj1 (FindBufferMap_miss false demo_mappings 0x11000
                    demo_mappings_ascending Hnone) Hall).
  - intros [H _]. vm_compute in H. apply H. reflexivity.
  - refine (proj2 (FindBufferMap_miss true m2 0x11000 Hasc2 Hnone2) 0x50000 b2 _ _ _).
    + right; left; reflexivity.
    + vm_compute; reflexivity.
    + intros k' b' [E|[E|[]]] Hk; injection E as <- <-.
      * vm_compute in Hk. discriminate Hk.
      * vm_compute; discriminate.
Defined.

(** * Worked examples for the handlers *)

(** X8 at work: the handle 4, whose object has never been mapped; the
    allocator hands out 0x30000. *)
Lemma MapBuffer_entry_allocates_witness :
  demo_GetObject (map_handle (demo_entry 4)) = Some 1%nat
  /\ dma_map_addr (objects demo_state 1%nat) = 0
  /\ 0 < wrap64 (demo_MapAllocate32 [] 0x90000000 0x2000) < 2 ^ 32
  /\ exists st',
       MapBuffer_entry true demo_GetObject demo_MapAllocate32 demo_state (demo_entry 4)
       = Ret (st', Some {| map_handle := 4; map_address := 0x30000 |})
       /\ gpu st' = [MapAllocate32 0x90000000 0x2000 0x30000]
       /\ dma_map_addr (objects st' 1%nat) = 0x30000
       /\ buffer_mappings st'
          = AddBufferMap demo_mappings 0x30000 0x2000 0x90000000 false.
Proof.
  assert (Hr : 0 < wrap64 (demo_MapAllocate32 [] 0x90000000 0x2000) < 2 ^ 32)
    by (split; vm_compute; reflexivity).
  split; [reflexivity|]. split; [reflexivity|]. split; [exact Hr|].
  destruct (proj1 (MapBuffer_entry_allocates true demo_GetObject demo_MapAllocate32
                     demo_state (demo_entry 4) 1%nat eq_refl eq_refl) Hr)
    as (st' & E & G & O & _ & B).
  exists st'. split; [exact E|]. split; [exact G|]. split; [rewrite O; reflexivity|].
  exact B.
Defined.

(** X9 at work: after the handle 4 has been mapped at 0x30000, an
    address in the middle of its 0x2000 bytes is found. *)
Lemma MapBuffer_entry_then_FindBufferMap_witness :
  exists st' cmf_buff',
    MapBuffer_entry true demo_GetObject demo_MapAllocate32 demo_state (demo_entry 4)
    = Ret (st', Some cmf_buff')
    /\ dma_map_addr (objects st' 1%nat) = 0x30000
    /\ size (objects st' 1%nat) = 0x2000
    /\ map_address cmf_buff' = 0x30000
    /\ exists b,
         FindBufferMap true (buffer_mappings st') 0x31000 = Ret (Some b)
         /\ StartAddr b <= 0x31000 < EndAddr b.
Proof.
  destruct (MapBuffer_entry true demo_GetObject demo_MapAllocate32 demo_state (demo_entry 4))
    as [[st' [cmf_buff'|]]|f] eqn:E; try (vm_compute in E; discriminate E).
  assert (Hd : dma_map_addr (objects st' 1%nat) = 0x30000).
  { pose proof E as E'. vm_compute in E'. injection E' as <- _. reflexivity. }
  assert (Hz : size (objects st' 1%nat) = 0x2000).
  { pose proof E as E'. vm_compute in E'. injection E' as <- _. reflexivity. }
  exists st', cmf_buff'. split; [reflexivity|]. split; [exact Hd|]. split; [exact Hz|].
  destruct (MapBuffer_entry_then_FindBufferMap true demo_GetObject demo_MapAllocate32
              demo_state st' (demo_entry 4) cmf_buff' 1%nat 0x31000
              demo_mappings_inv eq_refl E)
    as (Ha & _ & Hb).
  - rewrite Hd. discriminate.
  - rewrite Hd. discriminate.
  - rewrite Hd, Hz. reflexivity.
  - rewrite Hd, Hz. split; [discriminate | reflexivity].
  - split; [rewrite Ha; exact Hd | exact Hb].
Defined.

(** X10 at work: unmapping the handle 3, whose object is mapped at
    0x10000 with an allocated mapping of 0x1000 bytes. *)
Lemma UnmapBuffer_entry_mapped_witness :
  let b := {| start_addr := 0x10000; map_size := 0x1000; cpu_addr := 0x80000000;
              is_allocated := true |} in
  ascending (buffer_mappings demo_state)
  /\ demo_GetObject (map_handle (demo_entry 3)) = Some 0%nat
  /\ lookup (buffer_mappings demo_state) (dma_map_addr (objects demo_state 0%nat)) = Some b
  /\ exists st',
       UnmapBuffer_entry demo_GetObject demo_state (demo_entry 3) = Some st'
       /\ gpu st' = [Unmap 0x10000 0x1000]
       /\ dma_map_addr (objects st' 0%nat) = 0
       /\ (forall r, r <> 0%nat -> objects st' r = objects demo_state r)
       /\ lookup (buffer_mappings st') 0x10000 = None
       /\ (forall k, k <> 0x10000 ->
             lookup (buffer_mappings st') k = lookup (buffer_mappings demo_state) k).
Proof.
  intros b.
  split; [exact demo_mappings_ascending|]. split; [reflexivity|]. split; [reflexivity|].
  exact (UnmapBuffer_entry_mapped demo_GetObject demo_state (demo_entry 3) 0%nat b
           demo_mappings_ascending eq_refl eq_refl).
Defined.

(** X11 at work: the handle 4 mapped and unmapped again. *)
Lemma MapBuffer_entry_then_UnmapBuffer_entry_witness :
  ascending (buffer_mappings demo_state)
  /\ demo_GetObject (map_handle (demo_entry 4)) = Some 1%nat
  /\ dma_map_addr (objects demo_state 1%nat) = 0
  /\ 0 < wrap64 (demo_MapAllocate32 [] 0x90000000 0x2000) < 2 ^ 32
  /\ exists st1 cmf_buff1 st2,
       MapBuffer_entry true demo_GetObject demo_MapAllocate32 demo_state (demo_entry 4)
       = Ret (st1, Some cmf_buff1)
       /\ map_address cmf_buff1 = 0x30000
       /\ UnmapBuffer_entry demo_GetObject st1 cmf_buff1 = Some st2
       /\ gpu st2 = [MapAllocate32 0x90000000 0x2000 0x30000; Unmap 0x30000 0]
       /\ (forall r, objects st2 r = objects demo_state r)
       /\ lookup (buffer_mappings st2) 0x30000 = None
       /\ (forall k, k <> 0x30000 ->
             lookup (buffer_mappings st2) k = lookup (buffer_mappings demo_state) k).
Proof.
  assert (Hr : 0 < wrap64 (demo_MapAllocate32 [] 0x90000000 0x2000) < 2 ^ 32)
    by (split; vm_compute; reflexivity).
  split; [exact demo_mappings_ascending|]. split; [reflexivity|]. split; [reflexivity|].
  split; [exact Hr|].
  exact (MapBuffer_entry_then_UnmapBuffer_entry true demo_GetObject demo_MapAllocate32
           demo_state (demo_entry 4) 1%nat demo_mappings_ascending eq_refl eq_refl Hr).
Defined.

(** X12 at work: the full request of the session (one descriptor for the
    mapped object). *)
Lemma Submit_only_forwards_witness :
  let st' := with_gpu demo_state
               [ReadBlock 0x10008 8; PushCommandBuffer [0x10008; 0x1000C]] in
  let output' := firstn 64 demo_submit_full ++ repeat Byte.xff 8 in
  Submit true demo_GetObject demo_ReadBlock 16 8 8 demo_state demo_submit_full
    (repeat Byte.xff 72)
  = Ret (0, output', st')
  /\ buffer_mappings st' = buffer_mappings demo_state
  /\ objects st' = objects demo_state
  /\ (0 = 0 \/ 0 = NvErrCodes.InvalidInput)
  /\ 0 <> NvErrCodes.OutOfMemory
  /\ length output' = length (repeat Byte.xff 72)
  /\ exists calls,
       gpu st' = gpu demo_state ++ calls
       /\ forallb is_forwarding calls = true
       /\ Z.of_nat (length calls) <= 2 * get_u32 demo_submit_full 0.
Proof.
  intros st' output'.
  assert (E : Submit true demo_GetObject demo_ReadBlock 16 8 8 demo_state demo_submit_full
                (repeat Byte.xff 72)
              = Ret (0, output', st')) by (vm_compute; reflexivity).
  split; [exact E|].
  exact (Submit_only_forwards true demo_GetObject demo_ReadBlock 16 8 8 demo_state st'
           demo_submit_full (repeat Byte.xff 72) output' 0 E).
Defined.

(** X13 at work: two descriptors, the first for the mapped object, the
    second with the handle 9, which does not resolve; assertions do not
    stop the program. *)
Lemma Submit_unresolved_handle_witness :
  let params := {| cmd_buffer_count := 2; relocation_count := 0; syncpoint_count := 0;
                   fence_count := 0 |} in
  let t' := [ReadBlock 0x10008 8; PushCommandBuffer [0x10008; 0x1000C]] in
  read_struct IoctlSubmit (demo_submit_cmds [3; 9]) = Ret params
  /\ SpliceVectors CommandBuffer (demo_submit_cmds [3; 9]) (cmd_buffer_count params)
       (Z.of_nat (sizeof IoctlSubmit))
     = Ret ([demo_cmd 3] ++ demo_cmd 9 :: [], 40)
  /\ Submit_input_size 16 8 8 params <= Z.of_nat (length (demo_submit_cmds [3; 9]))
  /\ forwards demo_GetObject demo_ReadBlock
       (FindBufferMap false (buffer_mappings demo_state)) (objects demo_state)
       (gpu demo_state) [demo_cmd 3] t'
  /\ demo_GetObject (memory_id (demo_cmd 9)) = None
  /\ Submit false demo_GetObject demo_ReadBlock 16 8 8 demo_state
       (demo_submit_cmds [3; 9]) (repeat Byte.xff 40)
     = Ret (NvErrCodes.InvalidInput, repeat Byte.xff 40, with_gpu demo_state t')
  /\ Submit true demo_GetObject demo_ReadBlock 16 8 8 demo_state
       (demo_submit_cmds [3; 9]) (repeat Byte.xff 40)
     = Fault AssertionFailed.
Proof.
  intros params t'.
  assert (Hp : read_struct IoctlSubmit (demo_submit_cmds [3; 9]) = Ret params)
    by (vm_compute; reflexivity).
  assert (Hs : SpliceVectors CommandBuffer (demo_submit_cmds [3; 9])
                 (cmd_buffer_count params) (Z.of_nat (sizeof IoctlSubmit))
               = Ret ([demo_cmd 3] ++ demo_cmd 9 :: [], 40)) by (vm_compute; reflexivity).
  assert (Hin : Submit_input_size 16 8 8 params
                <= Z.of_nat (length (demo_submit_cmds [3; 9])))
    by (vm_compute; discriminate).
  assert (Hf : forall fatal,
             forwards demo_GetObject demo_ReadBlock
               (FindBufferMap fatal (buffer_mappings demo_state)) (objects demo_state)
               (gpu demo_state) [demo_cmd 3] t').
  { intros fatal.
    eapply forwards_cons;
      [reflexivity | destruct fatal; vm_compute; reflexivity | apply forwards_nil]. }
  split; [exact Hp|]. split; [exact Hs|]. split; [exact Hin|]. split; [exact (Hf false)|].
  split; [reflexivity|]. split.
  - exact (Submit_unresolved_handle false demo_GetObject demo_ReadBlock 16 8 8 demo_state
             (demo_submit_cmds [3; 9]) (repeat Byte.xff 40) params [demo_cmd 3] []
             (demo_cmd 9) 40 t' Hp Hs Hin (Hf false) eq_refl).
  - exact (Submit_unresolved_handle true demo_GetObject demo_ReadBlock 16 8 8 demo_state
             (demo_submit_cmds [3; 9]) (repeat Byte.xff 40) params [demo_cmd 3] []
             (demo_cmd 9) 40 t' Hp Hs Hin (Hf true) eq_refl).
Defined.

(** X14 at work: a map request for the handles 4 (never mapped) and 3
    (mapped already). *)
Lemma MapBuffer_effects_witness :
  exists status output' st',
    MapBuffer true demo_GetObject demo_MapAllocate32 0 demo_state
      (demo_map_input 0 [4; 3]) (repeat Byte.xff 20)
    = Ret (status, output', st')
    /\ status = 0
    /\ length output' = 20%nat
    /\ (exists calls,
          gpu st' = gpu demo_state ++ calls
          /\ forallb is_MapAllocate32 calls = true
          /\ Z.of_nat (length calls) <= get_u32 (demo_map_input 0 [4; 3]) 0)
    /\ (forall r, objects st' r
                  = set_dma_map_addr (objects demo_state r) (dma_map_addr (objects st' r)))
    /\ dma_map_addr_32bit (objects st')
    /\ lookup (buffer_mappings st') 0x10000 <> None.
Proof.
  destruct (MapBuffer true demo_GetObject demo_MapAllocate32 0 demo_state
              (demo_map_input 0 [4; 3]) (repeat Byte.xff 20))
    as [[[status output'] st']|f] eqn:E; [|vm_compute in E; discriminate E].
  assert (Hst : status = 0)
    by (pose proof E as E'; vm_compute in E'; injection E' as <- _ _; reflexivity).
  assert (H32 : dma_map_addr_32bit (objects demo_state)).
  { intros [|[|r]]; split; vm_compute; try discriminate; reflexivity. }
  destruct (MapBuffer_effects true demo_GetObject demo_MapAllocate32 0 demo_state st'
              (demo_map_input 0 [4; 3]) (repeat Byte.xff 20) output' status E)
    as (_ & _ & Hl & Hc & Ho & Hd & Hk).
  exists status, output', st'.
  split; [reflexivity|]. split; [exact Hst|]. split; [exact Hl|]. split; [exact Hc|].
  split; [exact Ho|]. split; [exact (Hd H32)|].
  apply (Hk demo_mappings_ascending). discriminate.
Defined.

(** X15 at work: an unmap request for the handles 3 (mapped) and 4
    (never mapped). *)
Lemma UnmapBuffer_effects_witness :
  exists status output' st',
    UnmapBuffer demo_GetObject 0 demo_state (demo_map_input 0 [3; 4]) (repeat Byte.xff 20)
    = Ret (status, output', st')
    /\ status = 0
    /\ length output' = 20%nat
    /\ (exists calls,
          gpu st' = gpu demo_state ++ calls
          /\ forallb is_Unmap calls = true
          /\ Z.of_nat (length calls) <= get_u32 (demo_map_input 0 [3; 4]) 0)
    /\ (forall r, objects st' r = objects demo_state r
                  \/ objects st' r = set_dma_map_addr (objects demo_state r) 0)
    /\ dma_map_addr_32bit (objects st')
    /\ (forall k, lookup (buffer_mappings st') k = None
                  \/ lookup (buffer_mappings st') k = lookup (buffer_mappings demo_state) k).
Proof.
  destruct (UnmapBuffer demo_GetObject 0 demo_state (demo_map_input 0 [3; 4])
              (repeat Byte.xff 20))
    as [[[status output'] st']|f] eqn:E; [|vm_compute in E; discriminate E].
  assert (Hst : status = 0)
    by (pose proof E as E'; vm_compute in E'; injection E' as <- _ _; reflexivity).
  assert (H32 : dma_map_addr_32bit (objects demo_state)).
  { intros [|[|r]]; split; vm_compute; try discriminate; reflexivity. }
  destruct (UnmapBuffer_effects demo_GetObject 0 demo_state st'
              (demo_map_input 0 [3; 4]) (repeat Byte.xff 20) output' status E)
    as (_ & _ & Hl & Hc & Ho & Hd & Hk).
  exists status, output', st'.
  split; [reflexivity|]. split; [exact Hst|]. split; [exact Hl|]. split; [exact Hc|].
  split; [exact Ho|]. split; [exact (Hd H32)|].
  exact (Hk demo_mappings_ascending).
Defined.

(** X17 at work: a request that announces one entry and carries half of
    it; and a complete request for the handle 3 with an output buffer of
    8 bytes, where 12 are written. *)
Lemma MapBuffer_UnmapBuffer_short_buffers_witness :
  (MapBuffer true demo_GetObject demo_MapAllocate32 0 demo_state
     (firstn 8 (demo_map_input 0 [3])) (repeat Byte.xff 12)
   = Fault OutOfBoundsRead
   /\ UnmapBuffer demo_GetObject 0 demo_state
        (firstn 8 (demo_map_input 0 [3])) (repeat Byte.xff 12)
      = Fault OutOfBoundsRead)
  /\ MapBuffer true demo_GetObject demo_MapAllocate32 0 demo_state
       (demo_map_input 0 [3]) (repeat Byte.xff 8)
     = Fault OutOfBoundsWrite.
Proof.
  split.
  - refine (proj1 (MapBuffer_UnmapBuffer_short_buffers true demo_GetObject
                     demo_MapAllocate32 0 demo_state (firstn 8 (demo_map_input 0 [3]))
                     (repeat Byte.xff 12)) _).
    right. vm_compute. reflexivity.
  - destruct (MapBuffer_loop true demo_GetObject demo_MapAllocate32 demo_state
                (map demo_entry [3]))
      as [[st' [entries'|]]|f] eqn:EL; try (vm_compute in EL; discriminate EL).
    refine (proj2 (MapBuffer_UnmapBuffer_short_buffers true demo_GetObject
                     demo_MapAllocate32 0 demo_state (demo_map_input 0 [3])
                     (repeat Byte.xff 8))
              (demo_map_params 1 0) (map demo_entry [3]) 12 st' entries' _ _ EL _).
    + vm_compute; reflexivity.
    + vm_compute; reflexivity.
    + vm_compute; lia.
Defined.

(** X18 at work: the handle 3 resolves, the handle 9 does not, and the
    output buffer is as long as the header. *)
Lemma MapBuffer_UnmapBuffer_stop_at_unresolved_witness :
  @read_struct IoctlMapBuffer (Pod_IoctlMapBuffer 0) (demo_map_input 0 [3; 9])
  = Ret (demo_map_params 2 0)
  /\ SpliceVectors MapBufferEntry (demo_map_input 0 [3; 9]) 2 4
     = Ret ([demo_entry 3] ++ demo_entry 9 :: [], 20)
  /\ demo_GetObject (map_handle (demo_entry 9)) = None
  /\ (length (repeat Byte.xff 4) <= 4)%nat
  /\ UnmapBuffer demo_GetObject 0 demo_state (demo_map_input 0 [3; 9]) (repeat Byte.xff 4)
     = Ret (NvErrCodes.InvalidInput, firstn 4 (demo_map_input 0 [3; 9]),
            fst (UnmapBuffer_loop demo_GetObject demo_state [demo_entry 3]))
  /\ exists st',
       MapBuffer_loop true demo_GetObject demo_MapAllocate32 demo_state [demo_entry 3]
       = Ret (st', Some [reported demo_GetObject demo_state (demo_entry 3)])
       /\ MapBuffer true demo_GetObject demo_MapAllocate32 0 demo_state
            (demo_map_input 0 [3; 9]) (repeat Byte.xff 4)
          = Ret (NvErrCodes.InvalidInput, firstn 4 (demo_map_input 0 [3; 9]), st').
Proof.
  assert (Hp : @read_struct IoctlMapBuffer (Pod_IoctlMapBuffer 0) (demo_map_input 0 [3; 9])
               = Ret (demo_map_params 2 0)) by (vm_compute; reflexivity).
  assert (Hs : SpliceVectors MapBufferEntry (demo_map_input 0 [3; 9]) 2 4
               = Ret ([demo_entry 3] ++ demo_entry 9 :: [], 20))
    by (vm_compute; reflexivity).
  assert (Ho : (length (repeat Byte.xff 4) <= 4)%nat) by (vm_compute; lia).
  pose proof (MapBuffer_UnmapBuffer_stop_at_unresolved true demo_GetObject
                demo_MapAllocate32 0 demo_state (demo_map_input 0 [3; 9])
                (repeat Byte.xff 4) (demo_map_params 2 0) [demo_entry 3] []
                (demo_entry 9) 20 Hp Hs eq_refl Ho) as [HU HM].
  split; [exact Hp|]. split; [exact Hs|]. split; [reflexivity|]. split; [exact Ho|].
  split.
  - apply HU. intros e' [<-|[]]. discriminate.
  - destruct (MapBuffer_loop true demo_GetObject demo_MapAllocate32 demo_state
                [demo_entry 3])
      as [[st' [pre'|]]|f] eqn:EL; try (vm_compute in EL; discriminate EL).
    assert (Hpre : pre' = [reported demo_GetObject demo_state (demo_entry 3)])
      by (pose proof EL as E'; vm_compute in E'; injection E' as _ <-; reflexivity).
    exists st'. split; [rewrite Hpre; reflexivity|].
    exact (HM st' pre' eq_refl).
Defined.

(** X19 at work: the descriptor 7 is stored; an input of one byte is
    read past its end. *)
Lemma SetNVMAPfd_stores_witness :
  let s := {| device := demo_state; nvmap_fd := 0; submit_timeout := repeat Byte.x00 4 |} in
  SetNVMAPfd s [Byte.x01] = Fault OutOfBoundsRead
  /\ SetNVMAPfd s (put_u32 7 ++ [Byte.xff])
     = Ret (0, {| device := demo_state; nvmap_fd := 7;
                  submit_timeout := repeat Byte.x00 4 |}).
Proof.
  intros s. split.
  - apply (proj1 (SetNVMAPfd_stores s [Byte.x01])). vm_compute; lia.
  - apply (proj2 (proj2 (SetNVMAPfd_stores s (put_u32 7 ++ [Byte.xff]))) 7 [Byte.xff]).
    split; [discriminate | reflexivity].
Defined.

(** X20 at work: a member of 4 bytes; 2 bytes overwrite its first half,
    8 bytes do not fit. *)
Lemma SetSubmitTimeout_copies_witness :
  let s := {| device := demo_state; nvmap_fd := 0; submit_timeout := repeat Byte.x00 4 |} in
  SetSubmitTimeout s [Byte.x01; Byte.x02] [Byte.xff]
  = Ret (0, [Byte.xff],
         {| device := demo_state; nvmap_fd := 0;
            submit_timeout := [Byte.x01; Byte.x02; Byte.x00; Byte.x00] |})
  /\ SetSubmitTimeout s (repeat Byte.x01 8) [Byte.xff] = Fault OutOfBoundsWrite.
Proof.
  intros s. split.
  - refine (proj1 (proj1 (SetSubmitTimeout_copies s [Byte.x01; Byte.x02] [Byte.xff]) _)).
    vm_compute; lia.
  - apply (proj2 (SetSubmitTimeout_copies s (repeat Byte.x01 8) [Byte.xff])).
    vm_compute; lia.
Defined.

(** X21 at work: the full request of the session with an output buffer
    of 40 bytes, where 64 are written back. *)
Lemma Submit_short_output_witness :
  read_struct IoctlSubmit demo_submit_full = Ret demo_submit_params
  /\ SpliceVectors CommandBuffer demo_submit_full (cmd_buffer_count demo_submit_params)
       (Z.of_nat (sizeof IoctlSubmit))
     = Ret ([demo_cmd 3], 28)
  /\ Submit_input_size 16 8 8 demo_submit_params <= Z.of_nat (length demo_submit_full)
  /\ Submit_loop true demo_GetObject demo_ReadBlock
       (FindBufferMap true (buffer_mappings demo_state)) demo_state [demo_cmd 3]
     = Ret (with_gpu demo_state
              [ReadBlock 0x10008 8; PushCommandBuffer [0x10008; 0x1000C]], None)
  /\ Z.of_nat (length (repeat Byte.xff 40)) < Submit_output_size 16 8 demo_submit_params
  /\ Submit true demo_GetObject demo_ReadBlock 16 8 8 demo_state demo_submit_full
       (repeat Byte.xff 40)
     = Fault OutOfBoundsWrite.
Proof.
  assert (Hp : read_struct IoctlSubmit demo_submit_full = Ret demo_submit_params)
    by (vm_compute; reflexivity).
  assert (Hs : SpliceVectors CommandBuffer demo_submit_full
                 (cmd_buffer_count demo_submit_params) (Z.of_nat (sizeof IoctlSubmit))
               = Ret ([demo_cmd 3], 28)) by (vm_compute; reflexivity).
  assert (Hin : Submit_input_size 16 8 8 demo_submit_params
                <= Z.of_nat (length demo_submit_full)) by (vm_compute; discriminate).
  assert (HL : Submit_loop true demo_GetObject demo_ReadBlock
                 (FindBufferMap true (buffer_mappings demo_state)) demo_state [demo_cmd 3]
               = Ret (with_gpu demo_state
                        [ReadBlock 0x10008 8; PushCommandBuffer [0x10008; 0x1000C]], None))
    by (vm_compute; reflexivity).
  assert (Hout : Z.of_nat (length (repeat Byte.xff 40))
                 < Submit_output_size 16 8 demo_submit_params) by (vm_compute; reflexivity).
  split; [exact Hp|]. split; [exact Hs|]. split; [exact Hin|]. split; [exact HL|].
  split; [exact Hout|].
  exact (Submit_short_output true demo_GetObject demo_ReadBlock 16 8 8 demo_state _
           demo_submit_full (repeat Byte.xff 40) demo_submit_params [demo_cmd 3] 28
           Hp Hs Hin HL Hout).
Defined.
